(** * smc-influxdb: the SMC key codec, the fixed-point decoders, the two-phase
      key read, the fan and temperature reports and [main] of
      [smc-influxdb.c], embedded in Rocq.

    Conventions of the embedding.

    - C integers are [Z] with the wrap-around written out: [wrap32] is the
      value of an [int], [u32] of a [UInt32], [uchar] of an [unsigned char]
      and [schar] of a plain [char] (signed on the platforms the tool is
      built for: macOS on x86-64 and arm64).
    - A character buffer is a [list Z] of raw bytes; [load_char] reads one
      element the way the expression [str[i]] does, as a signed [char]
      promoted to [int].  A read outside the buffer has no defined result.
    - Operations the C standard leaves without a result are fallible: they
      return [None].  These are a shift whose count is not in [0, 32), a
      buffer read out of range and a [sprintf] that writes past its array.  A left shift whose count is in range is
      given the two's-complement result the target compilers produce.
    - [float] and [double] are IEEE-754 binary32 and binary64, computed with
      the Standard Library's executable specification [SpecFloat]. *)

From Stdlib Require Import ZArith List Bool Lia String Ascii SpecFloat DecimalString.
From Stdlib Require Import Permutation Sorted.
Import ListNotations.

Local Open Scope Z_scope.

(** ** The option monad of fallible C expressions *)

Definition obind {A B : Type} (a : option A) (f : A -> option B) : option B :=
  match a with
  | Some x => f x
  | None => None
  end.

Notation "x <- a ;; b" := (obind a (fun x => b))
  (at level 61, a at next level, right associativity).

(** ** C integer types *)

Module CInt.

(** Value of a 32-bit [int] holding the low 32 bits of [z]. *)
Definition wrap32 (z : Z) : Z := (z + 2 ^ 31) mod 2 ^ 32 - 2 ^ 31.

(** Value of a [UInt32] holding the low 32 bits of [z]. *)
Definition u32 (z : Z) : Z := z mod 2 ^ 32.

(** Conversion to [unsigned char]. *)
Definition uchar (z : Z) : Z := z mod 256.

(** Value of a (signed) [char] whose object representation is the byte [z]. *)
Definition schar (z : Z) : Z :=
  let u := z mod 256 in if u <? 128 then u else u - 256.

Definition shift_count_ok (n : Z) : bool := (0 <=? n) && (n <? 32).

(** [a << n] on [int]. *)
Definition shl_int (a n : Z) : option Z :=
  if shift_count_ok n then Some (wrap32 (Z.shiftl a n)) else None.

(** [a >> n] on [int]. *)
Definition shr_int (a n : Z) : option Z :=
  if shift_count_ok n then Some (Z.shiftr a n) else None.

End CInt.
Import CInt.

(** ** Character buffers *)

Definition buffer := list Z.

(** [str[i]]: the element read as a [char] and promoted to [int]. *)
Definition load_char (str : buffer) (i : Z) : option Z :=
  if i <? 0 then None
  else match nth_error str (Z.to_nat i) with
       | Some b => Some (schar b)
       | None => None
       end.

(** The bytes of a string literal, without the terminating NUL. *)
Fixpoint bytes_of_string (s : string) : buffer :=
  match s with
  | EmptyString => []
  | String c s' => Z.of_N (N_of_ascii c) :: bytes_of_string s'
  end.

(** The C string held by a buffer: its bytes up to the first NUL. *)
Fixpoint cstr (b : buffer) : buffer :=
  match b with
  | [] => []
  | c :: b' => if c mod 256 =? 0 then [] else c :: cstr b'
  end.

Fixpoint buffer_eqb (a b : buffer) : bool :=
  match a, b with
  | [], [] => true
  | x :: a', y :: b' => (x =? y) && buffer_eqb a' b'
  | _, _ => false
  end.

(** [strcmp(a, lit) == 0]. *)
Definition strcmp_eq (a : buffer) (lit : string) : bool :=
  buffer_eqb (cstr a) (bytes_of_string lit).

(** ** Key codec *)

(** The body of the [for] loop of [_strtoul], run [n] more times from index
    [i] with the running [total]. *)
Fixpoint strtoul_loop (str : buffer) (size base : Z) (n : nat) (i total : Z)
  : option Z :=
  match n with
  | O => Some total
  | S n' =>
      c <- load_char str i ;;
      v <- shl_int c ((size - 1 - i) * 8) ;;
      strtoul_loop str size base n' (i + 1)
        (if base =? 16 then u32 (total + v) else u32 (total + uchar v))
  end.

(** [UInt32 _strtoul(char* str, int size, int base)]. *)
Definition _strtoul (str : buffer) (size base : Z) : option Z :=
  strtoul_loop str size base (Z.to_nat size) 0 0.

(** [void _ultostr(char* str, UInt32 val)]: the five bytes [sprintf] stores,
    each [%c] argument converted to [unsigned char]. *)
Definition _ultostr (val : Z) : buffer :=
  [ uchar (Z.shiftr (u32 val) 24);
    uchar (Z.shiftr (u32 val) 16);
    uchar (Z.shiftr (u32 val) 8);
    uchar (u32 val);
    0 ].

(** Big-endian unsigned value of a byte sequence: the reading of the fan
    count that the specification describes. *)
Definition be_unsigned (bytes : buffer) : Z :=
  fold_left (fun acc b => acc * 256 + b mod 256) bytes 0.


(** ** IEEE-754 arithmetic of [float] and [double] *)

(** Operations shared by both formats, for precision [prec] and exponent
    bound [emax]. *)
Section Format.
Variables prec emax : Z.

(** Conversion of an integer ([(float)n], [(double)n]): round to nearest,
    ties to even. *)
Definition fmt_of_Z (z : Z) : spec_float := binary_normalize prec emax z 0 false.

(** Conversion of a value of another format into this one. *)
Definition fmt_round (x : spec_float) : spec_float :=
  match x with
  | S754_finite s m e => binary_round prec emax s m e
  | _ => x
  end.
End Format.

Module F32.
Definition prec := 24.
Definition emax := 128.
Definition of_Z := fmt_of_Z prec emax.
Definition of_f64 := fmt_round prec emax.
Definition add := SFadd prec emax.
Definition sub := SFsub prec emax.
Definition mul := SFmul prec emax.
Definition div := SFdiv prec emax.
Definition ltb := SFltb.
Definition zero := S754_zero false.
(** The [float] nearest to [m * 2 ^ e]. *)
Definition of_dyadic (m e : Z) : spec_float := binary_normalize prec emax m e false.

(** The [float] whose object representation is the 32-bit pattern [w]. *)
Definition of_bits (w : Z) : spec_float :=
  let s := Z.testbit w 31 in
  let ex := Z.land (Z.shiftr w 23) 255 in
  let mant := Z.land w (2 ^ 23 - 1) in
  if ex =? 255 then (if mant =? 0 then S754_infinity s else S754_nan)
  else if ex =? 0 then
    match mant with
    | Zpos m => S754_finite s m (-149)
    | _ => S754_zero s
    end
  else
    match mant + 2 ^ 23 with
    | Zpos m => S754_finite s m (ex - 150)
    | _ => S754_nan
    end.
End F32.

Module F64.
Definition prec := 53.
Definition emax := 1024.
Definition of_Z := fmt_of_Z prec emax.
Definition of_f32 := fmt_round prec emax.
Definition add := SFadd prec emax.
Definition sub := SFsub prec emax.
Definition mul := SFmul prec emax.
Definition div := SFdiv prec emax.
Definition ltb := SFltb.
Definition zero := S754_zero false.
(** The literal [0.25]. *)
Definition quarter := binary_normalize prec emax 1 (-2) false.
End F64.

(** ** Fixed-point decoder *)

(** The [for] loop of [_strtof], run [n] more times from index [i]; [total]
    is the [float] accumulator. *)
Fixpoint strtof_loop (str : buffer) (size e : Z) (n : nat) (i : Z)
  (total : spec_float) : option spec_float :=
  match n with
  | O => Some total
  | S n' =>
      c <- load_char str i ;;
      v <- (if i =? size - 1 then shr_int (Z.land c 255) e
            else shl_int c ((size - 1 - i) * (8 - e))) ;;
      strtof_loop str size e n' (i + 1) (F32.add total (F32.of_Z v))
  end.

(** [float _strtof(char* str, int size, int e)].  The last statement is
    evaluated in [double] (the constant [0.25] is one) and stored back in the
    [float] accumulator. *)
Definition _strtof (str : buffer) (size e : Z) : option spec_float :=
  total <- strtof_loop str size e (Z.to_nat size) 0 F32.zero ;;
  c <- load_char str (size - 1) ;;
  Some (F32.of_f64
          (F64.add (F64.of_f32 total)
                   (F64.mul (F64.of_Z (Z.land c 3)) F64.quarter))).


(** ** Controller structures *)

Definition kern_return_t := Z.
Definition kIOReturnSuccess : kern_return_t := 0.

Definition KERNEL_INDEX_SMC : Z := 2.
Definition SMC_CMD_READ_BYTES : Z := 5.
Definition SMC_CMD_READ_KEYINFO : Z := 9.

Record SMCKeyData_vers_t := {
  v_major : Z; v_minor : Z; v_build : Z; v_reserved : Z; v_release : Z }.

Record SMCKeyData_pLimitData_t := {
  pl_version : Z; pl_length : Z; pl_cpuPLimit : Z; pl_gpuPLimit : Z; pl_memPLimit : Z }.

Record SMCKeyData_keyInfo_t := {
  ki_dataSize : Z; ki_dataType : Z; ki_dataAttributes : Z }.

Record SMCKeyData_t := {
  kd_key : Z;
  kd_vers : SMCKeyData_vers_t;
  kd_pLimitData : SMCKeyData_pLimitData_t;
  kd_keyInfo : SMCKeyData_keyInfo_t;
  kd_result : Z;
  kd_status : Z;
  kd_data8 : Z;
  kd_data32 : Z;
  kd_bytes : buffer }.

Record SMCVal_t := {
  key : buffer;
  dataSize : Z;
  dataType : buffer;
  bytes : buffer }.

(** The state of a structure after [memset(&x, 0, sizeof x)]. *)
Definition zero_bytes (n : nat) : buffer := repeat 0 n.

Definition zero_keyInfo : SMCKeyData_keyInfo_t :=
  {| ki_dataSize := 0; ki_dataType := 0; ki_dataAttributes := 0 |}.

Definition zero_SMCKeyData : SMCKeyData_t :=
  {| kd_key := 0;
     kd_vers := {| v_major := 0; v_minor := 0; v_build := 0; v_reserved := 0; v_release := 0 |};
     kd_pLimitData := {| pl_version := 0; pl_length := 0; pl_cpuPLimit := 0;
                         pl_gpuPLimit := 0; pl_memPLimit := 0 |};
     kd_keyInfo := zero_keyInfo;
     kd_result := 0; kd_status := 0; kd_data8 := 0; kd_data32 := 0;
     kd_bytes := zero_bytes 32 |}.

Definition zero_SMCVal : SMCVal_t :=
  {| key := zero_bytes 5; dataSize := 0; dataType := zero_bytes 5;
     bytes := zero_bytes 32 |}.

Definition set_request (d : SMCKeyData_t) (k data8 size : Z) : SMCKeyData_t :=
  {| kd_key := k; kd_vers := kd_vers d; kd_pLimitData := kd_pLimitData d;
     kd_keyInfo := {| ki_dataSize := size;
                      ki_dataType := ki_dataType (kd_keyInfo d);
                      ki_dataAttributes := ki_dataAttributes (kd_keyInfo d) |};
     kd_result := kd_result d; kd_status := kd_status d;
     kd_data8 := data8; kd_data32 := kd_data32 d; kd_bytes := kd_bytes d |}.

(** [memcpy(dst, src, 32)] into a 32-byte array. *)
Definition memcpy32 (src : buffer) : buffer :=
  firstn 32 (map (fun b => b mod 256) src ++ zero_bytes 32).

(** Little-endian 32-bit word at the start of a buffer (the native byte
    order of the machines the tool runs on). *)
Definition le32 (b : buffer) : Z :=
  nth 0 b 0 mod 256 + nth 1 b 0 mod 256 * 2 ^ 8
  + nth 2 b 0 mod 256 * 2 ^ 16 + nth 3 b 0 mod 256 * 2 ^ 24.

(** A fan line of the report. [fan_sensor] is the content of the [fanID]
    array when the line is printed; [None] stands for an array that no
    statement has written yet. *)
Record FanReading := {
  fan_index : Z;
  fan_sensor : option string;
  fan_rpm : spec_float;
  fan_percent : spec_float }.

(** ** Fan percent and label *)

(** The three statements that compute [pct] in [influxSMCfans]; [cur] is a
    [double], [min] and [max] are [float]s. *)
Definition fan_pct (cur min max : spec_float) : spec_float :=
  let pct := F32.of_f64
               (F64.div (F64.sub cur (F64.of_f32 min))
                        (F64.of_f32 (F32.sub max min))) in
  let pct := F32.mul pct (F32.of_Z 100) in
  if F32.ltb pct F32.zero then F32.zero else pct.

(** The [switch (i)] statement: the content of [fanID] after it, given the
    content before.  ['?'] is the integer 63. *)
Definition fan_switch (nFans i : Z) (fanID : option string) : option string :=
  if i =? 0 then (if nFans =? 1 then Some "Main"%string else Some "Left"%string)
  else if i =? 1 then Some "Right"%string
  else if i =? Z.of_N (N_of_ascii "?"%char) then Some "Other"%string
  else fanID.

(** The text the format ["F%d<suffix>"] gives for [i], with its NUL.  From
    index 10 on the text has more than four characters. *)
Definition fan_key (i : Z) (suffix : string) : buffer :=
  bytes_of_string ("F" ++ NilZero.string_of_int (Z.to_int i) ++ suffix) ++ [0].

(** [sprintf(key, "F%d<suffix>", i)] into [UInt32Char_t key], an array of
    five bytes: the text of [fan_key] when it fits with its NUL.  A longer
    text is written past the end of the array, which has no defined
    result. *)
Definition sprintf_key (i : Z) (suffix : string) : option buffer :=
  let text := fan_key i suffix in
  if (List.length text <=? 5)%nat then Some text else None.

(** ** Controller session *)

Section Controller.

(** The state of the SMC service and the kernel call that both branches of
    [SMCCall] forward to: selector, input structure and the current content
    of the output structure in, result code and new output structure out. *)
Variable World : Type.
Variable IOConnectCallStructMethod :
  World -> Z -> SMCKeyData_t -> SMCKeyData_t -> kern_return_t * SMCKeyData_t * World.

(** A session: the service state behind the global [conn], and the list of
    requests issued so far (selector and input structure), oldest first. *)
Record Session := { world : World; issued : list (Z * SMCKeyData_t) }.

Definition SMCCall (index : Z) (inputStructure outputStructure : SMCKeyData_t)
  (s : Session) : kern_return_t * SMCKeyData_t * Session :=
  let '(r, out, w) :=
    IOConnectCallStructMethod (world s) index inputStructure outputStructure in
  (r, out, {| world := w; issued := issued s ++ [(index, inputStructure)] |}).

(** [kern_return_t SMCReadKey(UInt32Char_t key, SMCVal_t* val)]. *)
Definition SMCReadKey (k : buffer) (s : Session)
  : option (kern_return_t * SMCVal_t * Session) :=
  let inputStructure := zero_SMCKeyData in
  let outputStructure := zero_SMCKeyData in
  let val := zero_SMCVal in
  packed <- _strtoul k 4 16 ;;
  let inputStructure := set_request inputStructure packed SMC_CMD_READ_KEYINFO
                          (ki_dataSize (kd_keyInfo inputStructure)) in
  let '(result, outputStructure, s) :=
    SMCCall KERNEL_INDEX_SMC inputStructure outputStructure s in
  if negb (result =? kIOReturnSuccess) then Some (result, val, s)
  else
    let val := {| key := key val;
                  dataSize := u32 (ki_dataSize (kd_keyInfo outputStructure));
                  dataType := _ultostr (ki_dataType (kd_keyInfo outputStructure));
                  bytes := bytes val |} in
    let inputStructure := set_request inputStructure packed SMC_CMD_READ_BYTES
                            (dataSize val) in
    let '(result, outputStructure, s) :=
      SMCCall KERNEL_INDEX_SMC inputStructure outputStructure s in
    if negb (result =? kIOReturnSuccess) then Some (result, val, s)
    else
      Some (kIOReturnSuccess,
            {| key := key val; dataSize := dataSize val;
               dataType := dataType val;
               bytes := memcpy32 (kd_bytes outputStructure) |},
            s).

(** [float getSMCrpm(char* key)]. *)
Definition getSMCrpm (k : buffer) (s : Session) : option (spec_float * Session) :=
  r <- SMCReadKey k s ;;
  let '(result, val, s) := r in
  if (result =? kIOReturnSuccess) && (0 <? dataSize val) then
    if strcmp_eq (dataType val) "flt " then
      Some (F32.of_bits (le32 (bytes val)), s)
    else if strcmp_eq (dataType val) "fpe2" then
      fval <- _strtof (bytes val) (wrap32 (dataSize val)) 2 ;;
      Some (fval, s)
    else Some (F32.of_Z (-1), s)
  else Some (F32.of_Z (-1), s).

(** The two statements of the ["sp78"] branch of [getSMCtemp]. *)
Definition sp78_value (b : buffer) : option spec_float :=
  b0 <- load_char b 0 ;;
  b1 <- load_char b 1 ;;
  let intValue := wrap32 (b0 * 256 + uchar b1) in
  Some (F64.div (F64.of_Z intValue) (F64.of_Z 256)).

(** [double getSMCtemp(char* key)]. *)
Definition getSMCtemp (k : buffer) (s : Session) : option (spec_float * Session) :=
  r <- SMCReadKey k s ;;
  let '(result, val, s) := r in
  if (result =? kIOReturnSuccess) && (0 <? dataSize val)
     && strcmp_eq (dataType val) "sp78" then
    t <- sp78_value (bytes val) ;;
    Some (t, s)
  else Some (F64.zero, s).

(** One pass through the body of the [for] loop of [influxSMCfans], for
    index [i]: the session, the content of [fanID] and the lines printed so
    far, before and after.  The pass has no defined result when a key text
    does not fit [key]. *)
Definition fan_iteration (nFans i : Z)
  (st : Session * option string * list FanReading)
  : option (Session * option string * list FanReading) :=
  let '(s, fanID, out) := st in
  key <- sprintf_key i "ID" ;;
  r <- SMCReadKey key s ;;
  let '(result, _, s) := r in
  if negb (result =? kIOReturnSuccess) then Some (s, fanID, out) else
  key <- sprintf_key i "Ac" ;;
  r <- getSMCrpm key s ;;
  let '(f, s) := r in
  let cur := F64.of_f32 f in
  if F64.ltb cur (F64.of_f32 F32.zero) then Some (s, fanID, out) else
  key <- sprintf_key i "Mn" ;;
  r <- getSMCrpm key s ;;
  let '(min, s) := r in
  if F32.ltb min F32.zero then Some (s, fanID, out) else
  key <- sprintf_key i "Mx" ;;
  r <- getSMCrpm key s ;;
  let '(max, s) := r in
  if F32.ltb max F32.zero then Some (s, fanID, out) else
  let pct := fan_pct cur min max in
  let fanID := fan_switch nFans i fanID in
  if F64.ltb F64.zero cur then
    Some (s, fanID,
          out ++ [ {| fan_index := i; fan_sensor := fanID;
                      fan_rpm := cur; fan_percent := pct |} ])
  else Some (s, fanID, out).

(** The [for] loop, run [n] more times from index [i]. *)
Fixpoint fans_loop (nFans : Z) (n : nat) (i : Z)
  (st : Session * option string * list FanReading)
  : option (Session * option string * list FanReading) :=
  match n with
  | O => Some st
  | S n' =>
      st' <- fan_iteration nFans i st ;;
      fans_loop nFans n' (i + 1) st'
  end.

(** [void influxSMCfans()]: the session afterwards and the lines printed. *)
Definition influxSMCfans (s : Session) : option (Session * list FanReading) :=
  r <- SMCReadKey (bytes_of_string "FNum" ++ [0]) s ;;
  let '(result, val, s) := r in
  if result =? kIOReturnSuccess then
    n <- _strtoul (bytes val) (wrap32 (dataSize val)) 10 ;;
    let nFans := wrap32 n in
    st <- fans_loop nFans (Z.to_nat nFans) 0 (s, None, []) ;;
    let '(s, _, out) := st in
    Some (s, out)
  else Some (s, []).

End Controller.

Arguments world {World}.
Arguments issued {World}.
Arguments Build_Session {World}.
Arguments SMCCall {World}.
Arguments SMCReadKey {World}.
Arguments getSMCrpm {World}.
Arguments getSMCtemp {World}.
Arguments fan_iteration {World}.
Arguments fans_loop {World}.
Arguments influxSMCfans {World}.


(** ** A table-driven controller for running the model

    The service state is trivial; a key listed in the table answers the
    key-info request with its size and type and the read-bytes request with
    its bytes; any other request fails with [kIOReturnNotFound]. *)

Record Sensor := {
  s_key : string;
  s_type : string;
  s_size : Z;
  s_bytes : buffer }.

Definition kIOReturnNotFound : kern_return_t := 0xE00002F0.

Definition pack4 (s : string) : Z :=
  match _strtoul (bytes_of_string s) 4 16 with
  | Some v => v
  | None => 0
  end.

Definition with_keyInfo (d : SMCKeyData_t) (size type : Z) : SMCKeyData_t :=
  {| kd_key := kd_key d; kd_vers := kd_vers d; kd_pLimitData := kd_pLimitData d;
     kd_keyInfo := {| ki_dataSize := size; ki_dataType := type;
                      ki_dataAttributes := 0 |};
     kd_result := kd_result d; kd_status := kd_status d;
     kd_data8 := kd_data8 d; kd_data32 := kd_data32 d; kd_bytes := kd_bytes d |}.

Definition with_bytes (d : SMCKeyData_t) (b : buffer) : SMCKeyData_t :=
  {| kd_key := kd_key d; kd_vers := kd_vers d; kd_pLimitData := kd_pLimitData d;
     kd_keyInfo := kd_keyInfo d;
     kd_result := kd_result d; kd_status := kd_status d;
     kd_data8 := kd_data8 d; kd_data32 := kd_data32 d; kd_bytes := b |}.

Definition table_smc (tbl : list Sensor) (w : unit) (index : Z)
  (input output : SMCKeyData_t) : kern_return_t * SMCKeyData_t * unit :=
  match find (fun e => pack4 (s_key e) =? kd_key input) tbl with
  | Some e =>
      if negb (index =? KERNEL_INDEX_SMC) then (kIOReturnNotFound, output, w)
      else if kd_data8 input =? SMC_CMD_READ_KEYINFO then
        (kIOReturnSuccess, with_keyInfo output (s_size e) (pack4 (s_type e)), w)
      else if kd_data8 input =? SMC_CMD_READ_BYTES then
        (kIOReturnSuccess, with_bytes output (s_bytes e), w)
      else (kIOReturnNotFound, output, w)
  | None => (kIOReturnNotFound, output, w)
  end.

(** The session right after [SMCOpen]. *)
Definition opened {World : Type} (w : World) : Session World :=
  {| world := w; issued := [] |}.

(** A key string as the callers pass it: the text and its NUL. *)
Definition lit (s : string) : buffer := bytes_of_string s ++ [0].

(** One fan in ["fpe2"] format: identifier, current, minimum and maximum
    speed, each speed given by its two bytes. *)
Definition fan_entries (i : string) (ac mn mx : buffer) : list Sensor :=
  [ {| s_key := "F" ++ i ++ "ID"; s_type := "ch8*"; s_size := 16; s_bytes := [] |};
    {| s_key := "F" ++ i ++ "Ac"; s_type := "fpe2"; s_size := 2; s_bytes := ac |};
    {| s_key := "F" ++ i ++ "Mn"; s_type := "fpe2"; s_size := 2; s_bytes := mn |};
    {| s_key := "F" ++ i ++ "Mx"; s_type := "fpe2"; s_size := 2; s_bytes := mx |} ].

(** A machine with one CPU probe at 44 degrees and three fans at 3000 RPM
    in a 1000 to 5000 RPM range; [fnum] is the value of the [FNum] key. *)
Definition sample_table (fnum : buffer) : list Sensor :=
  [ {| s_key := "TC0P"; s_type := "sp78"; s_size := 2; s_bytes := [0x2C; 0x00] |};
    {| s_key := "FNum"; s_type := "ui8 "; s_size := Z.of_nat (List.length fnum);
       s_bytes := fnum |} ]
  ++ fan_entries "0" [0x2E; 0xE0] [0x0F; 0xA0] [0x4E; 0x20]
  ++ fan_entries "1" [0x2E; 0xE0] [0x0F; 0xA0] [0x4E; 0x20]
  ++ fan_entries "2" [0x2E; 0xE0] [0x0F; 0xA0] [0x4E; 0x20].

(** ** The fixed-point formula as the specification words it

    Every byte is taken as unsigned; the bytes before the last are shifted
    left by [(size-1-i)*(8-e)], the last one is shifted right by [e], and
    its two low bits count a quarter each.  The value is kept as a number of
    quarters. *)
Definition strtof_claimed_quarters (str : buffer) (size e : Z) : Z :=
  let hi := fold_left
              (fun acc i =>
                 acc + Z.shiftl (nth i str 0 mod 256)
                                ((size - 1 - Z.of_nat i) * (8 - e)))
              (seq 0 (Z.to_nat (size - 1))) 0 in
  let last := nth (Z.to_nat (size - 1)) str 0 mod 256 in
  4 * hi + 4 * Z.shiftr (Z.land last 255) e + Z.land last 3.

Definition strtof_claimed (str : buffer) (size e : Z) : spec_float :=
  F32.of_dyadic (strtof_claimed_quarters str size e) (-2).

(** ** The percent formula as the specification words it *)

Definition clamp_low_at_0 (x : spec_float) : spec_float :=
  if F32.ltb x F32.zero then F32.zero else x.

(** [(current - min) / (max - min) * 100] before the clamp, with the types
    the operands have in the source. *)
Definition percent_unclamped (cur min max : spec_float) : spec_float :=
  F32.mul
    (F32.of_f64 (F64.div (F64.sub cur (F64.of_f32 min))
                         (F64.of_f32 (F32.sub max min))))
    (F32.of_Z 100).

Definition percent_claimed (cur min max : spec_float) : spec_float :=
  clamp_low_at_0 (percent_unclamped cur min max).

(** A number that is neither an infinity nor a NaN. *)
Definition is_finite (x : spec_float) : bool :=
  match x with
  | S754_zero _ | S754_finite _ _ _ => true
  | S754_infinity _ | S754_nan => false
  end.

(** The request of the first phase for a packed key. *)
Definition keyinfo_request (packed : Z) : SMCKeyData_t :=
  set_request zero_SMCKeyData packed SMC_CMD_READ_KEYINFO 0.

(** The request of the second phase for a packed key and a declared size. *)
Definition bytes_request (packed size : Z) : SMCKeyData_t :=
  set_request (keyinfo_request packed) packed SMC_CMD_READ_BYTES size.

Definition log_request {World : Type} (s : Session World) (w : World)
  (req : SMCKeyData_t) : Session World :=
  {| world := w; issued := issued s ++ [(KERNEL_INDEX_SMC, req)] |}.

(** ** Classes of floating-point numbers used in the statements *)

(** A number with sign bit [s]: a zero, a finite number or an infinity. *)
Definition sign_any (s : bool) (x : spec_float) : Prop :=
  match x with
  | S754_finite s' _ _ | S754_infinity s' | S754_zero s' => s' = s
  | S754_nan => False
  end.

(** A non-zero number with sign bit [s]: finite or infinite. *)
Definition sign_nonzero (s : bool) (x : spec_float) : Prop :=
  match x with
  | S754_finite s' _ _ | S754_infinity s' => s' = s
  | _ => False
  end.

(** A [float] a speed read can yield that is finite and not negative: [+0]
    or a positive number in its canonical representation. *)
Definition rpm_value (x : spec_float) : bool :=
  match x with
  | S754_zero false => true
  | S754_finite false m e => bounded F32.prec F32.emax m e
  | _ => false
  end.

(** A finite [float] a speed read can yield that passes the tests [x < 0]
    of the fan loop: a zero of either sign, or a positive number in its
    canonical representation. *)
Definition rpm_passes (x : spec_float) : bool :=
  match x with
  | S754_zero _ => true
  | S754_finite false m e => bounded F32.prec F32.emax m e
  | _ => false
  end.

(** The bounds [max] and [min] for which the divisor [max - min] is [-0.0]:
    [max] is [-0.0] and [min] is [+0.0]. *)
Definition negative_zero_divisor (mn mx : spec_float) : bool :=
  match mx, mn with
  | S754_zero true, S754_zero false => true
  | _, _ => false
  end.

(** [x > y] on floating-point numbers. *)
Definition SFgtb (x y : spec_float) : bool :=
  match SFcompare x y with
  | Some Gt => true
  | _ => false
  end.

(** The number of bits by which the rounding step shifts a mantissa [m]
    with exponent [e] to the right, for a given format. *)
Definition shift_of (prec emax m e : Z) : Z :=
  Z.max 0 (fexp prec emax (Zdigits2 m + e) - e).

(** ** Decidable checks used to settle finite cases by evaluation *)

Definition sf_eqb (x y : spec_float) : bool :=
  match x, y with
  | S754_zero a, S754_zero b => Bool.eqb a b
  | S754_infinity a, S754_infinity b => Bool.eqb a b
  | S754_nan, S754_nan => true
  | S754_finite a m e, S754_finite b m' e' => Bool.eqb a b && Pos.eqb m m' && Z.eqb e e'
  | _, _ => false
  end.

(** A fallible computation returns the number [v]. *)
Definition returns_sf (o : option spec_float) (v : spec_float) : bool :=
  match o with
  | Some x => sf_eqb x v
  | None => false
  end.

(** [p] holds of every integer from 0 up to [n - 1]. *)
Fixpoint all_below (n : nat) (p : Z -> bool) : bool :=
  match n with
  | O => true
  | S n' => p (Z.of_nat n') && all_below n' p
  end.


(** ** The names the specification gives to the codec *)

(** [encodeKey]: the call [_strtoul(key, 4, 16)] of [SMCReadKey]. *)
Definition encodeKey (k : buffer) : option Z := _strtoul k 4 16.

(** [decodeTypeTag]: the call of [_ultostr] on the reported data type. *)
Definition decodeTypeTag (v : Z) : buffer := _ultostr v.

(** ** The rest of the program: temperature lines, options, host name *)

(** The requests the program is allowed to issue: selector 2 with one of the
    two read commands. *)
Definition read_request (p : Z * SMCKeyData_t) : Prop :=
  fst p = KERNEL_INDEX_SMC
  /\ (kd_data8 (snd p) = SMC_CMD_READ_KEYINFO \/ kd_data8 (snd p) = SMC_CMD_READ_BYTES).

(** Session [s'] continues [s]: its log is the log of [s] followed by read
    requests only. *)
Definition reads_only {World : Type} (s s' : Session World) : Prop :=
  exists new, issued s' = issued s ++ new /\ Forall read_request new.

(** A line of the output.  [hostTag] and [ens] are the globals the two
    [printf] of the report include; the last three lines are the messages of
    [SMCOpen], which also go to the standard output. *)
Inductive Line :=
| UsageText
| TemperatureLine (hostTag key sensor : string) (temp : spec_float) (ens : Z)
| FanLine (hostTag : string) (r : FanReading) (ens : Z)
| MatchingServicesError (result : kern_return_t)
| NoSMCFoundError
| ServiceOpenError (result : kern_return_t).

(** What the IOKit calls of [SMCOpen] and [SMCClose] answer: the result of
    [IOServiceGetMatchingServices], the object [IOIteratorNext] returns (0
    when there is none), the result of [IOServiceOpen] and the result of
    [IOServiceClose]. *)
Record IOKit := {
  matching_result : kern_return_t;
  first_device : Z;
  open_result : kern_return_t;
  close_result : kern_return_t }.

(** [kern_return_t SMCOpen(void)]: the value returned and the line printed. *)
Definition SMCOpen (io : IOKit) : kern_return_t * list Line :=
  if negb (matching_result io =? kIOReturnSuccess) then
    (1, [MatchingServicesError (matching_result io)])
  else if first_device io =? 0 then (1, [NoSMCFoundError])
  else if negb (open_result io =? kIOReturnSuccess) then
    (1, [ServiceOpenError (open_result io)])
  else (kIOReturnSuccess, []).

(** [kern_return_t SMCClose()]. *)
Definition SMCClose (io : IOKit) : kern_return_t := close_result io.

(** A machine on which the service opens and closes, and one without any
    SMC device. *)
Definition io_opened : IOKit :=
  {| matching_result := kIOReturnSuccess; first_device := 1;
     open_result := kIOReturnSuccess; close_result := kIOReturnSuccess |}.

Definition io_no_device : IOKit :=
  {| matching_result := kIOReturnSuccess; first_device := 0;
     open_result := kIOReturnSuccess; close_result := kIOReturnSuccess |}.

Section Report.
Variable World : Type.
Variable call :
  World -> Z -> SMCKeyData_t -> SMCKeyData_t -> kern_return_t * SMCKeyData_t * World.
Variable hostTag : string.
Variable ens : Z.

(** [void influxSMCtemp(char* key, char* sensor)]: the session and the
    lines printed so far, before and after. *)
Definition influxSMCtemp (k sensor : string) (st : Session World * list Line)
  : option (Session World * list Line) :=
  let '(s, out) := st in
  r <- getSMCtemp call (lit k) s ;;
  let '(temperature, s) := r in
  if F64.ltb F64.zero temperature then
    Some (s, out ++ [TemperatureLine hostTag k sensor temperature ens])
  else Some (s, out).

(** A sequence of calls of [influxSMCtemp], in order. *)
Fixpoint temps (l : list (string * string)) (st : Session World * list Line)
  : option (Session World * list Line) :=
  match l with
  | [] => Some st
  | (k, sensor) :: l' =>
      st' <- influxSMCtemp k sensor st ;;
      temps l' st'
  end.

(** A call of [influxSMCfans] from [main]: its lines follow the earlier ones. *)
Definition fans (st : Session World * list Line) : option (Session World * list Line) :=
  let '(s, out) := st in
  r <- influxSMCfans call s ;;
  let '(s, lines) := r in
  Some (s, out ++ map (fun l => FanLine hostTag l ens) lines).

End Report.

Arguments influxSMCtemp {World}.
Arguments temps {World}.
Arguments fans {World}.

(** The calls of [influxSMCtemp] that [main] makes under [-A], in order. *)
Definition all_temperature_keys : list (string * string) :=
  [ ("TC0P","CPU"); ("TC0p","CPU"); ("TCXr","CPU-Package"); ("TCXR","CPU-Package");
    ("TC0E","CPU-Virtual-1"); ("TC0F","CPU-Virtual-2");
    ("TC1C","CPU-Core-1"); ("TC2C","CPU-Core-2"); ("TC3C","CPU-Core-3");
    ("TC4C","CPU-Core-4"); ("TC5C","CPU-Core-5"); ("TC6C","CPU-Core-6");
    ("TC7C","CPU-Core-7"); ("TC8C","CPU-Core-8");
    ("TC0c","CPU-Core-1"); ("TC1c","CPU-Core-2"); ("TC2c","CPU-Core-3");
    ("TC3c","CPU-Core-4");
    ("TG0P","GPU"); ("TG1P","GPU-VRAM"); ("TG0D","GPU-Die"); ("TG0p","GPU");
    ("TH0P","HDD"); ("TH0V","HDD-Drive");
    ("TH0X","SSD"); ("TH0F","SSD-Filtered"); ("TH0a","SSD-Drive-0-A");
    ("TH0b","SSD-Drive-0-B"); ("TH1a","SSD-Drive-1-A"); ("TH1b","SSD-Drive-1-B");
    ("TH1c","SSD-Drive-1-C"); ("TH1A","SSD-Drive-1-A"); ("TH1B","SSD-Drive-1-B");
    ("TL0P","LCD"); ("TL0V","LCD-Front-Right"); ("TL0p","LCD-Front");
    ("TL1V","LCD-Front-Center");
    ("Ts0S","Memory"); ("TM0P","Memory-Bank-1"); ("TM1P","Memory-Bank-2");
    ("TM0p","Memory-DIMM-1"); ("TM1p","Memory-DIMM-2"); ("TM2p","Memory-DIMM-3");
    ("TM3p","Memory-DIMM-4"); ("TM41","Memory-Virtual");
    ("Tm0P","Mainboard"); ("Tm1P","Mainboard-Bottom");
    ("TW0P","WiFi");
    ("TB1T","Battery-1"); ("TB2T","Battery-2");
    ("TA0V","Ambient"); ("Ts0P","Palm-Rest-1"); ("Ts1P","Palm-Rest-2");
    ("Ts1S","Skin-Top"); ("TA0P","Airflow-1"); ("TA1P","Airflow-2");
    ("Th1H","Heatpipe-Left"); ("Th2H","Heatpipe-Right");
    ("TS0V","Skin"); ("Tb0p","Backlight"); ("Tb0P","BLC");
    ("TPCD","PCH-Die"); ("TCGC","PECI-GPU"); ("TCXC","PECI-CPU");
    ("TCMX","PECI-MAX"); ("TCSA","PECI-SA");
    ("TCGc","PECI-GPU"); ("TCSc","PECI-SA"); ("TCXc","PECI-CPU");
    ("Te0T","TBT-Diode"); ("Tm0p","EMC-Diode"); ("Tp0C","Power-Supply");
    ("Tp2h","Power-Supply-Heatsink") ]%string.

(** The option variables of [main]. *)
Record Flags := {
  f_cpu : bool; f_gpu : bool; f_wfi : bool; f_ssd : bool;
  f_fan : bool; f_all : bool; f_tag : bool }.

Definition no_flags : Flags :=
  {| f_cpu := false; f_gpu := false; f_wfi := false; f_ssd := false;
     f_fan := false; f_all := false; f_tag := false |}.

(** The [switch (args)] of the option loop for one character returned by
    [getopt]; [None] is the branch that prints the usage and returns -1. *)
Definition option_case (f : Flags) (c : ascii) : option Flags :=
  if Ascii.eqb c "a" then
    Some {| f_cpu := true; f_gpu := true; f_wfi := true; f_ssd := true;
            f_fan := true; f_all := f_all f; f_tag := f_tag f |}
  else if Ascii.eqb c "A" then
    Some {| f_cpu := f_cpu f; f_gpu := f_gpu f; f_wfi := f_wfi f; f_ssd := f_ssd f;
            f_fan := f_fan f; f_all := true; f_tag := f_tag f |}
  else if Ascii.eqb c "c" then
    Some {| f_cpu := true; f_gpu := f_gpu f; f_wfi := f_wfi f; f_ssd := f_ssd f;
            f_fan := f_fan f; f_all := f_all f; f_tag := f_tag f |}
  else if Ascii.eqb c "f" then
    Some {| f_cpu := f_cpu f; f_gpu := f_gpu f; f_wfi := f_wfi f; f_ssd := f_ssd f;
            f_fan := true; f_all := f_all f; f_tag := f_tag f |}
  else if Ascii.eqb c "g" then
    Some {| f_cpu := f_cpu f; f_gpu := true; f_wfi := f_wfi f; f_ssd := f_ssd f;
            f_fan := f_fan f; f_all := f_all f; f_tag := f_tag f |}
  else if Ascii.eqb c "w" then
    Some {| f_cpu := f_cpu f; f_gpu := f_gpu f; f_wfi := true; f_ssd := f_ssd f;
            f_fan := f_fan f; f_all := f_all f; f_tag := f_tag f |}
  else if Ascii.eqb c "s" then
    Some {| f_cpu := f_cpu f; f_gpu := f_gpu f; f_wfi := f_wfi f; f_ssd := true;
            f_fan := f_fan f; f_all := f_all f; f_tag := f_tag f |}
  else if Ascii.eqb c "n" then
    Some {| f_cpu := f_cpu f; f_gpu := f_gpu f; f_wfi := f_wfi f; f_ssd := f_ssd f;
            f_fan := f_fan f; f_all := f_all f; f_tag := true |}
  else if Ascii.eqb c "h" || Ascii.eqb c "?" then None
  else Some f.

(** The [while ((args = getopt(...)) != -1)] loop over the characters
    [getopt] returns, in order. *)
Fixpoint option_loop (opts : list ascii) (f : Flags) : option Flags :=
  match opts with
  | [] => Some f
  | c :: opts' =>
      match option_case f c with
      | Some f' => option_loop opts' f'
      | None => None
      end
  end.

(** The statement under the comment [default -a]. *)
Definition default_flags (f : Flags) : Flags :=
  if negb (f_cpu f) && negb (f_gpu f) && negb (f_fan f) && negb (f_wfi f)
     && negb (f_ssd f) && negb (f_all f)
  then {| f_cpu := true; f_gpu := true; f_wfi := true; f_ssd := true;
          f_fan := true; f_all := f_all f; f_tag := f_tag f |}
  else f.

(** [strchr(name, '.') - name]: the number of characters before the first
    dot.  Without a dot [strchr] returns the null pointer and the
    subtraction has no defined result. *)
Fixpoint dot_offset (name : string) : option nat :=
  match name with
  | EmptyString => None
  | String c rest =>
      if Ascii.eqb c "." then Some O
      else match dot_offset rest with
           | Some n => Some (S n)
           | None => None
           end
  end.

(** [strncpy(hostname, name, n)] into the zeroed global [hostname]: the
    first [n] characters of [name]. *)
Fixpoint strncpy (name : string) (n : nat) : string :=
  match n, name with
  | S n', String c rest => String c (strncpy rest n')
  | _, _ => EmptyString
  end.

(** The statement under [capatalise first letter of hostname]. *)
Definition capitalise (hostname : string) : string :=
  match hostname with
  | String c rest =>
      if (N.leb (N_of_ascii "a") (N_of_ascii c)) && (N.leb (N_of_ascii c) (N_of_ascii "z"))
      then String (ascii_of_N (N_of_ascii c - 32)) rest
      else hostname
  | EmptyString => hostname
  end.

(** Value of a 64-bit [long int] holding the low 64 bits of [z]; the time
    stamp [sec * 1000000000 + ns] is given the two's-complement result of
    the target machines. *)
Definition wrap64 (z : Z) : Z := (z + 2 ^ 63) mod 2 ^ 64 - 2 ^ 63.

Section Main.
Variable World : Type.
Variable call :
  World -> Z -> SMCKeyData_t -> SMCKeyData_t -> kern_return_t * SMCKeyData_t * World.

(** The reads [main] makes once the options are settled. *)
Definition report (hostTag : string) (ens : Z) (f : Flags) (s : Session World)
  : option (Session World * list Line) :=
  if f_all f then
    st <- temps call hostTag ens all_temperature_keys (s, []) ;;
    fans call hostTag ens st
  else
    st <- (if f_cpu f then influxSMCtemp call hostTag ens "TC0P" "CPU" (s, [])
           else Some (s, [])) ;;
    st <- (if f_gpu f then influxSMCtemp call hostTag ens "TG0P" "GPU" st
           else Some st) ;;
    st <- (if f_ssd f then influxSMCtemp call hostTag ens "TH0X" "SSD" st
           else Some st) ;;
    st <- (if f_wfi f then influxSMCtemp call hostTag ens "TW0P" "WiFi" st
           else Some st) ;;
    (if f_fan f then fans call hostTag ens st else Some st).

(** [int main(int argc, char* argv[])].  [host] is what [gethostname]
    stored ([None] when it returned -1), [sec] and [ns] what [clock_gettime]
    stored, [opts] the characters the successive calls of [getopt] return,
    [io] what the IOKit calls of [SMCOpen] and [SMCClose] answer, and [s]
    the session behind the global [conn] once [SMCOpen] has returned (the
    port [IOServiceOpen] stored, or the null port [conn] starts with when
    [SMCOpen] fails).  The results of [SMCOpen] and [SMCClose] are dropped.
    The result is the value returned, the session and the lines printed. *)
Definition main (host : option string) (sec ns : Z) (opts : list ascii)
  (io : IOKit) (s : Session World) : option (Z * Session World * list Line) :=
  let hostnameFull := match host with Some h => h | None => "NULL"%string end in
  n <- dot_offset hostnameFull ;;
  let hostname := capitalise (strncpy hostnameFull n) in
  let ens := wrap64 (wrap64 (sec * 1000000000) + ns) in
  match option_loop opts no_flags with
  | None => Some (-1, s, [UsageText])
  | Some f =>
      let hostTag := if f_tag f then ("host=" ++ hostname ++ ",")%string
                     else EmptyString in
      let '(_, errors) := SMCOpen io in
      r <- report hostTag ens (default_flags f) s ;;
      let '(s, out) := r in
      let _ := SMCClose io in
      Some (0, s, errors ++ out)
  end.

End Main.

Arguments report {World}.
Arguments main {World}.

(** ** Predicates on the report *)

(** What a line of the fan report satisfies when it is printed in a pass for
    an index from [lo] up to [hi - 1]: the index, a speed above zero, a
    percent that does not compare below zero. *)
Definition fan_line_ok (lo hi : Z) (l : FanReading) : Prop :=
  lo <= fan_index l < hi
  /\ F64.ltb F64.zero (fan_rpm l) = true
  /\ F32.ltb (fan_percent l) F32.zero = false.

(** What the array [fanID] can hold during a report over [nFans] fans:
    nothing yet, or one of three labels, "Main" only for a single fan.  The
    label "Other" of [case '?'] needs a pass for index 63, which no report
    with a defined result makes. *)
Definition label_ok (nFans : Z) (fanID : option string) : Prop :=
  fanID = None \/ (fanID = Some "Main"%string /\ nFans = 1)
  \/ fanID = Some "Left"%string \/ fanID = Some "Right"%string.

(** [a] is [b] with some elements left out. *)
Inductive Subseq {A : Type} : list A -> list A -> Prop :=
| Subseq_nil : Subseq [] []
| Subseq_skip (x : A) (a b : list A) : Subseq a b -> Subseq a (x :: b)
| Subseq_keep (x : A) (a b : list A) : Subseq a b -> Subseq (x :: a) (x :: b).

(** [line] is the temperature line of the call [influxSMCtemp(key, sensor)]
    under the globals [hostTag] and [ens], with a temperature above zero. *)
Definition temperature_line_of (hostTag : string) (ens : Z) (ks : string * string)
  (line : Line) : Prop :=
  exists t, line = TemperatureLine hostTag (fst ks) (snd ks) t ens
            /\ F64.ltb F64.zero t = true.

(** ** The options as a set *)

(** [c] is among the characters [getopt] returned. *)
Definition has_opt (c : ascii) (opts : list ascii) : bool :=
  existsb (fun x => Ascii.eqb x c) opts.

Definition asks_help (opts : list ascii) : bool :=
  has_opt "h" opts || has_opt "?" opts.

(** The option variables a set of options leaves. *)
Definition flags_of (opts : list ascii) : Flags :=
  {| f_cpu := has_opt "c" opts || has_opt "a" opts;
     f_gpu := has_opt "g" opts || has_opt "a" opts;
     f_wfi := has_opt "w" opts || has_opt "a" opts;
     f_ssd := has_opt "s" opts || has_opt "a" opts;
     f_fan := has_opt "f" opts || has_opt "a" opts;
     f_all := has_opt "A" opts;
     f_tag := has_opt "n" opts |}.

Definition merge_flags (f g : Flags) : Flags :=
  {| f_cpu := f_cpu f || f_cpu g; f_gpu := f_gpu f || f_gpu g;
     f_wfi := f_wfi f || f_wfi g; f_ssd := f_ssd f || f_ssd g;
     f_fan := f_fan f || f_fan g; f_all := f_all f || f_all g;
     f_tag := f_tag f || f_tag g |}.

(** The calls of [influxSMCtemp] that [main] makes for given option
    variables, in order. *)
Definition selected_keys (f : Flags) : list (string * string) :=
  if f_all f then all_temperature_keys
  else (if f_cpu f then [("TC0P", "CPU")] else [])%string
       ++ (if f_gpu f then [("TG0P", "GPU")] else [])%string
       ++ (if f_ssd f then [("TH0X", "SSD")] else [])%string
       ++ (if f_wfi f then [("TW0P", "WiFi")] else [])%string.

(** The text [main] leaves in [hostTag] for a full host name. *)
Definition host_tag (hostnameFull : string) (n : nat) (f : Flags) : string :=
  if f_tag f then ("host=" ++ capitalise (strncpy hostnameFull n) ++ ",")%string
  else EmptyString.

Fixpoint no_dot (s : string) : Prop :=
  match s with
  | EmptyString => True
  | String c rest => c <> "."%char /\ no_dot rest
  end.

(** The check behind the statement on fan keys, for one fan index. *)
Definition fan_key_check (i : Z) : bool :=
  Bool.eqb (Nat.leb (List.length (fan_key i "ID")) 5) (i <? 10)
  && Bool.eqb (Nat.leb (List.length (fan_key i "Ac")) 5) (i <? 10)
  && Bool.eqb (Nat.leb (List.length (fan_key i "Mn")) 5) (i <? 10)
  && Bool.eqb (Nat.leb (List.length (fan_key i "Mx")) 5) (i <? 10)
  && match encodeKey (fan_key i "Mn"), encodeKey (fan_key i "Mx") with
     | Some a, Some b => Bool.eqb (a =? b) (10 <=? i)
     | _, _ => false
     end.

(** ** Decidable checks on the key list *)

Definition key_eqb (a b : string * string) : bool :=
  String.eqb (fst a) (fst b) && String.eqb (snd a) (snd b).

(** [a] is [b] with some elements left out, as a check. *)
Fixpoint subseqb (a b : list (string * string)) : bool :=
  match a, b with
  | [], _ => true
  | _ :: _, [] => false
  | x :: a', y :: b' => if key_eqb x y then subseqb a' b' else subseqb a b'
  end.

(** No text occurs twice in [l]. *)
Fixpoint distinctb (l : list string) : bool :=
  match l with
  | [] => true
  | x :: l' => negb (existsb (String.eqb x) l') && distinctb l'
  end.

(** A pattern of a quiet NaN, least significant byte first. *)
Definition nan_bytes : buffer := [0; 0; 0xC0; 0x7F].

(** The step of the proof on the option loop for one option character. *)
Ltac bool_cases :=
  repeat match goal with
         | |- context [existsb ?p ?l] => destruct (existsb p l)
         | |- context [f_cpu ?f] => destruct (f_cpu f)
         | |- context [f_gpu ?f] => destruct (f_gpu f)
         | |- context [f_wfi ?f] => destruct (f_wfi f)
         | |- context [f_ssd ?f] => destruct (f_ssd f)
         | |- context [f_fan ?f] => destruct (f_fan f)
         | |- context [f_all ?f] => destruct (f_all f)
         | |- context [f_tag ?f] => destruct (f_tag f)
         end;
  reflexivity.

Ltac option_case_tac IH E :=
  apply Ascii.eqb_eq in E; subst; rewrite IH;
  unfold asks_help, flags_of, merge_flags, has_opt; cbn;
  match goal with
  | |- (if ?b then _ else _) = (if ?b then _ else _) =>
      destruct b; [reflexivity |]
  end;
  f_equal; f_equal; bool_cases.

(** * Properties of the integer types *)

Lemma schar_ascii (c : Z) : 0 <= c < 128 -> schar c = c.
Proof.
  intros H. unfold schar. rewrite Z.mod_small by lia.
  destruct (c <? 128) eqn:E; [reflexivity | apply Z.ltb_ge in E; lia].
Qed.

Lemma schar_range (c : Z) : -128 <= schar c < 128.
Proof.
  unfold schar. pose proof (Z.mod_pos_bound c 256 ltac:(lia)).
  destruct (c mod 256 <? 128) eqn:E;
    [apply Z.ltb_lt in E | apply Z.ltb_ge in E]; lia.
Qed.

Lemma wrap32_small (z : Z) : - 2 ^ 31 <= z < 2 ^ 31 -> wrap32 z = z.
Proof.
  intros H. unfold wrap32. rewrite Z.mod_small by lia. lia.
Qed.

Lemma load_char_cons_0 (b : Z) (str : buffer) : load_char (b :: str) 0 = Some (schar b).
Proof. reflexivity. Qed.

(** * Key codec *)

Lemma encodeKey_ascii (c0 c1 c2 c3 : Z) :
  0 <= c0 < 128 -> 0 <= c1 < 128 -> 0 <= c2 < 128 -> 0 <= c3 < 128 ->
  encodeKey [c0; c1; c2; c3] = Some (c0 * 2 ^ 24 + c1 * 2 ^ 16 + c2 * 2 ^ 8 + c3).
Proof.
  intros H0 H1 H2 H3.
  unfold encodeKey, _strtoul.
  change (Z.to_nat 4) with 4%nat.
  cbn -[schar wrap32 u32 Z.shiftl Z.pow].
  change (Pos.to_nat 1) with 1%nat; change (Pos.to_nat 2) with 2%nat;
    change (Pos.to_nat 3) with 3%nat.
  cbn -[schar wrap32 u32 Z.shiftl Z.pow].
  rewrite !schar_ascii by assumption.
  rewrite !Z.shiftl_mul_pow2 by lia.
  rewrite !wrap32_small by lia.
  unfold u32. f_equal.
  rewrite (Z.mod_small (c0 * 2 ^ 24)) by lia.
  rewrite (Z.mod_small (c0 * 2 ^ 24 + _)) by lia.
  rewrite (Z.mod_small (c0 * 2 ^ 24 + _ + _)) by lia.
  rewrite Z.mod_small by lia. lia.
Qed.

(** C8.  Encoding the key "TC0P" gives the big-endian packing 0x54433050. *)
Theorem C8_encodeKey_TC0P :
  encodeKey (bytes_of_string "TC0P") = Some 0x54433050
  /\ _strtoul (bytes_of_string "TC0P" ++ [0]) 4 16 = Some 0x54433050.
Proof. split; reflexivity. Qed.

Lemma ultostr_packed (c0 c1 c2 c3 : Z) :
  0 <= c0 < 256 -> 0 <= c1 < 256 -> 0 <= c2 < 256 -> 0 <= c3 < 256 ->
  _ultostr (c0 * 2 ^ 24 + c1 * 2 ^ 16 + c2 * 2 ^ 8 + c3) = [c0; c1; c2; c3; 0].
Proof.
  intros H0 H1 H2 H3. unfold _ultostr, u32, uchar.
  rewrite (Z.mod_small _ (2 ^ 32)) by lia.
  rewrite !Z.shiftr_div_pow2 by lia.
  repeat f_equal.
  - rewrite Z.mod_small; [| split; [apply Z.div_pos; lia | apply Z.div_lt_upper_bound; lia]].
    symmetry; apply Z.div_unique with (r := c1 * 2 ^ 16 + c2 * 2 ^ 8 + c3); lia.
  - replace ((c0 * 2 ^ 24 + c1 * 2 ^ 16 + c2 * 2 ^ 8 + c3) / 2 ^ 16)
      with (c0 * 256 + c1)
      by (apply Z.div_unique with (r := c2 * 2 ^ 8 + c3); lia).
    symmetry; apply Z.mod_unique with (q := c0); lia.
  - replace ((c0 * 2 ^ 24 + c1 * 2 ^ 16 + c2 * 2 ^ 8 + c3) / 2 ^ 8)
      with (c0 * 2 ^ 16 + c1 * 2 ^ 8 + c2)
      by (apply Z.div_unique with (r := c3); lia).
    symmetry; apply Z.mod_unique with (q := c0 * 2 ^ 8 + c1); lia.
  - symmetry; apply Z.mod_unique with (q := c0 * 2 ^ 16 + c1 * 2 ^ 8 + c2); lia.
Qed.

(** C1.  Decoding the 32-bit value that encodes a 4-character ASCII key
    gives the key back: [_ultostr] stores the four characters of the key,
    followed by the terminating NUL. *)
Theorem C1_decodeTypeTag_encodeKey (k : buffer) :
  List.length k = 4%nat ->
  Forall (fun c => 0 <= c < 128) k ->
  option_map decodeTypeTag (encodeKey k) = Some (k ++ [0]).
Proof.
  intros Hlen Hascii.
  destruct k as [| c0 [| c1 [| c2 [| c3 [| c4 k']]]]]; try discriminate Hlen.
  inversion_clear Hascii as [| ? ? H0 Hr0].
  inversion_clear Hr0 as [| ? ? H1 Hr1].
  inversion_clear Hr1 as [| ? ? H2 Hr2].
  inversion_clear Hr2 as [| ? ? H3 _].
  rewrite encodeKey_ascii by assumption.
  cbn [option_map app]. unfold decodeTypeTag.
  rewrite ultostr_packed by lia. reflexivity.
Qed.

Lemma C1_decodeTypeTag_encodeKey_witness :
  option_map decodeTypeTag (encodeKey (bytes_of_string "F0Ac"))
  = Some (bytes_of_string "F0Ac" ++ [0]).
Proof.
  apply (C1_decodeTypeTag_encodeKey (bytes_of_string "F0Ac")).
  - reflexivity.
  - repeat constructor; cbn; lia.
Defined.


(** * Controller session *)

Section ControllerFacts.
Variable World : Type.
Variable call :
  World -> Z -> SMCKeyData_t -> SMCKeyData_t -> kern_return_t * SMCKeyData_t * World.

Lemma SMCReadKey_first_phase_fails (k : buffer) (s : Session World)
  (packed r : Z) (out : SMCKeyData_t) (w : World) :
  encodeKey k = Some packed ->
  call (world s) KERNEL_INDEX_SMC (keyinfo_request packed) zero_SMCKeyData = (r, out, w) ->
  r <> kIOReturnSuccess ->
  SMCReadKey call k s = Some (r, zero_SMCVal, log_request s w (keyinfo_request packed)).
Proof.
  intros Hk Hcall Hr.
  unfold SMCReadKey. unfold encodeKey in Hk. rewrite Hk. cbn [obind].
  unfold SMCCall.
  change (set_request zero_SMCKeyData packed SMC_CMD_READ_KEYINFO
            (ki_dataSize (kd_keyInfo zero_SMCKeyData)))
    with (keyinfo_request packed).
  rewrite Hcall.
  destruct (r =? kIOReturnSuccess) eqn:E.
  - apply Z.eqb_eq in E. contradiction.
  - reflexivity.
Qed.

Lemma SMCReadKey_success_inv (k : buffer) (s s' : Session World) (val : SMCVal_t) :
  SMCReadKey call k s = Some (kIOReturnSuccess, val, s') ->
  exists src, bytes val = memcpy32 src.
Proof.
  unfold SMCReadKey.
  destruct (_strtoul k 4 16) as [packed |]; [cbn [obind] | discriminate].
  destruct (SMCCall call KERNEL_INDEX_SMC _ zero_SMCKeyData s) as [[r1 out1] s1].
  destruct (r1 =? kIOReturnSuccess) eqn:E1; cbn [negb].
  - destruct (SMCCall call KERNEL_INDEX_SMC _ out1 s1) as [[r2 out2] s2].
    destruct (r2 =? kIOReturnSuccess) eqn:E2; cbn [negb].
    + intros H. injection H as <- <-. eexists. reflexivity.
    + intros H. injection H as -> _ _. discriminate E2.
  - intros H. injection H as -> _ _. discriminate E1.
Qed.

End ControllerFacts.

Lemma memcpy32_length (src : buffer) : List.length (memcpy32 src) = 32%nat.
Proof.
  unfold memcpy32. rewrite length_firstn, length_app, length_map.
  unfold zero_bytes. rewrite repeat_length. lia.
Qed.

(** C6.  When the read-key-metadata call of [SMCReadKey] does not return
    success, [SMCReadKey] returns that result, the value structure is still
    the zeroed one, and the key-info request is the only request the call
    has issued: the read-bytes call is not attempted.  The two readers then
    report the key as absent ([-1.0] for a speed, [0.0] for a temperature). *)
Theorem C6_first_phase_failure_aborts
  (World : Type)
  (call : World -> Z -> SMCKeyData_t -> SMCKeyData_t -> kern_return_t * SMCKeyData_t * World)
  (k : buffer) (s : Session World) (packed r : Z) (out : SMCKeyData_t) (w : World) :
  encodeKey k = Some packed ->
  call (world s) KERNEL_INDEX_SMC (keyinfo_request packed) zero_SMCKeyData = (r, out, w) ->
  r <> kIOReturnSuccess ->
  SMCReadKey call k s
    = Some (r, zero_SMCVal,
            {| world := w;
               issued := issued s ++ [(KERNEL_INDEX_SMC, keyinfo_request packed)] |})
  /\ kd_data8 (keyinfo_request packed) = SMC_CMD_READ_KEYINFO
  /\ getSMCrpm call k s = Some (F32.of_Z (-1), log_request s w (keyinfo_request packed))
  /\ getSMCtemp call k s = Some (F64.zero, log_request s w (keyinfo_request packed)).
Proof.
  intros Hk Hcall Hr.
  pose proof (SMCReadKey_first_phase_fails World call k s packed r out w Hk Hcall Hr) as H.
  repeat split.
  - exact H.
  - unfold getSMCrpm. rewrite H. cbn [obind].
    destruct (r =? kIOReturnSuccess) eqn:E; [apply Z.eqb_eq in E; contradiction |].
    reflexivity.
  - unfold getSMCtemp. rewrite H. cbn [obind].
    destruct (r =? kIOReturnSuccess) eqn:E; [apply Z.eqb_eq in E; contradiction |].
    reflexivity.
Qed.

Lemma C6_first_phase_failure_aborts_witness :
  SMCReadKey (table_smc []) (lit "TC0P") (opened tt)
  = Some (kIOReturnNotFound, zero_SMCVal,
          {| world := tt; issued := [(KERNEL_INDEX_SMC, keyinfo_request 0x54433050)] |}).
Proof.
  refine (proj1 (C6_first_phase_failure_aborts unit (table_smc []) (lit "TC0P")
                   (opened tt) 0x54433050 kIOReturnNotFound zero_SMCKeyData tt _ _ _)).
  - reflexivity.
  - reflexivity.
  - discriminate.
Defined.

(** * Temperature decode *)

Lemma load_char_nth (str : buffer) (i : nat) :
  (i < List.length str)%nat -> load_char str (Z.of_nat i) = Some (schar (nth i str 0)).
Proof.
  intros Hi. unfold load_char.
  destruct (Z.of_nat i <? 0) eqn:E; [apply Z.ltb_lt in E; lia |].
  rewrite Nat2Z.id.
  destruct (nth_error str i) as [b |] eqn:Hn.
  - rewrite (nth_error_nth _ _ 0 Hn). reflexivity.
  - apply nth_error_None in Hn. lia.
Qed.

Lemma uchar_schar (b : Z) : uchar (schar b) = b mod 256.
Proof.
  unfold uchar, schar. pose proof (Z.mod_pos_bound b 256 ltac:(lia)) as Hb.
  destruct (b mod 256 <? 128).
  - apply Z.mod_mod; lia.
  - symmetry. apply Z.mod_unique with (q := -1); lia.
Qed.

Lemma sp78_value_eq (b : buffer) :
  (2 <= List.length b)%nat ->
  sp78_value b
  = Some (F64.div (F64.of_Z (schar (nth 0 b 0) * 256 + nth 1 b 0 mod 256))
                  (F64.of_Z 256)).
Proof.
  intros Hlen. unfold sp78_value.
  change 0 with (Z.of_nat 0) at 1. change 1 with (Z.of_nat 1) at 1.
  rewrite !load_char_nth by lia.
  cbn [obind]. rewrite uchar_schar.
  rewrite wrap32_small; [reflexivity |].
  pose proof (schar_range (nth 0 b 0)).
  pose proof (Z.mod_pos_bound (nth 1 b 0) 256 ltac:(lia)). lia.
Qed.

(** C4.  For a key whose read succeeds with a non-empty value of type
    "sp78", [getSMCtemp] returns (byte 0 as a signed 8-bit number, times 256,
    plus byte 1 as an unsigned number) divided by 256.0; the bytes
    [0x2C, 0x00] decode to 44.0 and the bytes [0xFF, 0x00] to -1.0. *)
Theorem C4_sp78_temperature :
  (forall (World : Type)
          (call : World -> Z -> SMCKeyData_t -> SMCKeyData_t
                  -> kern_return_t * SMCKeyData_t * World)
          (k : buffer) (s s' : Session World) (val : SMCVal_t),
      SMCReadKey call k s = Some (kIOReturnSuccess, val, s') ->
      0 < dataSize val ->
      strcmp_eq (dataType val) "sp78" = true ->
      getSMCtemp call k s
      = Some (F64.div
                (F64.of_Z (schar (nth 0 (bytes val) 0) * 256 + nth 1 (bytes val) 0 mod 256))
                (F64.of_Z 256),
              s'))
  /\ sp78_value [0x2C; 0x00] = Some (F64.of_Z 44)
  /\ sp78_value [0xFF; 0x00] = Some (F64.of_Z (-1)).
Proof.
  split; [| split; reflexivity].
  intros World call k s s' val Hread Hsize Htype.
  unfold getSMCtemp. rewrite Hread. cbn [obind].
  destruct (SMCReadKey_success_inv World call k s s' val Hread) as [src Hsrc].
  rewrite Htype.
  destruct (0 <? dataSize val) eqn:E; [| apply Z.ltb_ge in E; lia].
  change (kIOReturnSuccess =? kIOReturnSuccess) with true. cbn [andb].
  rewrite sp78_value_eq by (rewrite Hsrc, memcpy32_length; lia).
  reflexivity.
Qed.

Lemma C4_sp78_temperature_witness :
  getSMCtemp (table_smc (sample_table [3])) (lit "TC0P") (opened tt)
  = Some (F64.of_Z 44,
          {| world := tt;
             issued := [(KERNEL_INDEX_SMC, keyinfo_request 0x54433050);
                        (KERNEL_INDEX_SMC, bytes_request 0x54433050 2)] |}).
Proof.
  refine (eq_trans
            (proj1 C4_sp78_temperature unit (table_smc (sample_table [3]))
               (lit "TC0P") (opened tt) _
               {| key := zero_bytes 5; dataSize := 2; dataType := lit "sp78";
                  bytes := memcpy32 [0x2C; 0x00] |} _ _ _) _).
  - reflexivity.
  - reflexivity.
  - reflexivity.
  - reflexivity.
Defined.

(** * Fixed-point decoder *)

(** C3.  On the two bytes [0x0C, 0x80] with size 2 and two fractional bits,
    [_strtof] returns exactly 800.0: the 16-bit value 0x0C80 = 3200 counts
    quarters. *)
Theorem C3_strtof_0C80_is_800 :
  _strtof [0x0C; 0x80] 2 2 = Some (F32.of_Z 800).
Proof. reflexivity. Qed.

(** The value C3 names, 12.5, is not what the decoder returns on these
    bytes. *)
Lemma C3_strtof_0C80_is_not_12_5 :
  _strtof [0x0C; 0x80] 2 2 <> Some (F32.of_dyadic 25 (-1)).
Proof. intros H. vm_compute in H. discriminate H. Qed.

(** C2.  [_strtof] reads every byte before the last one as a signed [char]:
    on the bytes [0x80, 0x00] with size 2 and two fractional bits the
    first byte counts -128, and the function returns -8192.0, where the
    formula over unsigned bytes gives 8192.0.  [getSMCrpm] passes the negative
    value on, which its caller takes for an absent reading. *)
Theorem C2_strtof_high_byte_signed :
  _strtof [0x80; 0x00] 2 2 = Some (F32.of_Z (-8192))
  /\ strtof_claimed [0x80; 0x00] 2 2 = F32.of_Z 8192
  /\ option_map fst
       (getSMCrpm
          (table_smc [ {| s_key := "F0Ac"; s_type := "fpe2"; s_size := 2;
                          s_bytes := [0x80; 0x00] |} ])
          (lit "F0Ac") (opened tt))
     = Some (F32.of_Z (-8192)).
Proof. repeat split; reflexivity. Qed.

(** * Fan count *)

Lemma uchar_wrap32 (z : Z) : uchar (wrap32 z) = z mod 256.
Proof.
  unfold uchar, wrap32.
  pose proof (Z.div_mod (z + 2 ^ 31) (2 ^ 32) ltac:(lia)) as H.
  replace ((z + 2 ^ 31) mod 2 ^ 32 - 2 ^ 31)
    with (z + (- ((z + 2 ^ 31) / 2 ^ 32) * 2 ^ 24) * 256) by lia.
  apply Z.mod_add. lia.
Qed.

Lemma uchar_shl_high (c n : Z) : 8 <= n -> uchar (wrap32 (Z.shiftl c n)) = 0.
Proof.
  intros Hn. rewrite uchar_wrap32, Z.shiftl_mul_pow2 by lia.
  replace n with ((n - 8) + 8) by lia.
  rewrite Z.pow_add_r by lia.
  replace (c * (2 ^ (n - 8) * 2 ^ 8)) with (c * 2 ^ (n - 8) * 256) by lia.
  apply Z.mod_mul. lia.
Qed.

Lemma uchar_shl_0 (b : Z) : uchar (wrap32 (Z.shiftl (schar b) 0)) = b mod 256.
Proof.
  rewrite uchar_wrap32, Z.shiftl_0_r. apply uchar_schar.
Qed.

(** In the branch taken for a base other than 16 the cast to
    [unsigned char] applies to the shifted value, so only the last byte
    contributes: for the sizes whose shifts are defined the result is the
    last byte. *)
Lemma strtoul_base10_last_byte (str : buffer) (size : Z) :
  1 <= size <= 4 ->
  (Z.to_nat size <= List.length str)%nat ->
  _strtoul str size 10 = Some (nth (Z.to_nat (size - 1)) str 0 mod 256).
Proof.
  intros Hsize Hlen.
  assert (Hc : size = 1 \/ size = 2 \/ size = 3 \/ size = 4) by lia.
  destruct Hc as [-> | [-> | [-> | ->]]].
  - destruct str as [| b0 str]; [cbn in Hlen; lia |].
    unfold _strtoul. change (Z.to_nat 1) with 1%nat.
    cbn -[schar wrap32 u32 uchar Z.shiftl Z.pow].
    rewrite uchar_shl_0. unfold u32. rewrite Z.mod_small; [reflexivity |].
    pose proof (Z.mod_pos_bound b0 256 ltac:(lia)); lia.
  - destruct str as [| b0 [| b1 str]]; try (cbn in Hlen; lia).
    unfold _strtoul. change (Z.to_nat 2) with 2%nat.
    cbn -[schar wrap32 u32 uchar Z.shiftl Z.pow].
    change (Pos.to_nat 1) with 1%nat. cbn -[schar wrap32 u32 uchar Z.shiftl Z.pow].
    rewrite uchar_shl_0, !uchar_shl_high by lia.
    unfold u32. cbn [Z.add]. rewrite (Z.mod_small 0) by lia. cbn [Z.add].
    rewrite Z.mod_small; [reflexivity |].
    pose proof (Z.mod_pos_bound b1 256 ltac:(lia)); lia.
  - destruct str as [| b0 [| b1 [| b2 str]]]; try (cbn in Hlen; lia).
    unfold _strtoul. change (Z.to_nat 3) with 3%nat.
    cbn -[schar wrap32 u32 uchar Z.shiftl Z.pow].
    change (Pos.to_nat 1) with 1%nat; change (Pos.to_nat 2) with 2%nat.
    cbn -[schar wrap32 u32 uchar Z.shiftl Z.pow].
    rewrite uchar_shl_0, !uchar_shl_high by lia.
    unfold u32. cbn [Z.add]. rewrite !(Z.mod_small 0) by lia. cbn [Z.add].
    rewrite Z.mod_small; [reflexivity |].
    pose proof (Z.mod_pos_bound b2 256 ltac:(lia)); lia.
  - destruct str as [| b0 [| b1 [| b2 [| b3 str]]]]; try (cbn in Hlen; lia).
    unfold _strtoul. change (Z.to_nat 4) with 4%nat.
    cbn -[schar wrap32 u32 uchar Z.shiftl Z.pow].
    change (Pos.to_nat 1) with 1%nat; change (Pos.to_nat 2) with 2%nat;
      change (Pos.to_nat 3) with 3%nat.
    cbn -[schar wrap32 u32 uchar Z.shiftl Z.pow].
    rewrite uchar_shl_0, !uchar_shl_high by lia.
    unfold u32. cbn [Z.add]. rewrite !(Z.mod_small 0) by lia. cbn [Z.add].
    rewrite Z.mod_small; [reflexivity |].
    pose proof (Z.mod_pos_bound b3 256 ltac:(lia)); lia.
Qed.

(** A fan count of zero runs no iteration: nothing is printed. *)
Lemma influxSMCfans_count_zero
  (World : Type)
  (call : World -> Z -> SMCKeyData_t -> SMCKeyData_t -> kern_return_t * SMCKeyData_t * World)
  (s s' : Session World) (val : SMCVal_t) :
  SMCReadKey call (lit "FNum") s = Some (kIOReturnSuccess, val, s') ->
  _strtoul (bytes val) (wrap32 (dataSize val)) 10 = Some 0 ->
  influxSMCfans call s = Some (s', []).
Proof.
  intros Hread Hcount. unfold influxSMCfans.
  change (bytes_of_string "FNum" ++ [0]) with (lit "FNum").
  rewrite Hread. cbn [obind].
  change (kIOReturnSuccess =? kIOReturnSuccess) with true. cbv iota.
  rewrite Hcount. reflexivity.
Qed.

(** C7.  The fan count is not the big-endian value of the [FNum] bytes:
    with the two bytes [0x01, 0x00], whose big-endian value is 256,
    [_strtoul] in base 10 returns 0 and [influxSMCfans] prints nothing, on a
    machine whose fans answer (the same machine with the one-byte count 1
    prints a line). *)
Theorem C7_fan_count_is_last_byte :
  _strtoul [0x01; 0x00] 2 10 = Some 0
  /\ be_unsigned [0x01; 0x00] = 256
  /\ option_map snd (influxSMCfans (table_smc (sample_table [0x01; 0x00])) (opened tt))
     = Some []
  /\ option_map (fun r => List.length (snd r))
       (influxSMCfans (table_smc (sample_table [0x01])) (opened tt))
     = Some 1%nat.
Proof. repeat split; reflexivity. Qed.

(** * Fan percent: the clamp *)

Lemma fan_pct_is_percent_claimed (cur min max : spec_float) :
  fan_pct cur min max = percent_claimed cur min max.
Proof. reflexivity. Qed.

Lemma clamp_low_at_0_not_below (x : spec_float) :
  F32.ltb (clamp_low_at_0 x) F32.zero = false.
Proof.
  unfold clamp_low_at_0. destruct (F32.ltb x F32.zero) eqn:E; [reflexivity | exact E].
Qed.

Lemma F32_sub_diag (x : spec_float) :
  is_finite x = true -> F32.sub x x = S754_zero false.
Proof.
  destruct x as [[|] | s | | s m e]; cbn; try discriminate; try reflexivity.
  intros _. unfold F32.sub, SFsub. rewrite Z.sub_diag. reflexivity.
Qed.

(** * Rounding to a binary format

    Facts about the executable specification of IEEE-754 arithmetic that the
    percent computation relies on: how many bits a mantissa has, what the
    rounding step does to a positive mantissa, how canonical numbers compare
    and subtract, and that what rounding returns is a valid number of the
    format. *)

Lemma digits2_pos_size (p : positive) : digits2_pos p = Pos.size p.
Proof. induction p; cbn; congruence. Qed.

Lemma digits2_pos_upper (p : positive) : Zpos p < 2 ^ Zpos (digits2_pos p).
Proof.
  rewrite digits2_pos_size. pose proof (Pos.size_gt p) as H.
  apply Pos2Z.pos_lt_pos in H. rewrite Pos2Z.inj_pow in H. exact H.
Qed.

Lemma digits2_pos_lower (p : positive) : 2 ^ (Zpos (digits2_pos p) - 1) <= Zpos p.
Proof.
  rewrite digits2_pos_size. pose proof (Pos.size_le p) as H.
  apply Pos2Z.pos_le_pos in H. rewrite Pos2Z.inj_pow in H.
  replace (Zpos (Pos.size p)) with (Zpos (Pos.size p) - 1 + 1) in H by lia.
  rewrite Z.pow_add_r in H by lia. lia.
Qed.

Lemma Zdigits2_bounds (m : Z) :
  0 < m -> 2 ^ (Zdigits2 m - 1) <= m < 2 ^ Zdigits2 m.
Proof.
  destruct m as [| p | p]; try lia. intros _. cbn [Zdigits2].
  split; [apply digits2_pos_lower | apply digits2_pos_upper].
Qed.

Lemma Zdigits2_pos (m : Z) : 0 < m -> 0 < Zdigits2 m.
Proof. destruct m; cbn; lia. Qed.

Lemma Zdigits2_unique (m k : Z) :
  2 ^ (k - 1) <= m < 2 ^ k -> 0 < m -> Zdigits2 m = k.
Proof.
  intros [Hlo Hhi] Hm.
  destruct (Zdigits2_bounds m Hm) as [Dlo Dhi].
  pose proof (Zdigits2_pos m Hm) as Dpos.
  assert (Hk : 0 < k).
  { destruct (Z.lt_ge_cases 0 k) as [|Hk]; [assumption |].
    assert (2 ^ k <= 2 ^ 0) by (apply Z.pow_le_mono_r; lia). lia. }
  destruct (Z.lt_trichotomy (Zdigits2 m) k) as [Hlt | [Heq | Hgt]]; [| exact Heq |].
  - assert (2 ^ Zdigits2 m <= 2 ^ (k - 1)) by (apply Z.pow_le_mono_r; lia). lia.
  - assert (2 ^ k <= 2 ^ (Zdigits2 m - 1)) by (apply Z.pow_le_mono_r; lia). lia.
Qed.

Lemma Zdigits2_le (a b : Z) : 0 < a -> a <= b -> Zdigits2 a <= Zdigits2 b.
Proof.
  intros Ha Hab.
  destruct (Zdigits2_bounds a Ha) as [Alo _].
  destruct (Zdigits2_bounds b ltac:(lia)) as [_ Bhi].
  destruct (Z.le_gt_cases (Zdigits2 a) (Zdigits2 b)) as [|Hgt]; [assumption |].
  assert (2 ^ Zdigits2 b <= 2 ^ (Zdigits2 a - 1)).
  { apply Z.pow_le_mono_r; [lia |]. lia. }
  lia.
Qed.

Lemma Zdigits2_succ_le (m : Z) : 0 < m -> Zdigits2 (m + 1) <= Zdigits2 m + 1.
Proof.
  intros Hm.
  destruct (Zdigits2_bounds m Hm) as [_ Hhi].
  destruct (Zdigits2_bounds (m + 1) ltac:(lia)) as [Slo _].
  pose proof (Zdigits2_pos m Hm).
  destruct (Z.le_gt_cases (Zdigits2 (m + 1)) (Zdigits2 m + 1)) as [|Hgt]; [assumption |].
  assert (2 ^ (Zdigits2 m + 1) <= 2 ^ (Zdigits2 (m + 1) - 1)).
  { apply Z.pow_le_mono_r; lia. }
  rewrite Z.pow_add_r in * by lia. lia.
Qed.

Lemma Zdigits2_div_pow2 (m p : Z) :
  0 < m -> 0 <= p < Zdigits2 m ->
  0 < m / 2 ^ p /\ Zdigits2 (m / 2 ^ p) = Zdigits2 m - p.
Proof.
  intros Hm Hp.
  destruct (Zdigits2_bounds m Hm) as [Dlo Dhi].
  assert (P : 0 < 2 ^ p) by (apply Z.pow_pos_nonneg; lia).
  assert (Lo : 2 ^ (Zdigits2 m - p - 1) <= m / 2 ^ p).
  { apply Z.div_le_lower_bound; [exact P |].
    rewrite <- Z.pow_add_r by lia.
    replace (p + (Zdigits2 m - p - 1)) with (Zdigits2 m - 1) by lia. exact Dlo. }
  assert (Hi : m / 2 ^ p < 2 ^ (Zdigits2 m - p)).
  { apply Z.div_lt_upper_bound; [exact P |].
    rewrite <- Z.pow_add_r by lia.
    replace (p + (Zdigits2 m - p)) with (Zdigits2 m) by lia. exact Dhi. }
  assert (Q : 0 < 2 ^ (Zdigits2 m - p - 1)) by (apply Z.pow_pos_nonneg; lia).
  split; [lia |].
  apply Zdigits2_unique; [split; assumption | lia].
Qed.

Lemma Zdigits2_mul_pow2 (m k : Z) :
  0 < m -> 0 <= k -> Zdigits2 (m * 2 ^ k) = Zdigits2 m + k.
Proof.
  intros Hm Hk.
  destruct (Zdigits2_bounds m Hm) as [Dlo Dhi].
  pose proof (Zdigits2_pos m Hm).
  assert (P : 0 < 2 ^ k) by (apply Z.pow_pos_nonneg; lia).
  apply Zdigits2_unique; [| nia].
  replace (Zdigits2 m + k - 1) with (Zdigits2 m - 1 + k) by lia.
  rewrite !Z.pow_add_r by lia. split; nia.
Qed.

Lemma iter_xO_value (m d : positive) : Zpos (Pos.iter xO m d) = Zpos m * 2 ^ Zpos d.
Proof.
  induction d as [| d IH] using Pos.peano_ind.
  - cbn. lia.
  - rewrite Pos.iter_succ, Pos2Z.inj_succ, Z.pow_succ_r by lia.
    rewrite Pos2Z.inj_xO, IH. lia.
Qed.

Lemma Zdigits2_nonneg_le (a b : Z) : 0 <= a -> a <= b -> Zdigits2 a <= Zdigits2 b.
Proof.
  intros Ha Hab. destruct (Z.eq_dec a 0) as [-> | Hne].
  - destruct b; cbn; lia.
  - apply Zdigits2_le; lia.
Qed.

(** * Right shifts of the rounding step *)

Lemma shr_1_m (mrs : shr_record) :
  0 <= shr_m mrs -> shr_m (shr_1 mrs) = shr_m mrs / 2.
Proof.
  destruct mrs as [m r s]. cbn [shr_m shr_1].
  destruct m as [| [p | p |] | p]; intros H; cbn [shr_m].
  - reflexivity.
  - rewrite Pos2Z.inj_xI. apply Z.div_unique with (r := 1); lia.
  - rewrite Pos2Z.inj_xO. apply Z.div_unique with (r := 0); lia.
  - reflexivity.
  - lia.
Qed.

Lemma iter_shr_1_m (p : positive) :
  forall mrs, 0 <= shr_m mrs ->
              shr_m (iter_pos shr_1 p mrs) = shr_m mrs / 2 ^ Zpos p.
Proof.
  induction p as [p IH | p IH |]; intros mrs H; cbn [iter_pos].
  - assert (H1 : 0 <= shr_m (shr_1 mrs)).
    { rewrite shr_1_m by assumption. apply Z.div_pos; lia. }
    assert (H2 : 0 <= shr_m (iter_pos shr_1 p (shr_1 mrs))).
    { rewrite IH by assumption. apply Z.div_pos; lia. }
    rewrite IH, IH, shr_1_m by assumption.
    rewrite !Z.div_div by lia.
    f_equal. rewrite (Pos2Z.inj_xI p).
    rewrite Z.pow_add_r, Z.pow_twice_r by lia. lia.
  - assert (H2 : 0 <= shr_m (iter_pos shr_1 p mrs)).
    { rewrite IH by assumption. apply Z.div_pos; lia. }
    rewrite IH, IH by assumption.
    rewrite Z.div_div by lia.
    f_equal. rewrite (Pos2Z.inj_xO p), Z.pow_twice_r. reflexivity.
  - rewrite shr_1_m by assumption. reflexivity.
Qed.

Lemma shr_spec (mrs : shr_record) (e n : Z) :
  0 <= shr_m mrs ->
  shr_m (fst (shr mrs e n)) = shr_m mrs / 2 ^ Z.max 0 n
  /\ snd (shr mrs e n) = e + Z.max 0 n.
Proof.
  intros H. destruct n as [| p | p]; cbn [shr fst snd].
  - cbn. rewrite Z.div_1_r. lia.
  - rewrite iter_shr_1_m by assumption.
    replace (Z.max 0 (Zpos p)) with (Zpos p) by lia. split; reflexivity.
  - replace (Z.max 0 (Zneg p)) with 0 by lia. cbn. rewrite Z.div_1_r. lia.
Qed.

Lemma shr_m_record_of_loc (m : Z) (l : location) : shr_m (shr_record_of_loc m l) = m.
Proof. destruct l as [| []]; reflexivity. Qed.

Lemma round_nearest_even_bounds (m : Z) (l : location) :
  m <= round_nearest_even m l <= m + 1.
Proof.
  destruct l as [| []]; cbn; try lia. destruct (Z.even m); lia.
Qed.

Section Rounding.
Variables prec emax : Z.
Hypothesis prec_pos : 0 < prec.

Local Abbreviation emin := (emin prec emax).
Local Abbreviation fexp := (fexp prec emax).

Lemma fexp_le (a b : Z) : a <= b -> fexp a <= fexp b.
Proof. unfold SpecFloat.fexp. lia. Qed.

Lemma fexp_ge_emin (a : Z) : emin <= fexp a.
Proof. unfold SpecFloat.fexp. lia. Qed.

Lemma shr_fexp_spec (m e : Z) (l : location) :
  0 <= m ->
  shr_m (fst (shr_fexp prec emax m e l)) = m / 2 ^ shift_of prec emax m e
  /\ snd (shr_fexp prec emax m e l) = e + shift_of prec emax m e.
Proof.
  intros Hm. unfold shr_fexp, shift_of.
  pose proof (shr_spec (shr_record_of_loc m l) e (fexp (Zdigits2 m + e) - e)) as H.
  rewrite shr_m_record_of_loc in H. apply H. exact Hm.
Qed.

(** A positive mantissa above the underflow threshold keeps a positive
    mantissa and its magnitude [digits + exponent]. *)
Lemma shr_fexp_positive (m e : Z) (l : location) :
  0 < m -> emin < Zdigits2 m + e ->
  let r := shr_fexp prec emax m e l in
  0 < shr_m (fst r)
  /\ Zdigits2 (shr_m (fst r)) + snd r = Zdigits2 m + e
  /\ snd r = Z.max e (fexp (Zdigits2 m + e)).
Proof.
  intros Hm Hmin r. subst r.
  destruct (shr_fexp_spec m e l ltac:(lia)) as [-> ->].
  assert (Hs : 0 <= shift_of prec emax m e < Zdigits2 m).
  { pose proof (Zdigits2_pos m Hm). unfold shift_of, SpecFloat.fexp. lia. }
  destruct (Zdigits2_div_pow2 m (shift_of prec emax m e) Hm Hs) as [Hq Hd].
  rewrite Hd. repeat split; [assumption | lia |].
  unfold shift_of. lia.
Qed.

Lemma binary_round_aux_sign (s : bool) (mx ex : Z) (lx : location) :
  0 <= mx -> sign_any s (binary_round_aux prec emax s mx ex lx).
Proof.
  intros Hm. unfold binary_round_aux.
  destruct (shr_fexp prec emax mx ex lx) as [mrs1 e1] eqn:E1.
  pose proof (shr_fexp_spec mx ex lx Hm) as [H1 _]. rewrite E1 in H1. cbn [fst] in H1.
  pose proof (round_nearest_even_bounds (shr_m mrs1) (loc_of_shr_record mrs1)) as Hr.
  assert (H1' : 0 <= shr_m mrs1) by (rewrite H1; apply Z.div_pos; [lia | apply Z.pow_pos_nonneg; unfold shift_of; lia]).
  set (m2 := round_nearest_even (shr_m mrs1) (loc_of_shr_record mrs1)) in *.
  destruct (shr_fexp prec emax m2 e1 loc_Exact) as [mrs2 e2] eqn:E2.
  pose proof (shr_fexp_spec m2 e1 loc_Exact ltac:(lia)) as [H2 _].
  rewrite E2 in H2. cbn [fst] in H2.
  assert (H2' : 0 <= shr_m mrs2) by (rewrite H2; apply Z.div_pos; [lia | apply Z.pow_pos_nonneg; unfold shift_of; lia]).
  destruct (shr_m mrs2) as [| p | p]; cbn; try lia; try reflexivity.
  destruct (e2 <=? emax - prec); reflexivity.
Qed.

(** Rounding a positive mantissa above the underflow threshold gives a
    non-zero number of the same sign, finite unless its exponent exceeds
    the format's. *)
Lemma binary_round_aux_positive (s : bool) (mx ex : Z) (lx : location) :
  0 < mx -> emin < Zdigits2 mx + ex ->
  exists m e,
    ex <= e <= Z.max ex (fexp (Zdigits2 mx + ex + 1))
    /\ binary_round_aux prec emax s mx ex lx
       = if e <=? emax - prec then S754_finite s m e else S754_infinity s.
Proof.
  intros Hm Hmin. unfold binary_round_aux.
  pose proof (shr_fexp_positive mx ex lx Hm Hmin) as H1. cbv zeta in H1.
  destruct (shr_fexp prec emax mx ex lx) as [mrs1 e1]. cbn [fst snd] in H1.
  destruct H1 as (P1 & D1 & X1).
  pose proof (round_nearest_even_bounds (shr_m mrs1) (loc_of_shr_record mrs1)) as Hr.
  set (m2 := round_nearest_even (shr_m mrs1) (loc_of_shr_record mrs1)) in *.
  assert (Dlo : Zdigits2 (shr_m mrs1) <= Zdigits2 m2) by (apply Zdigits2_le; lia).
  assert (Dhi : Zdigits2 m2 <= Zdigits2 (shr_m mrs1) + 1).
  { destruct (Z.eq_dec m2 (shr_m mrs1)) as [-> | Hne]; [lia |].
    replace m2 with (shr_m mrs1 + 1) by lia. apply Zdigits2_succ_le. exact P1. }
  pose proof (shr_fexp_positive m2 e1 loc_Exact ltac:(lia) ltac:(lia)) as H2. cbv zeta in H2.
  destruct (shr_fexp prec emax m2 e1 loc_Exact) as [mrs2 e2]. cbn [fst snd] in H2.
  destruct H2 as (P2 & D2 & X2).
  destruct (shr_m mrs2) as [| p | p]; try lia.
  exists p, e2. split; [| reflexivity].
  pose proof (fexp_le (Zdigits2 m2 + e1) (Zdigits2 mx + ex + 1) ltac:(lia)).
  pose proof (fexp_le (Zdigits2 mx + ex) (Zdigits2 mx + ex + 1) ltac:(lia)).
  lia.
Qed.

Lemma shl_align_spec (m : positive) (e e' : Z) :
  let r := shl_align m e e' in
  Zdigits2 (Zpos (fst r)) + snd r = Zdigits2 (Zpos m) + e
  /\ snd r = Z.min e e'
  /\ Zpos (fst r) = Zpos m * 2 ^ (e - snd r).
Proof.
  unfold shl_align.
  destruct (e' - e) as [| d | d] eqn:E; cbn [fst snd].
  - replace (e - e) with 0 by lia. cbn [Z.pow]. lia.
  - replace (e - e) with 0 by lia. cbn [Z.pow]. lia.
  - rewrite iter_xO_value.
    replace (e - e') with (Zpos d) by lia.
    rewrite Zdigits2_mul_pow2 by lia. lia.
Qed.

Lemma binary_round_positive (s : bool) (m : positive) (e : Z) :
  emin < Zdigits2 (Zpos m) + e ->
  exists m' e',
    Z.min e emin <= e' <= Z.max e (fexp (Zdigits2 (Zpos m) + e + 1))
    /\ binary_round prec emax s m e
       = if e' <=? emax - prec then S754_finite s m' e' else S754_infinity s.
Proof.
  intros Hmin. unfold binary_round.
  pose proof (shl_align_spec m e (fexp (Zpos (digits2_pos m) + e))) as H. cbv zeta in H.
  destruct (shl_align m e (fexp (Zpos (digits2_pos m) + e))) as [m1 e1].
  cbn [fst snd] in H. destruct H as (D1 & X1 & _).
  destruct (binary_round_aux_positive s (Zpos m1) e1 loc_Exact ltac:(lia) ltac:(lia))
    as (m' & e' & Hb & Heq).
  exists m', e'. split; [| exact Heq].
  rewrite D1 in Hb. cbn [Zdigits2] in *.
  pose proof (fexp_ge_emin (Zpos (digits2_pos m) + e)). lia.
Qed.

(** ** Canonical representations *)

Lemma canonical_inv (m : positive) (e : Z) :
  canonical_mantissa prec emax m e = true ->
  Zpos (digits2_pos m) <= prec /\ emin <= e
  /\ (emin < e -> Zpos (digits2_pos m) = prec).
Proof.
  unfold canonical_mantissa, SpecFloat.fexp. intros H. apply Z.eqb_eq in H. lia.
Qed.

(** Aligned mantissas of two canonical positive numbers compare as the
    numbers do. *)
Lemma SFcompare_aligned (mx : positive) (ex : Z) (my : positive) (ey : Z) :
  canonical_mantissa prec emax mx ex = true ->
  canonical_mantissa prec emax my ey = true ->
  SFcompare (S754_finite false mx ex) (S754_finite false my ey)
  = Some (Zpos (fst (shl_align mx ex (Z.min ex ey)))
          ?= Zpos (fst (shl_align my ey (Z.min ex ey)))).
Proof.
  intros Cx Cy.
  destruct (canonical_inv mx ex Cx) as (Dx & Ex & Nx).
  destruct (canonical_inv my ey Cy) as (Dy & Ey & Ny).
  pose proof (digits2_pos_upper mx) as Ux. pose proof (digits2_pos_lower mx) as Lx.
  pose proof (digits2_pos_upper my) as Uy. pose proof (digits2_pos_lower my) as Ly.
  destruct (shl_align_spec mx ex (Z.min ex ey)) as (_ & Sx & Vx).
  destruct (shl_align_spec my ey (Z.min ex ey)) as (_ & Sy & Vy).
  rewrite Vx, Vy, Sx, Sy. cbn [SFcompare]. f_equal.
  destruct (Z.compare_spec ex ey) as [Heq | Hlt | Hgt].
  - subst ey. rewrite !Z.min_id, Z.sub_diag. cbn [Z.pow]. rewrite !Z.mul_1_r.
    reflexivity.
  - replace (Z.min ex (Z.min ex ey)) with ex by lia.
    replace (Z.min ey (Z.min ex ey)) with ex by lia.
    rewrite Z.sub_diag. cbn [Z.pow]. rewrite Z.mul_1_r.
    symmetry. apply Z.compare_lt_iff.
    specialize (Ny ltac:(lia)).
    assert (P : 2 ^ 1 <= 2 ^ (ey - ex)) by (apply Z.pow_le_mono_r; lia).
    assert (Q : 2 ^ Zpos (digits2_pos mx) <= 2 ^ prec) by (apply Z.pow_le_mono_r; lia).
    rewrite Ny in Ly.
    replace prec with (prec - 1 + 1) in Q by lia.
    rewrite Z.pow_add_r in Q by lia.
    change (2 ^ 1) with 2 in *. nia.
  - replace (Z.min ex (Z.min ex ey)) with ey by lia.
    replace (Z.min ey (Z.min ex ey)) with ey by lia.
    rewrite Z.sub_diag. cbn [Z.pow]. rewrite Z.mul_1_r.
    symmetry. apply Z.compare_gt_iff.
    specialize (Nx ltac:(lia)).
    assert (P : 2 ^ 1 <= 2 ^ (ex - ey)) by (apply Z.pow_le_mono_r; lia).
    assert (Q : 2 ^ Zpos (digits2_pos my) <= 2 ^ prec) by (apply Z.pow_le_mono_r; lia).
    rewrite Nx in Lx.
    replace prec with (prec - 1 + 1) in Q by lia.
    rewrite Z.pow_add_r in Q by lia.
    change (2 ^ 1) with 2 in *. nia.
Qed.

(** A number that fits the format is converted without rounding, into
    its canonical representation. *)
Lemma binary_round_exact (s : bool) (m : positive) (e : Z) :
  let d := Zpos (digits2_pos m) in
  d <= prec -> emin <= e + d - prec -> e + d - prec <= emax - prec ->
  exists m',
    binary_round prec emax s m e = S754_finite s m' (e + d - prec)
    /\ Zpos (digits2_pos m') = prec
    /\ canonical_mantissa prec emax m' (e + d - prec) = true.
Proof.
  intros d Hd Hmin Hmax. unfold binary_round.
  assert (Hf : fexp (Zpos (digits2_pos m) + e) = e + d - prec).
  { unfold SpecFloat.fexp. subst d. lia. }
  rewrite Hf.
  pose proof (shl_align_spec m e (e + d - prec)) as H. cbv zeta in H.
  destruct (shl_align m e (e + d - prec)) as [m1 e1]. cbn [fst snd] in H.
  destruct H as (D1 & X1 & _).
  assert (He1 : e1 = e + d - prec) by lia. clear X1. subst e1.
  assert (Hd1 : Zpos (digits2_pos m1) = prec) by (cbn [Zdigits2] in D1; subst d; lia).
  assert (Hf1 : fexp (Zpos (digits2_pos m1) + (e + d - prec)) = e + d - prec).
  { unfold SpecFloat.fexp. lia. }
  exists m1. split; [| split; [exact Hd1 | unfold canonical_mantissa; apply Z.eqb_eq; exact Hf1]].
  unfold binary_round_aux, shr_fexp. cbn [Zdigits2 shr_record_of_loc].
  rewrite Hf1, Z.sub_diag. cbn [shr shr_m loc_of_shr_record round_nearest_even Zdigits2].
  rewrite Hf1, Z.sub_diag. cbn [shr shr_m].
  destruct (e + d - prec <=? emax - prec) eqn:E; [reflexivity | apply Z.leb_gt in E; lia].
Qed.

(** The difference of two canonical positive numbers: zero when they are
    equal, otherwise a non-zero number with the sign of the comparison. *)
Lemma SFsub_canonical (mx : positive) (ex : Z) (my : positive) (ey : Z) :
  canonical_mantissa prec emax mx ex = true ->
  canonical_mantissa prec emax my ey = true ->
  let x := S754_finite false mx ex in
  let y := S754_finite false my ey in
  let top := Z.max (Zpos (digits2_pos mx) + ex) (Zpos (digits2_pos my) + ey) in
  match SFcompare x y with
  | Some Eq => SFsub prec emax x y = S754_zero false
  | Some Lt =>
      exists m e, emin <= e <= Z.max (Z.min ex ey) (fexp (top + 1))
                  /\ SFsub prec emax x y
                     = if e <=? emax - prec then S754_finite true m e
                       else S754_infinity true
  | Some Gt =>
      exists m e, emin <= e <= Z.max (Z.min ex ey) (fexp (top + 1))
                  /\ SFsub prec emax x y
                     = if e <=? emax - prec then S754_finite false m e
                       else S754_infinity false
  | None => False
  end.
Proof.
  intros Cx Cy x y top. subst x y.
  rewrite (SFcompare_aligned mx ex my ey Cx Cy).
  destruct (canonical_inv mx ex Cx) as (_ & Ex & _).
  destruct (canonical_inv my ey Cy) as (_ & Ey & _).
  cbn [SFsub cond_Zopp].
  destruct (shl_align_spec mx ex (Z.min ex ey)) as (Dx & _ & _).
  destruct (shl_align_spec my ey (Z.min ex ey)) as (Dy & _ & _).
  set (A := Zpos (fst (shl_align mx ex (Z.min ex ey)))) in *.
  set (B := Zpos (fst (shl_align my ey (Z.min ex ey)))) in *.
  assert (HA : 0 < A) by (subst A; lia).
  assert (HB : 0 < B) by (subst B; lia).
  assert (Sx : snd (shl_align mx ex (Z.min ex ey)) = Z.min ex ey).
  { destruct (shl_align_spec mx ex (Z.min ex ey)) as (_ & -> & _). lia. }
  assert (Sy : snd (shl_align my ey (Z.min ex ey)) = Z.min ex ey).
  { destruct (shl_align_spec my ey (Z.min ex ey)) as (_ & -> & _). lia. }
  rewrite Sx in Dx. rewrite Sy in Dy. cbn [Zdigits2] in Dx, Dy.
  destruct (Z.compare_spec A B) as [Heq | Hlt | Hgt].
  - rewrite Heq, Z.sub_diag. reflexivity.
  - destruct (A - B) as [| p | p] eqn:E; try lia. cbn [binary_normalize].
    assert (Hp : Zdigits2 (Zpos p) <= Zdigits2 B) by (apply Zdigits2_le; lia).
    destruct (binary_round_positive true p (Z.min ex ey)) as (m' & e' & Hb & Hr).
    { pose proof (Zdigits2_pos (Zpos p) ltac:(lia)). lia. }
    exists m', e'. split; [| exact Hr].
    pose proof (fexp_le (Zdigits2 (Zpos p) + Z.min ex ey + 1) (top + 1) ltac:(subst top; lia)).
    lia.
  - destruct (A - B) as [| p | p] eqn:E; try lia. cbn [binary_normalize].
    assert (Hp : Zdigits2 (Zpos p) <= Zdigits2 A) by (apply Zdigits2_le; lia).
    destruct (binary_round_positive false p (Z.min ex ey)) as (m' & e' & Hb & Hr).
    { pose proof (Zdigits2_pos (Zpos p) ltac:(lia)). lia. }
    exists m', e'. split; [| exact Hr].
    pose proof (fexp_le (Zdigits2 (Zpos p) + Z.min ex ey + 1) (top + 1) ltac:(subst top; lia)).
    lia.
Qed.

(** ** Results of rounding are valid numbers of the format *)

(** After the first shift the exponent is the canonical one of what is left
    of the mantissa. *)
Lemma shr_fexp_canonical (m e : Z) (l : location) :
  0 <= m -> e <= fexp (Zdigits2 m + e) ->
  let r := shr_fexp prec emax m e l in
  0 <= shr_m (fst r)
  /\ fexp (Zdigits2 (shr_m (fst r)) + snd r) = snd r.
Proof.
  intros Hm He r. subst r.
  destruct (shr_fexp_spec m e l Hm) as [-> ->].
  assert (Hs : shift_of prec emax m e = fexp (Zdigits2 m + e) - e)
    by (unfold shift_of; lia).
  assert (P : 0 < 2 ^ shift_of prec emax m e) by (apply Z.pow_pos_nonneg; lia).
  split; [apply Z.div_pos; lia |].
  destruct (Z.lt_ge_cases (shift_of prec emax m e) (Zdigits2 m)) as [Hlt | Hge].
  - assert (Hpos : 0 < m) by (destruct m; cbn in *; lia).
    destruct (Zdigits2_div_pow2 m (shift_of prec emax m e) Hpos ltac:(lia)) as [_ ->].
    rewrite Hs. replace (Zdigits2 m - (fexp (Zdigits2 m + e) - e) +
                         (e + (fexp (Zdigits2 m + e) - e))) with (Zdigits2 m + e) by lia.
    lia.
  - assert (Hz : m / 2 ^ shift_of prec emax m e = 0).
    { apply Z.div_small. split; [lia |].
      destruct (Z.eq_dec m 0) as [-> | Hne]; [lia |].
      destruct (Zdigits2_bounds m ltac:(lia)) as [_ Hu].
      assert (2 ^ Zdigits2 m <= 2 ^ shift_of prec emax m e)
        by (apply Z.pow_le_mono_r; lia).
      lia. }
    rewrite Hz. cbn [Zdigits2]. rewrite Hs.
    unfold SpecFloat.fexp in *. lia.
Qed.

Lemma binary_round_aux_valid (s : bool) (mx ex : Z) (lx : location) :
  0 <= mx -> ex <= fexp (Zdigits2 mx + ex) ->
  valid_binary prec emax (binary_round_aux prec emax s mx ex lx) = true.
Proof.
  intros Hm He. unfold binary_round_aux.
  pose proof (shr_fexp_canonical mx ex lx Hm He) as H1. cbv zeta in H1.
  destruct (shr_fexp prec emax mx ex lx) as [mrs1 e1]. cbn [fst snd] in H1.
  destruct H1 as (P1 & C1).
  pose proof (round_nearest_even_bounds (shr_m mrs1) (loc_of_shr_record mrs1)) as Hr.
  set (m2 := round_nearest_even (shr_m mrs1) (loc_of_shr_record mrs1)) in *.
  assert (D : Zdigits2 (shr_m mrs1) <= Zdigits2 m2) by (apply Zdigits2_nonneg_le; lia).
  assert (F : e1 <= fexp (Zdigits2 m2 + e1)).
  { rewrite <- C1 at 1. apply fexp_le. lia. }
  pose proof (shr_fexp_canonical m2 e1 loc_Exact ltac:(lia) F) as H2. cbv zeta in H2.
  destruct (shr_fexp prec emax m2 e1 loc_Exact) as [mrs2 e2]. cbn [fst snd] in H2.
  destruct H2 as (P2 & C2).
  destruct (shr_m mrs2) as [| p | p]; try lia; [reflexivity |].
  destruct (e2 <=? emax - prec) eqn:E; [| reflexivity].
  cbn [valid_binary]. unfold bounded, canonical_mantissa.
  cbn [Zdigits2] in C2. rewrite C2, Z.eqb_refl, E. reflexivity.
Qed.

Lemma binary_round_valid (s : bool) (m : positive) (e : Z) :
  valid_binary prec emax (binary_round prec emax s m e) = true.
Proof.
  unfold binary_round.
  pose proof (shl_align_spec m e (fexp (Zpos (digits2_pos m) + e))) as H. cbv zeta in H.
  destruct (shl_align m e (fexp (Zpos (digits2_pos m) + e))) as [m1 e1].
  cbn [fst snd] in H. destruct H as (D1 & X1 & _).
  apply binary_round_aux_valid; [lia |].
  rewrite D1. cbn [Zdigits2]. lia.
Qed.

Lemma fmt_round_valid (x : spec_float) :
  valid_binary prec emax (fmt_round prec emax x) = true.
Proof.
  destruct x as [s | s | | s m e]; try reflexivity. apply binary_round_valid.
Qed.

Lemma fmt_of_Z_valid (z : Z) : valid_binary prec emax (fmt_of_Z prec emax z) = true.
Proof.
  unfold fmt_of_Z, binary_normalize. destruct z; [reflexivity | apply binary_round_valid ..].
Qed.

End Rounding.

(** * Speeds as [float] and [double] *)

Lemma bounded32_inv (m : positive) (e : Z) :
  bounded F32.prec F32.emax m e = true ->
  canonical_mantissa 24 128 m e = true
  /\ Zpos (digits2_pos m) <= 24 /\ -149 <= e <= 104.
Proof.
  unfold bounded. intros H. apply andb_prop in H as [C B]. apply Z.leb_le in B.
  destruct (canonical_inv F32.prec F32.emax m e C) as (D & E & _).
  unfold F32.prec, F32.emax, emin in *. repeat split; [exact C | lia ..].
Qed.

(** Widening a finite [float] to [double] is exact and gives a canonical
    [double] with a full mantissa. *)
Lemma F64_of_f32_finite (s : bool) (m : positive) (e : Z) :
  bounded F32.prec F32.emax m e = true ->
  exists m',
    F64.of_f32 (S754_finite s m e) = S754_finite s m' (e + Zpos (digits2_pos m) - 53)
    /\ Zpos (digits2_pos m') = 53
    /\ canonical_mantissa 53 1024 m' (e + Zpos (digits2_pos m) - 53) = true.
Proof.
  intros B. destruct (bounded32_inv m e B) as (_ & D & E).
  unfold F64.of_f32, fmt_round.
  apply (binary_round_exact F64.prec F64.emax s m e); unfold F64.prec, F64.emax, emin; lia.
Qed.

Lemma F64_of_f32_zero (s : bool) : F64.of_f32 (S754_zero s) = S754_zero s.
Proof. reflexivity. Qed.

(** The [double] difference of two widened speeds is zero when they are
    equal and otherwise a finite non-zero number whose sign is that of the
    comparison. *)
Lemma F64_sub_rpm (c mn : spec_float) :
  rpm_value c = true -> rpm_value mn = true ->
  match SFcompare (F64.of_f32 c) (F64.of_f32 mn) with
  | Some Eq => F64.sub (F64.of_f32 c) (F64.of_f32 mn) = S754_zero false
  | Some Lt => exists m e, F64.sub (F64.of_f32 c) (F64.of_f32 mn) = S754_finite true m e
  | Some Gt => exists m e, F64.sub (F64.of_f32 c) (F64.of_f32 mn) = S754_finite false m e
  | None => False
  end.
Proof.
  intros Hc Hm.
  destruct c as [[|] | | | [|] mc ec]; try discriminate Hc;
    destruct mn as [[|] | | | [|] mm em]; try discriminate Hm;
    cbn [rpm_value] in Hc, Hm.
  - reflexivity.
  - destruct (F64_of_f32_finite false mm em Hm) as (m' & -> & _).
    rewrite F64_of_f32_zero. cbn. eauto.
  - destruct (F64_of_f32_finite false mc ec Hc) as (m' & -> & _).
    rewrite F64_of_f32_zero. cbn. eauto.
  - destruct (F64_of_f32_finite false mc ec Hc) as (mc' & -> & Dc & Cc).
    destruct (F64_of_f32_finite false mm em Hm) as (mm' & -> & Dm & Cm).
    destruct (bounded32_inv mc ec Hc) as (_ & D1 & E1).
    destruct (bounded32_inv mm em Hm) as (_ & D2 & E2).
    pose proof (SFsub_canonical 53 1024 ltac:(lia) mc' _ mm' _ Cc Cm) as H.
    cbv zeta in H. unfold F64.sub, F64.prec, F64.emax.
    rewrite Dc, Dm in H.
    destruct (SFcompare (S754_finite false mc' (ec + Zpos (digits2_pos mc) - 53))
                        (S754_finite false mm' (em + Zpos (digits2_pos mm) - 53)))
      as [[| |] |]; try exact H.
    + destruct H as (m & e & Hb & ->). exists m, e.
      destruct (e <=? 1024 - 53) eqn:L; [reflexivity |].
      apply Z.leb_gt in L. unfold fexp, emin in Hb. lia.
    + destruct H as (m & e & Hb & ->). exists m, e.
      destruct (e <=? 1024 - 53) eqn:L; [reflexivity |].
      apply Z.leb_gt in L. unfold fexp, emin in Hb. lia.
Qed.

(** * Signs through the percent computation *)

Lemma SFdiv_sign (prec emax : Z) (sx : bool) (mx : positive) (ex : Z)
  (y : spec_float) (sy : bool) :
  sign_nonzero sy y ->
  sign_any (xorb sx sy) (SFdiv prec emax (S754_finite sx mx ex) y).
Proof.
  destruct y as [s | s | | s my ey]; cbn [sign_nonzero]; intros H; try contradiction; subst s.
  - reflexivity.
  - cbn [SFdiv]. unfold SFdiv_core_binary.
    set (m' := match _ - _ - Z.min _ _ with
               | Zpos _ => Z.shiftl (Zpos mx) _
               | Z0 => Zpos mx
               | Zneg _ => Z0
               end).
    assert (Hm : 0 <= m').
    { subst m'. destruct (_ - _ - Z.min _ _); [lia | | lia].
      apply Z.shiftl_nonneg. lia. }
    pose proof (Z.div_pos m' (Zpos my) Hm ltac:(lia)) as Hq.
    unfold Z.div in Hq.
    destruct (Z.div_eucl m' (Zpos my)) as [q r].
    apply binary_round_aux_sign. exact Hq.
Qed.

Lemma fmt_round_sign (prec emax : Z) (s : bool) (x : spec_float) :
  sign_any s x -> sign_any s (fmt_round prec emax x).
Proof.
  destruct x as [s' | s' | | s' m e]; cbn [sign_any fmt_round]; intros H;
    try exact H.
  subst s'. unfold binary_round.
  destruct (shl_align m e _) as [m1 e1].
  apply binary_round_aux_sign. lia.
Qed.

Lemma fmt_round_sign_nonzero (prec emax : Z) (s : bool) (x : spec_float) :
  0 < prec ->
  (forall m e, x = S754_finite s m e -> emin prec emax <= e) ->
  sign_nonzero s x -> sign_nonzero s (fmt_round prec emax x).
Proof.
  intros Hp He.
  destruct x as [s' | s' | | s' m e]; cbn [sign_nonzero fmt_round]; intros H;
    try exact H.
  subst s'. specialize (He m e eq_refl).
  destruct (binary_round_positive prec emax Hp s m e) as (m' & e' & _ & ->).
  { pose proof (Zdigits2_pos (Zpos m) ltac:(lia)). lia. }
  destruct (e' <=? emax - prec); reflexivity.
Qed.

Lemma F32_mul_100_sign (s : bool) (x : spec_float) :
  sign_any s x -> sign_any s (F32.mul x (F32.of_Z 100)).
Proof.
  change (F32.of_Z 100) with (S754_finite false 13107200 (-17)).
  destruct x as [s' | s' | | s' m e]; cbn [sign_any]; intros H; try contradiction;
    subst s'; unfold F32.mul; cbn [SFmul].
  - destruct s; reflexivity.
  - destruct s; reflexivity.
  - replace (xorb s false) with s by (destruct s; reflexivity).
    apply binary_round_aux_sign. lia.
Qed.

Lemma clamp_low_at_0_of_negative (x : spec_float) :
  sign_any true x -> SFeqb (clamp_low_at_0 x) F32.zero = true.
Proof.
  destruct x as [s | s | | s m e]; cbn [sign_any]; intros H; try contradiction;
    subst s; reflexivity.
Qed.

(** The [float] difference [max - min] of two speeds with [max > min] is a
    positive non-zero number, and so is its widening to [double]. *)
Lemma F32_sub_rpm_positive (mn mx : spec_float) :
  rpm_value mn = true -> rpm_value mx = true -> SFgtb mx mn = true ->
  sign_nonzero false (F64.of_f32 (F32.sub mx mn)).
Proof.
  intros Hn Hx Hgt.
  assert (Hd : sign_nonzero false (F32.sub mx mn)
               /\ forall m e, F32.sub mx mn = S754_finite false m e -> -149 <= e).
  { destruct mn as [[|] | | | [|] mm em]; try discriminate Hn;
      destruct mx as [[|] | | | [|] mx' ex]; try discriminate Hx;
      cbn [rpm_value] in Hn, Hx; try discriminate Hgt.
    - cbn. split; [reflexivity |]. intros m e [= _ <-].
      destruct (bounded32_inv mx' ex Hx) as (_ & _ & E). lia.
    - destruct (bounded32_inv mx' ex Hx) as (Cx & _ & _).
      destruct (bounded32_inv mm em Hn) as (Cn & _ & _).
      pose proof (SFsub_canonical 24 128 ltac:(lia) mx' ex mm em Cx Cn) as H.
      cbv zeta in H. unfold SFgtb in Hgt. unfold F32.sub, F32.prec, F32.emax.
      destruct (SFcompare (S754_finite false mx' ex) (S754_finite false mm em))
        as [[| |] |]; try discriminate Hgt.
      destruct H as (m & e & Hb & ->). unfold emin in Hb.
      destruct (e <=? 128 - 24); split; try reflexivity.
      + intros m0 e0 [= _ <-]. lia.
      + discriminate. }
  destruct Hd as [Hs He].
  apply fmt_round_sign_nonzero; [unfold F64.prec; lia | | exact Hs].
  intros m e Heq. specialize (He m e Heq). unfold emin, F64.prec, F64.emax. lia.
Qed.

(** A current speed below the minimum, with the maximum above the minimum,
    gives a percent equal to zero. *)
Lemma fan_pct_below_min (c mn mx : spec_float) :
  rpm_value c = true -> rpm_value mn = true -> rpm_value mx = true ->
  F64.ltb (F64.of_f32 c) (F64.of_f32 mn) = true ->
  SFgtb mx mn = true ->
  SFeqb (fan_pct (F64.of_f32 c) mn mx) F32.zero = true.
Proof.
  intros Hc Hn Hx Hlt Hgt.
  pose proof (F64_sub_rpm c mn Hc Hn) as Hsub.
  unfold F64.ltb, SFltb in Hlt.
  destruct (SFcompare (F64.of_f32 c) (F64.of_f32 mn)) as [[| |] |];
    try discriminate Hlt.
  destruct Hsub as (m & e & Hsub).
  pose proof (F32_sub_rpm_positive mn mx Hn Hx Hgt) as Hd.
  rewrite fan_pct_is_percent_claimed. unfold percent_claimed, percent_unclamped.
  rewrite Hsub.
  apply clamp_low_at_0_of_negative, F32_mul_100_sign.
  apply (fmt_round_sign F32.prec F32.emax true).
  apply (SFdiv_sign F64.prec F64.emax true m e _ false Hd).
Qed.

(** With equal bounds the divisor is zero, and the percent follows the sign
    of the numerator. *)
Lemma fan_pct_equal_bounds (cur mn : spec_float) :
  is_finite mn = true ->
  fan_pct cur mn mn
  = match F64.sub cur (F64.of_f32 mn) with
    | S754_nan | S754_zero _ => S754_nan
    | S754_infinity s | S754_finite s _ _ => if s then F32.zero else S754_infinity false
    end.
Proof.
  intros Hf. unfold fan_pct. rewrite (F32_sub_diag mn Hf).
  change (F64.of_f32 (S754_zero false)) with (S754_zero false).
  destruct (F64.sub cur (F64.of_f32 mn)) as [s | s | | s m e];
    try destruct s; reflexivity.
Qed.

Lemma rpm_value_is_finite (x : spec_float) : rpm_value x = true -> is_finite x = true.
Proof. destruct x as [[|] | | | [|] m e]; cbn; congruence. Qed.

Lemma rpm_value_eqb (x y : spec_float) :
  rpm_value x = true -> rpm_value y = true -> SFeqb x y = true -> x = y.
Proof.
  intros Hx Hy.
  destruct x as [[|] | | | [|] mx ex]; try discriminate Hx;
    destruct y as [[|] | | | [|] my ey]; try discriminate Hy;
    unfold SFeqb; cbn [SFcompare]; try discriminate; [reflexivity |].
  destruct (Z.compare_spec ex ey) as [-> | |]; try discriminate.
  destruct (Pos.compare_cont Eq mx my) eqn:E; try discriminate.
  apply Pos.compare_eq in E. subst my. reflexivity.
Qed.

(** * Values of the fixed-point decoder *)

Lemma sf_eqb_eq (x y : spec_float) : sf_eqb x y = true -> x = y.
Proof.
  destruct x as [a | a | | a m e], y as [b | b | | b m' e']; cbn; try discriminate;
    try (intros H; apply eqb_prop in H; congruence); try reflexivity.
  intros H. apply andb_prop in H as [H He]. apply andb_prop in H as [Hs Hm].
  apply eqb_prop in Hs. apply Pos.eqb_eq in Hm. apply Z.eqb_eq in He. congruence.
Qed.

Lemma returns_sf_eq (o : option spec_float) (v : spec_float) :
  returns_sf o v = true -> o = Some v.
Proof.
  destruct o as [x |]; cbn; [| discriminate].
  intros H. apply sf_eqb_eq in H. congruence.
Qed.

Lemma all_below_spec (n : nat) (p : Z -> bool) :
  all_below n p = true -> forall z, 0 <= z < Z.of_nat n -> p z = true.
Proof.
  induction n as [| n IH]; intros H z Hz; [lia |].
  cbn [all_below] in H. apply andb_prop in H as [Hn Hr].
  destruct (Z.eq_dec z (Z.of_nat n)) as [-> | Hne]; [exact Hn |].
  apply IH; [exact Hr | lia].
Qed.

Lemma all_below_spec2 (n m : nat) (p : Z -> Z -> bool) :
  all_below n (fun a => all_below m (fun b => p a b)) = true ->
  forall a b, 0 <= a < Z.of_nat n -> 0 <= b < Z.of_nat m -> p a b = true.
Proof.
  intros H a b Ha Hb.
  exact (all_below_spec m _ (all_below_spec n _ H a Ha) b Hb).
Qed.

Lemma fpe2_check_all :
  all_below 256 (fun b0 =>
    all_below 256 (fun b1 =>
      returns_sf (_strtof [b0; b1] 2 2) (F32.of_dyadic (256 * schar b0 + b1) (-2))
      && (strtof_claimed_quarters [b0; b1] 2 2 =? 256 * b0 + b1))) = true.
Proof. vm_cast_no_check (eq_refl true). Qed.

(** The value [_strtof] gives to an ["fpe2"] pair of bytes, and the value
    the formula over unsigned bytes gives: they agree exactly when the
    first byte is below [0x80]. *)
Lemma strtof_fpe2_value (b0 b1 : Z) :
  0 <= b0 < 256 -> 0 <= b1 < 256 ->
  _strtof [b0; b1] 2 2 = Some (F32.of_dyadic (256 * schar b0 + b1) (-2))
  /\ strtof_claimed [b0; b1] 2 2 = F32.of_dyadic (256 * b0 + b1) (-2).
Proof.
  intros H0 H1.
  pose proof (all_below_spec2 256 256
                (fun b0 b1 =>
                   returns_sf (_strtof [b0; b1] 2 2)
                     (F32.of_dyadic (256 * schar b0 + b1) (-2))
                   && (strtof_claimed_quarters [b0; b1] 2 2 =? 256 * b0 + b1))
                fpe2_check_all b0 b1 H0 H1) as Hc.
  cbv beta in Hc. apply andb_prop in Hc as [Hv Hq].
  split.
  - exact (returns_sf_eq _ _ Hv).
  - unfold strtof_claimed. apply Z.eqb_eq in Hq. rewrite Hq. reflexivity.
Qed.

(** * Fan labels *)

Lemma fan_switch_other (nFans i : Z) (fanID : option string) :
  2 <= i -> i <> 63 -> fan_switch nFans i fanID = fanID.
Proof.
  intros H2 H63. unfold fan_switch.
  change (Z.of_N (N_of_ascii "?")) with 63.
  destruct (i =? 0) eqn:E0; [apply Z.eqb_eq in E0; lia |].
  destruct (i =? 1) eqn:E1; [apply Z.eqb_eq in E1; lia |].
  destruct (i =? 63) eqn:E63; [apply Z.eqb_eq in E63; lia |].
  reflexivity.
Qed.

Lemma fan_key_check_all : all_below 256 fan_key_check = true.
Proof. vm_compute. reflexivity. Qed.

(** Within the indices a one-byte fan count allows, [sprintf] stays inside
    [key] only up to index 9. *)
Lemma sprintf_key_fits (i : Z) (suffix : string) (key : buffer) :
  0 <= i < 256 ->
  suffix = "ID"%string \/ suffix = "Ac"%string \/ suffix = "Mn"%string
  \/ suffix = "Mx"%string ->
  sprintf_key i suffix = Some key ->
  i < 10 /\ key = fan_key i suffix.
Proof.
  intros Hi Hs Hk.
  pose proof (all_below_spec 256 fan_key_check fan_key_check_all i Hi) as H.
  unfold fan_key_check in H.
  apply andb_prop in H as [H _]. apply andb_prop in H as [H H4].
  apply andb_prop in H as [H H3]. apply andb_prop in H as [H1 H2].
  apply eqb_prop in H1, H2, H3, H4.
  unfold sprintf_key in Hk. cbv zeta in Hk.
  destruct (List.length (fan_key i suffix) <=? 5)%nat eqn:L; [| discriminate Hk].
  injection Hk as <-. split; [| reflexivity].
  destruct Hs as [-> | [-> | [-> | ->]]];
    [rewrite L in H1 | rewrite L in H2 | rewrite L in H3 | rewrite L in H4];
    apply Z.ltb_lt; congruence.
Qed.




(** * Speeds the readers return *)

Lemma F32_of_bits_valid (w : Z) :
  valid_binary F32.prec F32.emax (F32.of_bits w) = true.
Proof.
  unfold F32.of_bits.
  set (ex := Z.land (Z.shiftr w 23) 255).
  set (mant := Z.land w (2 ^ 23 - 1)).
  assert (Hex : 0 <= ex < 256).
  { subst ex. change 255 with (Z.ones 8). rewrite Z.land_ones by lia.
    apply Z.mod_pos_bound. lia. }
  assert (Hm : 0 <= mant < 2 ^ 23).
  { subst mant. change (2 ^ 23 - 1) with (Z.ones 23). rewrite Z.land_ones by lia.
    apply Z.mod_pos_bound. lia. }
  destruct (ex =? 255) eqn:E255.
  { destruct (mant =? 0); reflexivity. }
  apply Z.eqb_neq in E255.
  destruct (ex =? 0) eqn:E0.
  - destruct mant as [| m | m] eqn:Em; try reflexivity.
    cbn [valid_binary]. unfold bounded, canonical_mantissa, fexp, emin, F32.prec, F32.emax.
    pose proof (digits2_pos_lower m) as L.
    assert (D : Zpos (digits2_pos m) <= 23).
    { destruct (Z.le_gt_cases (Zpos (digits2_pos m)) 23) as [|G]; [assumption |].
      assert (2 ^ 23 <= 2 ^ (Zpos (digits2_pos m) - 1)) by (apply Z.pow_le_mono_r; lia).
      lia. }
    apply andb_true_intro. split; [apply Z.eqb_eq | apply Z.leb_le]; lia.
  - apply Z.eqb_neq in E0.
    destruct (mant + 2 ^ 23) as [| m | m] eqn:Em; try reflexivity.
    cbn [valid_binary]. unfold bounded, canonical_mantissa, fexp, emin, F32.prec, F32.emax.
    assert (D : Zpos (digits2_pos m) = 24).
    { apply (Zdigits2_unique (Zpos m) 24); lia. }
    apply andb_true_intro. split; [apply Z.eqb_eq | apply Z.leb_le]; lia.
Qed.

Lemma strtof_valid (str : buffer) (size e : Z) (v : spec_float) :
  _strtof str size e = Some v -> valid_binary F32.prec F32.emax v = true.
Proof.
  unfold _strtof.
  destruct (strtof_loop str size e (Z.to_nat size) 0 F32.zero) as [total |];
    [cbn [obind] | discriminate].
  destruct (load_char str (size - 1)) as [c |]; [cbn [obind] | discriminate].
  intros [= <-]. apply fmt_round_valid. unfold F32.prec. lia.
Qed.

Section LoopFacts.
Variable World : Type.
Variable call :
  World -> Z -> SMCKeyData_t -> SMCKeyData_t -> kern_return_t * SMCKeyData_t * World.

Lemma getSMCrpm_valid (k : buffer) (s s' : Session World) (f : spec_float) :
  getSMCrpm call k s = Some (f, s') -> valid_binary F32.prec F32.emax f = true.
Proof.
  unfold getSMCrpm.
  destruct (SMCReadKey call k s) as [[[result val] s1] |]; [cbn [obind] | discriminate].
  destruct ((result =? kIOReturnSuccess) && (0 <? dataSize val)).
  - destruct (strcmp_eq (dataType val) "flt ").
    + intros [= <- _]. apply F32_of_bits_valid.
    + destruct (strcmp_eq (dataType val) "fpe2").
      * destruct (_strtof (bytes val) (wrap32 (dataSize val)) 2) as [v |] eqn:E;
          [cbn [obind] | discriminate].
        intros [= <- _]. exact (strtof_valid _ _ _ _ E).
      * intros [= <- _]. reflexivity.
  - intros [= <- _]. reflexivity.
Qed.

(** What a pass of the loop prints: nothing, or one line whose speed is the
    widened current speed [f] and whose percent is [fan_pct] of the three
    speeds read, none of which compares below zero. *)
Lemma fan_iteration_prints (nFans i : Z) (s s' : Session World)
  (fanID fanID' : option string) (out out' : list FanReading) :
  fan_iteration call nFans i (s, fanID, out) = Some (s', fanID', out') ->
  out' = out
  \/ exists f mn mx,
      valid_binary F32.prec F32.emax f = true
      /\ valid_binary F32.prec F32.emax mn = true
      /\ valid_binary F32.prec F32.emax mx = true
      /\ F64.ltb (F64.of_f32 f) (F64.of_f32 F32.zero) = false
      /\ F32.ltb mn F32.zero = false
      /\ F32.ltb mx F32.zero = false
      /\ F64.ltb F64.zero (F64.of_f32 f) = true
      /\ out' = out ++ [ {| fan_index := i;
                            fan_sensor := fan_switch nFans i fanID;
                            fan_rpm := F64.of_f32 f;
                            fan_percent := fan_pct (F64.of_f32 f) mn mx |} ].
Proof.
  unfold fan_iteration.
  destruct (sprintf_key i "ID") as [k0 |]; [cbn [obind] | discriminate].
  destruct (SMCReadKey call k0 s) as [[[r0 v0] s0] |];
    [cbn [obind] | discriminate].
  destruct (negb (r0 =? kIOReturnSuccess)); [intros [= _ _ <-]; left; reflexivity |].
  destruct (sprintf_key i "Ac") as [k1 |]; [cbn [obind] | discriminate].
  destruct (getSMCrpm call k1 s0) as [[f s1] |] eqn:Ef;
    [cbn [obind] | discriminate].
  destruct (F64.ltb (F64.of_f32 f) (F64.of_f32 F32.zero)) eqn:G1;
    [intros [= _ _ <-]; left; reflexivity |].
  destruct (sprintf_key i "Mn") as [k2 |]; [cbn [obind] | discriminate].
  destruct (getSMCrpm call k2 s1) as [[mn s2] |] eqn:En;
    [cbn [obind] | discriminate].
  destruct (F32.ltb mn F32.zero) eqn:G2; [intros [= _ _ <-]; left; reflexivity |].
  destruct (sprintf_key i "Mx") as [k3 |]; [cbn [obind] | discriminate].
  destruct (getSMCrpm call k3 s2) as [[mx s3] |] eqn:Ex;
    [cbn [obind] | discriminate].
  destruct (F32.ltb mx F32.zero) eqn:G3; [intros [= _ _ <-]; left; reflexivity |].
  destruct (F64.ltb F64.zero (F64.of_f32 f)) eqn:G4;
    [| intros [= _ _ <-]; left; reflexivity].
  intros [= _ _ <-]. right. exists f, mn, mx.
  pose proof (getSMCrpm_valid _ _ _ _ Ef).
  pose proof (getSMCrpm_valid _ _ _ _ En).
  pose proof (getSMCrpm_valid _ _ _ _ Ex).
  repeat split; assumption.
Qed.

End LoopFacts.

(** A valid finite [float] that does not compare below zero and is not
    [-0.0] is a speed in the sense of [rpm_value]. *)
Lemma rpm_value_of_valid (x : spec_float) :
  valid_binary F32.prec F32.emax x = true ->
  is_finite x = true ->
  F32.ltb x F32.zero = false ->
  x <> S754_zero true ->
  rpm_value x = true.
Proof.
  destruct x as [[|] | s | | [|] m e]; cbn; try congruence.
Qed.

(** The zero of a clamped percent can carry a minus sign: the quotient of
    the smallest speeds over the widest range underflows to [-0.0], which
    does not compare below zero. *)
Lemma fan_pct_negative_zero :
  fan_pct (F64.of_f32 (S754_finite false 1 (-149))) (S754_finite false 2 (-149))
          (S754_finite false 8388608 104)
  = S754_zero true.
Proof. vm_compute. reflexivity. Qed.

(** C5.  The percent is [(current - min) / (max - min) * 100] clamped below
    at 0 and not clamped above; 3000 RPM between 1000 and 5000 gives exactly
    50.00 and 6000 RPM gives 125.00.  The percent never compares below zero,
    and for finite non-negative speeds a current below min gives a percent
    equal to zero provided max is above min (the zero it gives is [0.0], or
    [-0.0] when the quotient underflows, see [fan_pct_negative_zero]).  The
    speeds a pass of the loop feeds into the formula are valid [float]s that
    do not compare below zero ([fan_iteration_prints]), hence speeds in the
    sense of [rpm_value] when finite ([rpm_value_of_valid]). *)
Theorem C5_fan_percent :
  (forall cur min max,
      fan_pct cur min max = clamp_low_at_0 (percent_unclamped cur min max))
  /\ fan_pct (F64.of_f32 (F32.of_Z 3000)) (F32.of_Z 1000) (F32.of_Z 5000)
     = F32.of_Z 50
  /\ (forall cur min max,
         F32.ltb (percent_unclamped cur min max) F32.zero = false ->
         fan_pct cur min max = percent_unclamped cur min max)
  /\ fan_pct (F64.of_f32 (F32.of_Z 6000)) (F32.of_Z 1000) (F32.of_Z 5000)
     = F32.of_Z 125
  /\ (forall cur min max, F32.ltb (fan_pct cur min max) F32.zero = false)
  /\ (forall c mn mx,
         rpm_value c = true -> rpm_value mn = true -> rpm_value mx = true ->
         F64.ltb (F64.of_f32 c) (F64.of_f32 mn) = true ->
         SFgtb mx mn = true ->
         SFeqb (fan_pct (F64.of_f32 c) mn mx) F32.zero = true).
Proof.
  split; [reflexivity |].
  split; [reflexivity |].
  split.
  { intros cur min max H. rewrite fan_pct_is_percent_claimed.
    unfold percent_claimed, clamp_low_at_0. rewrite H. reflexivity. }
  split; [reflexivity |].
  split.
  { intros cur min max. rewrite fan_pct_is_percent_claimed.
    apply clamp_low_at_0_not_below. }
  exact fan_pct_below_min.
Qed.

Lemma C5_fan_percent_witness :
  SFeqb (fan_pct (F64.of_f32 (F32.of_Z 500)) (F32.of_Z 1000) (F32.of_Z 5000)) F32.zero
  = true.
Proof.
  apply (proj2 (proj2 (proj2 (proj2 (proj2 C5_fan_percent))))
           (F32.of_Z 500) (F32.of_Z 1000) (F32.of_Z 5000));
    reflexivity.
Defined.

(** A current below min does not always give 0.00: with max below min the
    quotient is positive, and 500 RPM between 1000 and 800 gives 250.00. *)
Lemma C5_below_min_with_max_below_min :
  ~ (forall c mn mx,
        rpm_value c = true -> rpm_value mn = true -> rpm_value mx = true ->
        F64.ltb (F64.of_f32 c) (F64.of_f32 mn) = true ->
        SFeqb (fan_pct (F64.of_f32 c) mn mx) F32.zero = true).
Proof.
  intros H.
  specialize (H (F32.of_Z 500) (F32.of_Z 1000) (F32.of_Z 800)
                eq_refl eq_refl eq_refl eq_refl).
  assert (E : fan_pct (F64.of_f32 (F32.of_Z 500)) (F32.of_Z 1000) (F32.of_Z 800)
              = F32.of_Z 250) by reflexivity.
  rewrite E in H. discriminate H.
Qed.

(** The values [rpm_passes] holds of are the valid finite [float]s that do
    not compare below zero: those the tests of the fan loop let through. *)
Lemma rpm_passes_of_valid (x : spec_float) :
  rpm_passes x = true
  <-> valid_binary F32.prec F32.emax x = true
      /\ is_finite x = true
      /\ F32.ltb x F32.zero = false.
Proof.
  destruct x as [[|] | s | | [|] m e]; cbn; intuition congruence.
Qed.

Lemma rpm_passes_cases (x : spec_float) :
  rpm_passes x = true ->
  (exists s, x = S754_zero s)
  \/ (exists m e, x = S754_finite false m e /\ bounded F32.prec F32.emax m e = true
                  /\ rpm_value x = true).
Proof.
  destruct x as [s | s | | [|] m e]; cbn; intros H; try discriminate H.
  - left. exists s. reflexivity.
  - right. exists m, e. auto.
Qed.

(** With both bounds zero, of either sign, and a positive current speed. *)
Lemma fan_pct_zero_bounds (m : positive) (e : Z) (sn sx : bool) :
  fan_pct (S754_finite false m e) (S754_zero sn) (S754_zero sx)
  = if negative_zero_divisor (S754_zero sn) (S754_zero sx) then F32.zero
    else S754_infinity false.
Proof. destruct sn, sx; reflexivity. Qed.

(** C10.  For speeds that are finite and do not compare below zero (zeros
    of either sign included) with max == min, the divisor [max - min] is a
    zero and the division is carried out.  The divisor is [+0.0], except
    that it is [-0.0] when max is [-0.0] and min is [+0.0].  One of three
    cases holds.  When current equals min the percent is NaN.  When current
    is above min the percent is [+infinity], except with the divisor [-0.0],
    where the quotient [-infinity] is clamped to 0.00.  When current is
    below min the quotient [-infinity] is clamped, and the percent is the
    finite number 0.00. *)
Theorem C10_equal_min_max (c mn mx : spec_float) :
  rpm_passes c = true -> rpm_passes mn = true -> rpm_passes mx = true ->
  SFeqb mx mn = true ->
  F64.of_f32 (F32.sub mx mn) = S754_zero (negative_zero_divisor mn mx)
  /\ (SFgtb (F64.of_f32 c) (F64.of_f32 mn) = true
      \/ SFeqb (F64.of_f32 c) (F64.of_f32 mn) = true
      \/ F64.ltb (F64.of_f32 c) (F64.of_f32 mn) = true)
  /\ (SFgtb (F64.of_f32 c) (F64.of_f32 mn) = true ->
      fan_pct (F64.of_f32 c) mn mx
      = if negative_zero_divisor mn mx then F32.zero else S754_infinity false)
  /\ (SFeqb (F64.of_f32 c) (F64.of_f32 mn) = true ->
      fan_pct (F64.of_f32 c) mn mx = S754_nan)
  /\ (F64.ltb (F64.of_f32 c) (F64.of_f32 mn) = true ->
      fan_pct (F64.of_f32 c) mn mx = F32.zero).
Proof.
  intros Hc Hn Hx Heq.
  destruct (rpm_passes_cases mn Hn) as [[sn ->] | (m & e & -> & Bn & Vn)].
  - (* min is a zero: so is max *)
    assert (Ex : exists sx, mx = S754_zero sx).
    { destruct mx as [sx | sx | | [|] m e]; try discriminate Hx; try discriminate Heq.
      exists sx. reflexivity. }
    destruct Ex as [sx ->].
    destruct (rpm_passes_cases c Hc) as [[sc ->] | (m & e & -> & Bc & _)].
    + destruct sc, sn, sx; repeat split; auto; intros H; try discriminate H; reflexivity.
    + destruct (F64_of_f32_finite false m e Bc) as (m' & -> & _).
      rewrite F64_of_f32_zero.
      split; [destruct sn, sx; reflexivity |].
      split; [left; reflexivity |].
      split; [intros _; apply fan_pct_zero_bounds |].
      split; intros H; discriminate H.
  - (* min is a positive number: max is the same number *)
    assert (Vx : rpm_value mx = true).
    { destruct mx as [sx | sx | | [|] m' e']; try discriminate Hx; try discriminate Heq.
      exact Hx. }
    rewrite (rpm_value_eqb mx _ Vx Vn Heq).
    assert (Hf : is_finite (S754_finite false m e) = true) by reflexivity.
    split; [rewrite (F32_sub_diag _ Hf); reflexivity |].
    cbn [negative_zero_divisor].
    rewrite (fan_pct_equal_bounds (F64.of_f32 c) _ Hf).
    destruct (rpm_passes_cases c Hc) as [[sc ->] | (mc & ec & -> & Bc & Vc)].
    + rewrite F64_of_f32_zero.
      destruct (F64_of_f32_finite false m e Bn) as (m' & -> & _).
      split; [right; right; reflexivity |].
      repeat split; intros H; try discriminate H; reflexivity.
    + pose proof (F64_sub_rpm _ _ Vc Vn) as Hsub.
      unfold SFgtb, SFeqb, F64.ltb, SFltb.
      destruct (SFcompare (F64.of_f32 (S754_finite false mc ec))
                          (F64.of_f32 (S754_finite false m e))) as [[| |] |];
        [| destruct Hsub as (m0 & e0 & Hsub) | destruct Hsub as (m0 & e0 & Hsub)
         | contradiction];
        rewrite Hsub; (split; [auto |]);
        repeat split; intros H; try discriminate H; reflexivity.
Qed.

Lemma C10_equal_min_max_witness :
  fan_pct (F64.of_f32 (F32.of_Z 3000)) (S754_zero false) (S754_zero true) = F32.zero.
Proof.
  exact (proj1 (proj2 (proj2
           (C10_equal_min_max (F32.of_Z 3000) (S754_zero false) (S754_zero true)
              eq_refl eq_refl eq_refl eq_refl))) eq_refl).
Defined.

(** The run behind the witness: the minimum speed of the single fan reads
    as [+0.0], the maximum as [-0.0] (the ["flt "] bytes [00 00 00 80]), the
    current speed is 3000 RPM; the line printed has the percent 0.00. *)
Lemma influxSMCfans_negative_zero_max :
  option_map (fun r => map (fun l => (fan_index l, fan_percent l)) (snd r))
    (influxSMCfans
       (table_smc [ {| s_key := "FNum"; s_type := "ui8 "; s_size := 1; s_bytes := [1] |};
                    {| s_key := "F0ID"; s_type := "ch8*"; s_size := 16; s_bytes := [] |};
                    {| s_key := "F0Ac"; s_type := "fpe2"; s_size := 2;
                       s_bytes := [0x2E; 0xE0] |};
                    {| s_key := "F0Mn"; s_type := "flt "; s_size := 4;
                       s_bytes := [0; 0; 0; 0] |};
                    {| s_key := "F0Mx"; s_type := "flt "; s_size := 4;
                       s_bytes := [0; 0; 0; 0x80] |} ])
       (opened tt))
  = Some [(0, S754_zero false)].
Proof. vm_compute. reflexivity. Qed.

(** With max == min the percent can be finite: 500 RPM with both bounds at
    1000 gives 0.00. *)
Lemma C10_percent_finite_below_min :
  ~ (forall c mn mx,
        rpm_value c = true -> rpm_value mn = true -> rpm_value mx = true ->
        SFeqb mx mn = true ->
        is_finite (fan_pct (F64.of_f32 c) mn mx) = false).
Proof.
  intros H.
  specialize (H (F32.of_Z 500) (F32.of_Z 1000) (F32.of_Z 1000)
                eq_refl eq_refl eq_refl eq_refl).
  discriminate H.
Qed.

(** * The key codec on arbitrary bytes *)

Lemma schar_byte (c : Z) :
  0 <= c < 256 ->
  (c < 128 /\ schar c = c) \/ (128 <= c /\ schar c = c - 256).
Proof.
  intros H. unfold schar. rewrite Z.mod_small by lia.
  destruct (c <? 128) eqn:E; [apply Z.ltb_lt in E | apply Z.ltb_ge in E]; lia.
Qed.

(** The packed value of any key of at least four bytes: each byte counts as
    a signed [char], and only the first four are read. *)
Lemma encodeKey_bytes (c0 c1 c2 c3 : Z) (rest : buffer) :
  encodeKey (c0 :: c1 :: c2 :: c3 :: rest)
  = Some ((schar c0 * 2 ^ 24 + schar c1 * 2 ^ 16 + schar c2 * 2 ^ 8 + schar c3)
          mod 2 ^ 32).
Proof.
  pose proof (schar_range c0). pose proof (schar_range c1).
  pose proof (schar_range c2). pose proof (schar_range c3).
  unfold encodeKey, _strtoul.
  change (Z.to_nat 4) with 4%nat.
  cbn -[schar wrap32 u32 Z.shiftl Z.pow].
  change (Pos.to_nat 1) with 1%nat; change (Pos.to_nat 2) with 2%nat;
    change (Pos.to_nat 3) with 3%nat.
  cbn -[schar wrap32 u32 Z.shiftl Z.pow].
  rewrite !Z.shiftl_mul_pow2 by lia.
  rewrite !wrap32_small by lia.
  unfold u32. f_equal.
  rewrite (Z.add_mod_idemp_l (0 + schar c0 * 2 ^ 24)) by lia.
  rewrite (Z.add_mod_idemp_l (0 + schar c0 * 2 ^ 24 + schar c1 * 2 ^ 16)) by lia.
  rewrite (Z.add_mod_idemp_l (0 + schar c0 * 2 ^ 24 + schar c1 * 2 ^ 16
                              + schar c2 * 2 ^ 8)) by lia.
  f_equal. lia.
Qed.

Lemma u32_bytes (v : Z) :
  0 <= v < 2 ^ 32 ->
  v = (v / 2 ^ 24) mod 256 * 2 ^ 24 + (v / 2 ^ 16) mod 256 * 2 ^ 16
      + (v / 2 ^ 8) mod 256 * 2 ^ 8 + v mod 256.
Proof.
  intros H.
  pose proof (Z.div_mod v 256 ltac:(lia)) as E0.
  pose proof (Z.div_mod (v / 256) 256 ltac:(lia)) as E1.
  pose proof (Z.div_mod (v / 256 / 256) 256 ltac:(lia)) as E2.
  rewrite !Z.div_div in * by lia.
  change (256 * 256) with (2 ^ 16) in *. change (2 ^ 16 * 256) with (2 ^ 24) in *.
  change 256 with (2 ^ 8) in E1 at 1. change 256 with (2 ^ 8) in E2 at 1.
  assert (Hs : 0 <= v / 2 ^ 24 < 256).
  { split; [apply Z.div_pos; lia | apply Z.div_lt_upper_bound; lia]. }
  rewrite (Z.mod_small (v / 2 ^ 24)) by lia.
  change (2 ^ 8) with 256 in *. lia.
Qed.

(** X1.  For a key of four arbitrary bytes, decoding the encoded key gives
    the key back exactly when its last three bytes are below 0x80: a byte
    from 0x80 on is sign-extended by [_strtoul] and borrows from the bytes
    above it. *)
Theorem X1_roundtrip_iff_low_bytes (c0 c1 c2 c3 : Z) :
  0 <= c0 < 256 -> 0 <= c1 < 256 -> 0 <= c2 < 256 -> 0 <= c3 < 256 ->
  option_map decodeTypeTag (encodeKey [c0; c1; c2; c3]) = Some [c0; c1; c2; c3; 0]
  <-> c1 < 128 /\ c2 < 128 /\ c3 < 128.
Proof.
  intros H0 H1 H2 H3. rewrite encodeKey_bytes. cbn [option_map].
  set (S := schar c0 * 2 ^ 24 + schar c1 * 2 ^ 16 + schar c2 * 2 ^ 8 + schar c3).
  set (P := c0 * 2 ^ 24 + c1 * 2 ^ 16 + c2 * 2 ^ 8 + c3).
  pose proof (Z.mod_pos_bound S (2 ^ 32) ltac:(lia)) as Hb.
  pose proof (Z.div_mod S (2 ^ 32) ltac:(lia)) as Hd.
  assert (Hiff : decodeTypeTag (S mod 2 ^ 32) = [c0; c1; c2; c3; 0]
                 <-> S mod 2 ^ 32 = P).
  { split.
    - intros Heq. unfold decodeTypeTag, _ultostr, u32, uchar in Heq.
      rewrite (Z.mod_small (S mod 2 ^ 32)) in Heq by lia.
      rewrite !Z.shiftr_div_pow2 in Heq by lia.
      set (v := S mod 2 ^ 32) in *.
      assert (B0 : (v / 2 ^ 24) mod 256 = c0) by congruence.
      assert (B1 : (v / 2 ^ 16) mod 256 = c1) by congruence.
      assert (B2 : (v / 2 ^ 8) mod 256 = c2) by congruence.
      assert (B3 : v mod 256 = c3) by congruence.
      rewrite (u32_bytes v Hb). rewrite B0, B1, B2, B3. reflexivity.
    - intros ->. apply ultostr_packed; assumption. }
  split.
  - intros Heq. assert (Heq' : decodeTypeTag (S mod 2 ^ 32) = [c0; c1; c2; c3; 0])
      by congruence.
    apply Hiff in Heq'. clear Heq Hiff. rename Heq' into Heq.
    subst S P.
    destruct (schar_byte c0 H0) as [[L0 E0] | [L0 E0]];
      destruct (schar_byte c1 H1) as [[L1 E1] | [L1 E1]];
      destruct (schar_byte c2 H2) as [[L2 E2] | [L2 E2]];
      destruct (schar_byte c3 H3) as [[L3 E3] | [L3 E3]];
      rewrite E0, E1, E2, E3 in *; lia.
  - intros (A1 & A2 & A3). f_equal. apply Hiff. subst S P.
    destruct (schar_byte c1 H1) as [[L1 E1] | [L1 E1]]; [| lia].
    destruct (schar_byte c2 H2) as [[L2 E2] | [L2 E2]]; [| lia].
    destruct (schar_byte c3 H3) as [[L3 E3] | [L3 E3]]; [| lia].
    rewrite E1, E2, E3.
    destruct (schar_byte c0 H0) as [[L0 E0] | [L0 E0]]; rewrite E0; symmetry.
    + apply Z.mod_unique with (q := 0); lia.
    + apply Z.mod_unique with (q := -1); lia.
Qed.

Lemma X1_roundtrip_iff_low_bytes_witness :
  option_map decodeTypeTag (encodeKey [0xC6; 0x30; 0x41; 0x63])
  = Some [0xC6; 0x30; 0x41; 0x63; 0].
Proof.
  apply (proj2 (X1_roundtrip_iff_low_bytes 0xC6 0x30 0x41 0x63
                  ltac:(lia) ltac:(lia) ltac:(lia) ltac:(lia))).
  lia.
Defined.

Lemma schar_inj (a b : Z) : 0 <= a < 256 -> 0 <= b < 256 -> schar a = schar b -> a = b.
Proof.
  intros Ha Hb.
  destruct (schar_byte a Ha) as [[? ->] | [? ->]];
    destruct (schar_byte b Hb) as [[? ->] | [? ->]]; lia.
Qed.

(** X2.  No two keys collide: two keys of four bytes each, ASCII or not,
    that encode to the same 32-bit value are the same key. *)
Theorem X2_encodeKey_injective (k k' : buffer) :
  List.length k = 4%nat -> List.length k' = 4%nat ->
  Forall (fun c => 0 <= c < 256) k -> Forall (fun c => 0 <= c < 256) k' ->
  encodeKey k = encodeKey k' -> k = k'.
Proof.
  intros Hl Hl' Hk Hk'.
  destruct k as [| c0 [| c1 [| c2 [| c3 [| c4 k0]]]]]; try discriminate Hl.
  destruct k' as [| d0 [| d1 [| d2 [| d3 [| d4 k1]]]]]; try discriminate Hl'.
  inversion_clear Hk as [| ? ? C0 R0]. inversion_clear R0 as [| ? ? C1 R1].
  inversion_clear R1 as [| ? ? C2 R2]. inversion_clear R2 as [| ? ? C3 _].
  inversion_clear Hk' as [| ? ? D0 R0]. inversion_clear R0 as [| ? ? D1 R1].
  inversion_clear R1 as [| ? ? D2 R2]. inversion_clear R2 as [| ? ? D3 _].
  rewrite !encodeKey_bytes. intros [= Heq].
  pose proof (schar_range c0). pose proof (schar_range c1).
  pose proof (schar_range c2). pose proof (schar_range c3).
  pose proof (schar_range d0). pose proof (schar_range d1).
  pose proof (schar_range d2). pose proof (schar_range d3).
  set (S := schar c0 * 2 ^ 24 + schar c1 * 2 ^ 16 + schar c2 * 2 ^ 8 + schar c3) in *.
  set (T := schar d0 * 2 ^ 24 + schar d1 * 2 ^ 16 + schar d2 * 2 ^ 8 + schar d3) in *.
  pose proof (Z.div_mod S (2 ^ 32) ltac:(lia)) as HS.
  pose proof (Z.div_mod T (2 ^ 32) ltac:(lia)) as HT.
  assert (HST : S = T) by (subst S T; lia).
  subst S T.
  assert (schar c3 = schar d3) by lia.
  assert (schar c2 = schar d2) by lia.
  assert (schar c1 = schar d1) by lia.
  assert (schar c0 = schar d0) by lia.
  f_equal; [| f_equal; [| f_equal; [| f_equal]]]; apply schar_inj; assumption.
Qed.

Lemma X2_encodeKey_injective_witness :
  bytes_of_string "TC0P" = bytes_of_string "TC0P".
Proof.
  apply (X2_encodeKey_injective (bytes_of_string "TC0P") (bytes_of_string "TC0P"));
    try reflexivity; repeat constructor; cbn; lia.
Defined.

(** * Where the two decoders are defined *)

Lemma load_char_some (str : buffer) (i : Z) :
  0 <= i ->
  match load_char str i with
  | Some c => i < Z.of_nat (List.length str) /\ -128 <= c < 128
  | None => Z.of_nat (List.length str) <= i
  end.
Proof.
  intros Hi. unfold load_char.
  destruct (i <? 0) eqn:E; [apply Z.ltb_lt in E; lia |].
  destruct (nth_error str (Z.to_nat i)) as [b |] eqn:N.
  - split; [| apply schar_range].
    assert (Z.to_nat i < List.length str)%nat
      by (apply nth_error_Some; congruence).
    lia.
  - apply nth_error_None in N. lia.
Qed.

Lemma shl_int_some (a n : Z) :
  match shl_int a n with
  | Some _ => 0 <= n < 32
  | None => ~ 0 <= n < 32
  end.
Proof.
  unfold shl_int, shift_count_ok.
  destruct (0 <=? n) eqn:A; destruct (n <? 32) eqn:B; cbn;
    try apply Z.leb_le in A; try apply Z.leb_gt in A;
    try apply Z.ltb_lt in B; try apply Z.ltb_ge in B; lia.
Qed.

Lemma shr_int_some (a n : Z) :
  match shr_int a n with
  | Some _ => 0 <= n < 32
  | None => ~ 0 <= n < 32
  end.
Proof.
  unfold shr_int, shift_count_ok.
  destruct (0 <=? n) eqn:A; destruct (n <? 32) eqn:B; cbn;
    try apply Z.leb_le in A; try apply Z.leb_gt in A;
    try apply Z.ltb_lt in B; try apply Z.ltb_ge in B; lia.
Qed.

Lemma strtoul_loop_spec (str : buffer) (size base : Z) (n : nat) :
  forall i total, 0 <= i -> 0 <= total < 2 ^ 32 ->
  match strtoul_loop str size base n i total with
  | Some v => 0 <= v < 2 ^ 32
              /\ forall j, i <= j < i + Z.of_nat n ->
                   j < Z.of_nat (List.length str) /\ 0 <= (size - 1 - j) * 8 < 32
  | None => exists j, i <= j < i + Z.of_nat n
              /\ (Z.of_nat (List.length str) <= j \/ ~ 0 <= (size - 1 - j) * 8 < 32)
  end.
Proof.
  induction n as [| n IH]; intros i total Hi Ht.
  - cbn. split; [assumption | lia].
  - cbn [strtoul_loop obind].
    pose proof (load_char_some str i Hi) as L.
    destruct (load_char str i) as [c |]; cbn [obind].
    2:{ exists i. split; [lia | left; exact L]. }
    pose proof (shl_int_some c ((size - 1 - i) * 8)) as Sh.
    destruct (shl_int c ((size - 1 - i) * 8)) as [v |]; cbn [obind].
    2:{ exists i. split; [lia | right; exact Sh]. }
    match goal with
    | |- match strtoul_loop _ _ _ _ _ ?t with _ => _ end =>
        assert (Ht' : 0 <= t < 2 ^ 32)
          by (destruct (base =? 16); unfold u32; apply Z.mod_pos_bound; lia);
        specialize (IH (i + 1) t ltac:(lia) Ht')
    end.
    destruct (strtoul_loop str size base n (i + 1) _) as [r |].
    + destruct IH as [Hr Hall]. split; [assumption |].
      intros j Hj. destruct (Z.eq_dec j i) as [-> | Hne]; [lia |].
      apply Hall. lia.
    + destruct IH as (j & Hj & Hbad). exists j. split; [lia | assumption].
Qed.

Lemma strtoul_defined (str : buffer) (size base : Z) :
  match _strtoul str size base with
  | Some v => 0 <= v < 2 ^ 32
              /\ (size <= 0 /\ v = 0
                  \/ 1 <= size <= 4 /\ size <= Z.of_nat (List.length str))
  | None => 5 <= size \/ (1 <= size /\ Z.of_nat (List.length str) < size)
  end.
Proof.
  unfold _strtoul.
  destruct (Z_le_gt_dec size 0) as [Hs | Hs].
  - replace (Z.to_nat size) with 0%nat by lia. cbn. lia.
  - pose proof (strtoul_loop_spec str size base (Z.to_nat size) 0 0
                  ltac:(lia) ltac:(lia)) as H.
    destruct (strtoul_loop str size base (Z.to_nat size) 0 0) as [v |].
    + destruct H as [Hv Hall]. split; [assumption | right].
      pose proof (Hall 0 ltac:(lia)). pose proof (Hall (size - 1) ltac:(lia)). lia.
    + destruct H as (j & Hj & [Hbad | Hbad]); lia.
Qed.

(** X3.  Where the integer decoder is defined, for either base: on no bytes
    at all (a size of zero or less gives 0), or on one to four bytes that the
    buffer holds; the result then fits 32 bits.  From five bytes on the first
    shift count is 32 or more, and past the end of the buffer the read is out
    of bounds. *)
Theorem X3_strtoul_defined (str : buffer) (size base : Z) :
  ((exists v, _strtoul str size base = Some v /\ 0 <= v < 2 ^ 32)
   <-> size <= 0 \/ (size <= 4 /\ size <= Z.of_nat (List.length str)))
  /\ (_strtoul str size base = Some 0 \/ 1 <= size).
Proof.
  pose proof (strtoul_defined str size base) as H.
  destruct (_strtoul str size base) as [v |].
  - destruct H as [Hv Hc]. split.
    + split; [intros _; lia | intros _; exists v; split; [reflexivity | exact Hv]].
    + destruct Hc as [[_ ->] | Hc]; [left; reflexivity | right; lia].
  - split; [| right; lia].
    split; [intros (v & Hv & _); discriminate Hv | lia].
Qed.

Lemma strtof_loop_spec (str : buffer) (size e : Z) (n : nat) :
  forall i total, 0 <= i ->
  match strtof_loop str size e n i total with
  | Some _ => forall j, i <= j < i + Z.of_nat n ->
                j < Z.of_nat (List.length str)
                /\ (if j =? size - 1 then 0 <= e < 32
                    else 0 <= (size - 1 - j) * (8 - e) < 32)
  | None => exists j, i <= j < i + Z.of_nat n
              /\ (Z.of_nat (List.length str) <= j
                  \/ ~ (if j =? size - 1 then 0 <= e < 32
                        else 0 <= (size - 1 - j) * (8 - e) < 32))
  end.
Proof.
  induction n as [| n IH]; intros i total Hi.
  - cbn. lia.
  - cbn [strtof_loop obind].
    pose proof (load_char_some str i Hi) as L.
    destruct (load_char str i) as [c |]; cbn [obind].
    2:{ exists i. split; [lia | left; exact L]. }
    assert (Sh : match (if i =? size - 1 then shr_int (Z.land c 255) e
                        else shl_int c ((size - 1 - i) * (8 - e))) with
                 | Some _ => if i =? size - 1 then 0 <= e < 32
                             else 0 <= (size - 1 - i) * (8 - e) < 32
                 | None => ~ (if i =? size - 1 then 0 <= e < 32
                              else 0 <= (size - 1 - i) * (8 - e) < 32)
                 end).
    { destruct (i =? size - 1); [apply shr_int_some | apply shl_int_some]. }
    destruct (if i =? size - 1 then shr_int (Z.land c 255) e
              else shl_int c ((size - 1 - i) * (8 - e))) as [v |]; cbn [obind].
    2:{ exists i. split; [lia | right; exact Sh]. }
    specialize (IH (i + 1) (F32.add total (F32.of_Z v)) ltac:(lia)).
    destruct (strtof_loop str size e n (i + 1) _) as [r |].
    + intros j Hj. destruct (Z.eq_dec j i) as [-> | Hne]; [split; [lia | exact Sh] |].
      apply IH. lia.
    + destruct IH as (j & Hj & Hbad). exists j. split; [lia | assumption].
Qed.

Lemma strtof_defined (str : buffer) (size e : Z) :
  match _strtof str size e with
  | Some _ => 1 <= size <= Z.of_nat (List.length str)
              /\ 0 <= e < 32
              /\ (size = 1 \/ (e <= 8 /\ (size - 1) * (8 - e) < 32))
  | None => ~ (1 <= size <= Z.of_nat (List.length str)
               /\ 0 <= e < 32
               /\ (size = 1 \/ (e <= 8 /\ (size - 1) * (8 - e) < 32)))
  end.
Proof.
  unfold _strtof.
  pose proof (strtof_loop_spec str size e (Z.to_nat size) 0 F32.zero ltac:(lia)) as H.
  destruct (Z_le_gt_dec size 0) as [Hs | Hs].
  - replace (Z.to_nat size) with 0%nat by lia. cbn [strtof_loop obind].
    unfold load_char. replace (size - 1 <? 0) with true by (symmetry; apply Z.ltb_lt; lia).
    cbn. lia.
  - destruct (strtof_loop str size e (Z.to_nat size) 0 F32.zero) as [t |];
      cbn [obind].
    + pose proof (H (size - 1) ltac:(lia)) as [Hlen He].
      rewrite Z.eqb_refl in He.
      pose proof (load_char_some str (size - 1) ltac:(lia)) as L.
      destruct (load_char str (size - 1)) as [c |]; [| lia]. cbn [obind].
      split; [lia | split; [assumption |]].
      destruct (Z.eq_dec size 1) as [-> | Hne]; [left; reflexivity | right].
      pose proof (H 0 ltac:(lia)) as [_ H0].
      replace (0 =? size - 1) with false in H0 by (symmetry; apply Z.eqb_neq; lia).
      rewrite Z.sub_0_r in H0. nia.
    + intros (Hsz & He & Hsh).
      destruct H as (j & Hj & [Hbad | Hbad]); [lia |].
      destruct (j =? size - 1) eqn:Ej; [lia |].
      apply Z.eqb_neq in Ej. apply Hbad.
      destruct Hsh as [-> | [He8 Hm]]; [lia |]. nia.
Qed.

(** X4.  Where the fixed-point decoder is defined: the size is at least 1
    and within the buffer, the fraction width [e] is a valid shift count,
    and, from two bytes on, the largest shift count [(size-1)*(8-e)] is one
    too.  Applied to a size of 0 the decoder reads the byte before the
    buffer. *)
Theorem X4_strtof_defined (str : buffer) (size e : Z) :
  (exists v, _strtof str size e = Some v)
  <-> 1 <= size <= Z.of_nat (List.length str)
      /\ 0 <= e < 32
      /\ (size = 1 \/ (e <= 8 /\ (size - 1) * (8 - e) < 32)).
Proof.
  pose proof (strtof_defined str size e) as H.
  destruct (_strtof str size e) as [v |].
  - split; [intros _; exact H | intros _; exists v; reflexivity].
  - split; [intros [v Hv]; discriminate Hv | intros C; contradiction].
Qed.

(** * The two phases of a key read *)

Section ReadFacts.
Variable World : Type.
Variable call :
  World -> Z -> SMCKeyData_t -> SMCKeyData_t -> kern_return_t * SMCKeyData_t * World.

(** [SMCReadKey] returns exactly when the key encodes. *)
Lemma SMCReadKey_defined (k : buffer) (s : Session World) :
  match SMCReadKey call k s with
  | Some _ => exists packed, encodeKey k = Some packed
  | None => encodeKey k = None
  end.
Proof.
  unfold SMCReadKey, encodeKey.
  destruct (_strtoul k 4 16) as [packed |]; cbn [obind]; [| reflexivity].
  destruct (SMCCall call KERNEL_INDEX_SMC _ zero_SMCKeyData s) as [[r1 out1] s1].
  destruct (negb (r1 =? kIOReturnSuccess)); [eexists; reflexivity |].
  destruct (SMCCall call KERNEL_INDEX_SMC _ out1 s1) as [[r2 out2] s2].
  destruct (negb (r2 =? kIOReturnSuccess)); eexists; reflexivity.
Qed.

(** What every return of [SMCReadKey] satisfies. *)
Lemma SMCReadKey_inv (k : buffer) (s s' : Session World) (r : Z) (val : SMCVal_t) :
  SMCReadKey call k s = Some (r, val, s') ->
  reads_only s s'
  /\ 0 <= dataSize val < 2 ^ 32
  /\ List.length (bytes val) = 32%nat
  /\ (r <> kIOReturnSuccess -> bytes val = zero_bytes 32).
Proof.
  unfold SMCReadKey.
  destruct (_strtoul k 4 16) as [packed |]; [cbn [obind] | discriminate].
  unfold SMCCall.
  destruct (call (world s) KERNEL_INDEX_SMC _ zero_SMCKeyData) as [[r1 out1] w1].
  destruct (r1 =? kIOReturnSuccess) eqn:E1; cbn [negb].
  - cbn [world issued dataSize].
    destruct (call w1 KERNEL_INDEX_SMC _ out1) as [[r2 out2] w2].
    assert (Hro : reads_only s
                    {| world := w2;
                       issued := (issued s ++ [(KERNEL_INDEX_SMC,
                                   set_request zero_SMCKeyData packed SMC_CMD_READ_KEYINFO
                                     (ki_dataSize (kd_keyInfo zero_SMCKeyData)))])
                                 ++ [(KERNEL_INDEX_SMC,
                                      set_request
                                        (set_request zero_SMCKeyData packed
                                           SMC_CMD_READ_KEYINFO
                                           (ki_dataSize (kd_keyInfo zero_SMCKeyData)))
                                        packed SMC_CMD_READ_BYTES
                                        (u32 (ki_dataSize (kd_keyInfo out1))))] |}).
    { eexists. split; [cbn [issued]; rewrite <- app_assoc; reflexivity |].
      constructor; [split; [reflexivity | left; reflexivity] |].
      constructor; [split; [reflexivity | right; reflexivity] | constructor]. }
    assert (Hsz : 0 <= u32 (ki_dataSize (kd_keyInfo out1)) < 2 ^ 32)
      by (apply Z.mod_pos_bound; lia).
    destruct (r2 =? kIOReturnSuccess) eqn:E2; cbn [negb].
    + intros [= <- <- <-]. cbn [dataSize bytes].
      split; [exact Hro | split; [exact Hsz | split; [apply memcpy32_length |]]].
      intros H. exfalso. apply H. reflexivity.
    + intros [= <- <- <-]. cbn [dataSize bytes].
      split; [exact Hro | split; [exact Hsz | split; reflexivity]].
  - intros [= <- <- <-]. cbn.
    split; [| split; [lia | split; reflexivity]].
    eexists. split; [reflexivity |].
    constructor; [split; [reflexivity | left; reflexivity] | constructor].
Qed.

End ReadFacts.

(** X5.  The three outcomes of [SMCReadKey] on a key that encodes to
    [packed], for any behaviour of the controller.  If the key-info call
    fails, its result is returned with the zeroed value after one request.
    Otherwise the read-bytes request carries the declared size and is given
    the output structure of the first call to overwrite; the value holds
    the declared size and the decoded type in both remaining outcomes, and
    holds the 32 data bytes only if the second call succeeds (they stay zero
    if it fails).  The [key] field of the value is never filled in. *)
Theorem X5_SMCReadKey_outcomes
  (World : Type)
  (call : World -> Z -> SMCKeyData_t -> SMCKeyData_t -> kern_return_t * SMCKeyData_t * World)
  (k : buffer) (s : Session World) (packed : Z) :
  encodeKey k = Some packed ->
  let '(r1, out1, w1) :=
    call (world s) KERNEL_INDEX_SMC (keyinfo_request packed) zero_SMCKeyData in
  let size := u32 (ki_dataSize (kd_keyInfo out1)) in
  let '(r2, out2, w2) := call w1 KERNEL_INDEX_SMC (bytes_request packed size) out1 in
  SMCReadKey call k s
  = if negb (r1 =? kIOReturnSuccess) then
      Some (r1, zero_SMCVal,
            {| world := w1;
               issued := issued s ++ [(KERNEL_INDEX_SMC, keyinfo_request packed)] |})
    else
      Some (r2,
            {| key := zero_bytes 5;
               dataSize := size;
               dataType := decodeTypeTag (ki_dataType (kd_keyInfo out1));
               bytes := if r2 =? kIOReturnSuccess then memcpy32 (kd_bytes out2)
                        else zero_bytes 32 |},
            {| world := w2;
               issued := issued s ++ [(KERNEL_INDEX_SMC, keyinfo_request packed);
                                      (KERNEL_INDEX_SMC, bytes_request packed size)] |}).
Proof.
  intros Hk. unfold encodeKey in Hk.
  destruct (call (world s) KERNEL_INDEX_SMC (keyinfo_request packed) zero_SMCKeyData)
    as [[r1 out1] w1] eqn:C1.
  cbv zeta.
  destruct (call w1 KERNEL_INDEX_SMC
              (bytes_request packed (u32 (ki_dataSize (kd_keyInfo out1)))) out1)
    as [[r2 out2] w2] eqn:C2.
  unfold SMCReadKey. rewrite Hk. cbn [obind]. unfold SMCCall.
  change (set_request zero_SMCKeyData packed SMC_CMD_READ_KEYINFO
            (ki_dataSize (kd_keyInfo zero_SMCKeyData)))
    with (keyinfo_request packed).
  rewrite C1.
  destruct (r1 =? kIOReturnSuccess) eqn:E1; cbn [negb]; [| reflexivity].
  cbn [world issued dataSize key dataType bytes].
  change (set_request (keyinfo_request packed) packed SMC_CMD_READ_BYTES
            (u32 (ki_dataSize (kd_keyInfo out1))))
    with (bytes_request packed (u32 (ki_dataSize (kd_keyInfo out1)))).
  rewrite C2.
  destruct (r2 =? kIOReturnSuccess) eqn:E2; cbn [negb].
  - apply Z.eqb_eq in E2. subst r2. rewrite <- app_assoc. reflexivity.
  - rewrite <- app_assoc. reflexivity.
Qed.

Lemma X5_SMCReadKey_outcomes_witness :
  SMCReadKey (table_smc (sample_table [3])) (lit "TC0P") (opened tt)
  = Some (kIOReturnSuccess,
          {| key := zero_bytes 5; dataSize := 2;
             dataType := bytes_of_string "sp78" ++ [0];
             bytes := memcpy32 [0x2C; 0x00] |},
          {| world := tt;
             issued := [(KERNEL_INDEX_SMC, keyinfo_request 0x54433050);
                        (KERNEL_INDEX_SMC, bytes_request 0x54433050 2)] |}).
Proof.
  exact (X5_SMCReadKey_outcomes unit (table_smc (sample_table [3])) (lit "TC0P")
           (opened tt) 0x54433050 eq_refl).
Defined.

(** * Where the two readers are defined *)

Lemma buffer_eqb_eq (a b : buffer) : buffer_eqb a b = true -> a = b.
Proof.
  revert b. induction a as [| x a IH]; intros [| y b]; cbn; try discriminate.
  - reflexivity.
  - intros H. apply andb_prop in H as [Hx Hr]. apply Z.eqb_eq in Hx.
    rewrite (IH b Hr). congruence.
Qed.

Lemma wrap32_u32 (d : Z) :
  0 <= d < 2 ^ 32 ->
  (d < 2 ^ 31 /\ wrap32 d = d) \/ (2 ^ 31 <= d /\ wrap32 d = d - 2 ^ 32).
Proof.
  intros H. unfold wrap32.
  destruct (Z_lt_ge_dec d (2 ^ 31)) as [L | G]; [left | right]; split; try lia.
  - rewrite Z.mod_small; lia.
  - replace (d + 2 ^ 31) with (d - 2 ^ 31 + 1 * 2 ^ 32) by lia.
    rewrite Z.mod_add by lia. rewrite Z.mod_small; lia.
Qed.

Lemma reads_only_refl {World : Type} (s : Session World) : reads_only s s.
Proof. exists []. split; [symmetry; apply app_nil_r | constructor]. Qed.

Lemma reads_only_trans {World : Type} (s1 s2 s3 : Session World) :
  reads_only s1 s2 -> reads_only s2 s3 -> reads_only s1 s3.
Proof.
  intros (n1 & E1 & F1) (n2 & E2 & F2). exists (n1 ++ n2). split.
  - rewrite E2, E1. symmetry. apply app_assoc.
  - apply Forall_app. split; assumption.
Qed.

Section ReaderFacts.
Variable World : Type.
Variable call :
  World -> Z -> SMCKeyData_t -> SMCKeyData_t -> kern_return_t * SMCKeyData_t * World.

Lemma getSMCtemp_reads_only (k : buffer) (s s' : Session World) (t : spec_float) :
  getSMCtemp call k s = Some (t, s') -> reads_only s s'.
Proof.
  unfold getSMCtemp.
  destruct (SMCReadKey call k s) as [[[r val] s1] |] eqn:E; [cbn [obind] | discriminate].
  destruct (SMCReadKey_inv World call k s s1 r val E) as (Hro & _).
  destruct ((r =? kIOReturnSuccess) && (0 <? dataSize val)
            && strcmp_eq (dataType val) "sp78").
  - destruct (sp78_value (bytes val)); [cbn [obind] | discriminate].
    intros [= _ <-]. exact Hro.
  - intros [= _ <-]. exact Hro.
Qed.

Lemma getSMCrpm_reads_only (k : buffer) (s s' : Session World) (f : spec_float) :
  getSMCrpm call k s = Some (f, s') -> reads_only s s'.
Proof.
  unfold getSMCrpm.
  destruct (SMCReadKey call k s) as [[[r val] s1] |] eqn:E; [cbn [obind] | discriminate].
  destruct (SMCReadKey_inv World call k s s1 r val E) as (Hro & _).
  destruct ((r =? kIOReturnSuccess) && (0 <? dataSize val)).
  - destruct (strcmp_eq (dataType val) "flt "); [intros [= _ <-]; exact Hro |].
    destruct (strcmp_eq (dataType val) "fpe2"); [| intros [= _ <-]; exact Hro].
    destruct (_strtof (bytes val) (wrap32 (dataSize val)) 2); [cbn [obind] | discriminate].
    intros [= _ <-]. exact Hro.
  - intros [= _ <-]. exact Hro.
Qed.

End ReaderFacts.

(** X6.  [getSMCtemp] returns for every key that encodes, whatever the
    controller answers: the two bytes of the ["sp78"] branch are read from
    the 32-byte array of the value, also when the declared size is 1. *)
Theorem X6_getSMCtemp_defined
  (World : Type)
  (call : World -> Z -> SMCKeyData_t -> SMCKeyData_t -> kern_return_t * SMCKeyData_t * World)
  (k : buffer) (s : Session World) :
  getSMCtemp call k s = None <-> encodeKey k = None.
Proof.
  pose proof (SMCReadKey_defined World call k s) as D.
  unfold getSMCtemp.
  destruct (SMCReadKey call k s) as [[[r val] s1] |] eqn:E; cbn [obind].
  - destruct D as [packed Hp]. rewrite Hp.
    destruct (SMCReadKey_inv World call k s s1 r val E) as (_ & _ & Hlen & _).
    split; [| discriminate].
    destruct ((r =? kIOReturnSuccess) && (0 <? dataSize val)
              && strcmp_eq (dataType val) "sp78"); [| discriminate].
    unfold sp78_value.
    destruct (bytes val) as [| b0 [| b1 rest]]; try discriminate Hlen.
    cbn. discriminate.
  - split; [intros _; exact D | reflexivity].
Qed.

(** X7.  [getSMCrpm] has no defined result in exactly two cases: the key
    does not encode, or the read succeeds with type ["fpe2"] and a declared
    size above 6, for which [_strtof] shifts by 32 bits or more (a size from
    2^31 on is a negative [int] and makes it read before the buffer). *)
Theorem X7_getSMCrpm_defined
  (World : Type)
  (call : World -> Z -> SMCKeyData_t -> SMCKeyData_t -> kern_return_t * SMCKeyData_t * World)
  (k : buffer) (s : Session World) :
  getSMCrpm call k s = None
  <-> encodeKey k = None
      \/ exists val s',
           SMCReadKey call k s = Some (kIOReturnSuccess, val, s')
           /\ strcmp_eq (dataType val) "fpe2" = true
           /\ 6 < dataSize val.
Proof.
  pose proof (SMCReadKey_defined World call k s) as D.
  unfold getSMCrpm.
  destruct (SMCReadKey call k s) as [[[r val] s1] |] eqn:E; cbn [obind].
  2:{ split; [intros _; left; exact D | reflexivity]. }
  destruct D as [packed Hp]. rewrite Hp.
  destruct (SMCReadKey_inv World call k s s1 r val E) as (_ & Hsz & Hlen & _).
  destruct (r =? kIOReturnSuccess) eqn:Er; cbn [andb].
  2:{ split; [discriminate |]. intros [H | (v & s' & H & _)]; [discriminate |].
      injection H as -> _ _. discriminate Er. }
  apply Z.eqb_eq in Er. subst r.
  destruct (0 <? dataSize val) eqn:Ez.
  2:{ apply Z.ltb_ge in Ez. split; [discriminate |].
      intros [H | (v & s' & H & _ & Hd)]; [discriminate |].
      injection H as <- _. lia. }
  apply Z.ltb_lt in Ez.
  destruct (strcmp_eq (dataType val) "flt ") eqn:Eflt.
  { split; [discriminate |].
    intros [H | (v & s' & H & Hf & _)]; [discriminate |].
    injection H as <- _. unfold strcmp_eq in Eflt, Hf.
    apply buffer_eqb_eq in Eflt. apply buffer_eqb_eq in Hf.
    rewrite Eflt in Hf. discriminate Hf. }
  destruct (strcmp_eq (dataType val) "fpe2") eqn:Efpe.
  2:{ split; [discriminate |].
      intros [H | (v & s' & H & Hf & _)]; [discriminate |].
      injection H as <- _. congruence. }
  pose proof (strtof_defined (bytes val) (wrap32 (dataSize val)) 2) as X.
  rewrite Hlen in X. change (Z.of_nat 32) with 32 in X.
  destruct (_strtof (bytes val) (wrap32 (dataSize val)) 2) as [v |]; cbn [obind].
  - split; [discriminate |].
    intros [H | (v' & s' & H & _ & Hd)]; [discriminate |].
    injection H as <- _.
    destruct (wrap32_u32 (dataSize val) Hsz) as [[Hlt Hw] | [Hge Hw]];
      rewrite Hw in X; lia.
  - split; [| reflexivity]. intros _. right. exists val, s1.
    split; [reflexivity | split; [exact Efpe |]].
    destruct (wrap32_u32 (dataSize val) Hsz) as [[Hlt Hw] | [Hge Hw]];
      rewrite Hw in X; lia.
Qed.

(** * The fan report *)

Lemma fan_pct_not_below (cur mn mx : spec_float) :
  F32.ltb (fan_pct cur mn mx) F32.zero = false.
Proof.
  unfold fan_pct.
  match goal with
  | |- F32.ltb (if F32.ltb ?p F32.zero then _ else _) _ = false =>
      destruct (F32.ltb p F32.zero) eqn:E; [reflexivity | exact E]
  end.
Qed.

Lemma fan_switch_cases (nFans i : Z) (fanID : option string) :
  (i = 0 /\ fan_switch nFans i fanID
            = Some (if nFans =? 1 then "Main"%string else "Left"%string))
  \/ (i = 1 /\ fan_switch nFans i fanID = Some "Right"%string)
  \/ (i = 63 /\ fan_switch nFans i fanID = Some "Other"%string)
  \/ (i <> 0 /\ i <> 1 /\ i <> 63 /\ fan_switch nFans i fanID = fanID).
Proof.
  unfold fan_switch. change (Z.of_N (N_of_ascii "?")) with 63.
  destruct (i =? 0) eqn:E0; [apply Z.eqb_eq in E0; left; split; [exact E0 |] |].
  { destruct (nFans =? 1); reflexivity. }
  destruct (i =? 1) eqn:E1; [apply Z.eqb_eq in E1; right; left; split; [exact E1 | reflexivity] |].
  destruct (i =? 63) eqn:E63;
    [apply Z.eqb_eq in E63; right; right; left; split; [exact E63 | reflexivity] |].
  apply Z.eqb_neq in E0, E1, E63. right; right; right. repeat split; assumption.
Qed.

Lemma fan_switch_idem (nFans i : Z) (fanID : option string) :
  fan_switch nFans i (fan_switch nFans i fanID) = fan_switch nFans i fanID.
Proof.
  unfold fan_switch.
  destruct (i =? 0); [reflexivity |].
  destruct (i =? 1); [reflexivity |].
  destruct (i =? Z.of_N (N_of_ascii "?")); reflexivity.
Qed.

Section FanFacts.
Variable World : Type.
Variable call :
  World -> Z -> SMCKeyData_t -> SMCKeyData_t -> kern_return_t * SMCKeyData_t * World.

Lemma fan_iteration_reads_only (nFans i : Z) (s s' : Session World)
  (fanID fanID' : option string) (out out' : list FanReading) :
  fan_iteration call nFans i (s, fanID, out) = Some (s', fanID', out') ->
  reads_only s s'.
Proof.
  unfold fan_iteration.
  destruct (sprintf_key i "ID") as [k0 |]; [cbn [obind] | discriminate].
  destruct (SMCReadKey call k0 s) as [[[r0 v0] s0] |] eqn:E0;
    [cbn [obind] | discriminate].
  destruct (SMCReadKey_inv World call _ _ _ _ _ E0) as (R0 & _).
  destruct (negb (r0 =? kIOReturnSuccess)); [intros [= <- _ _]; exact R0 |].
  destruct (sprintf_key i "Ac") as [k1 |]; [cbn [obind] | discriminate].
  destruct (getSMCrpm call k1 s0) as [[f s1] |] eqn:Ef;
    [cbn [obind] | discriminate].
  pose proof (reads_only_trans _ _ _ R0 (getSMCrpm_reads_only World call _ _ _ _ Ef)) as R1.
  destruct (F64.ltb (F64.of_f32 f) (F64.of_f32 F32.zero)); [intros [= <- _ _]; exact R1 |].
  destruct (sprintf_key i "Mn") as [k2 |]; [cbn [obind] | discriminate].
  destruct (getSMCrpm call k2 s1) as [[mn s2] |] eqn:En;
    [cbn [obind] | discriminate].
  pose proof (reads_only_trans _ _ _ R1 (getSMCrpm_reads_only World call _ _ _ _ En)) as R2.
  destruct (F32.ltb mn F32.zero); [intros [= <- _ _]; exact R2 |].
  destruct (sprintf_key i "Mx") as [k3 |]; [cbn [obind] | discriminate].
  destruct (getSMCrpm call k3 s2) as [[mx s3] |] eqn:Ex;
    [cbn [obind] | discriminate].
  pose proof (reads_only_trans _ _ _ R2 (getSMCrpm_reads_only World call _ _ _ _ Ex)) as R3.
  destruct (F32.ltb mx F32.zero); [intros [= <- _ _]; exact R3 |].
  destruct (F64.ltb F64.zero (F64.of_f32 f)); intros [= <- _ _]; exact R3.
Qed.

(** The label buffer after a pass: what it was, or what the [switch] made
    of it. *)
Lemma fan_iteration_label (nFans i : Z) (s s' : Session World)
  (fanID fanID' : option string) (out out' : list FanReading) :
  fan_iteration call nFans i (s, fanID, out) = Some (s', fanID', out') ->
  fanID' = fanID \/ fanID' = fan_switch nFans i fanID.
Proof.
  unfold fan_iteration.
  destruct (sprintf_key i "ID") as [k0 |]; [cbn [obind] | discriminate].
  destruct (SMCReadKey call k0 s) as [[[r0 v0] s0] |];
    [cbn [obind] | discriminate].
  destruct (negb (r0 =? kIOReturnSuccess)); [intros [= _ <- _]; left; reflexivity |].
  destruct (sprintf_key i "Ac") as [k1 |]; [cbn [obind] | discriminate].
  destruct (getSMCrpm call k1 s0) as [[f s1] |];
    [cbn [obind] | discriminate].
  destruct (F64.ltb (F64.of_f32 f) (F64.of_f32 F32.zero));
    [intros [= _ <- _]; left; reflexivity |].
  destruct (sprintf_key i "Mn") as [k2 |]; [cbn [obind] | discriminate].
  destruct (getSMCrpm call k2 s1) as [[mn s2] |];
    [cbn [obind] | discriminate].
  destruct (F32.ltb mn F32.zero); [intros [= _ <- _]; left; reflexivity |].
  destruct (sprintf_key i "Mx") as [k3 |]; [cbn [obind] | discriminate].
  destruct (getSMCrpm call k3 s2) as [[mx s3] |];
    [cbn [obind] | discriminate].
  destruct (F32.ltb mx F32.zero); [intros [= _ <- _]; left; reflexivity |].
  destruct (F64.ltb F64.zero (F64.of_f32 f)); intros [= _ <- _]; right; reflexivity.
Qed.

Lemma fan_switch_label_ok (nFans i : Z) (fanID : option string) :
  i < 10 -> label_ok nFans fanID -> label_ok nFans (fan_switch nFans i fanID).
Proof.
  intros Hi H. unfold label_ok.
  destruct (fan_switch_cases nFans i fanID)
    as [[_ ->] | [[_ ->] | [[E _] | (_ & _ & _ & ->)]]]; auto; [| lia].
  destruct (nFans =? 1) eqn:E; auto.
  apply Z.eqb_eq in E. auto.
Qed.

(** A pass with a defined result is a pass for an index up to 9. *)
Lemma fan_iteration_index (nFans i : Z) (s s' : Session World)
  (fanID fanID' : option string) (out out' : list FanReading) :
  0 <= i < 256 ->
  fan_iteration call nFans i (s, fanID, out) = Some (s', fanID', out') ->
  i < 10.
Proof.
  intros Hi H. unfold fan_iteration in H.
  destruct (sprintf_key i "ID") as [key |] eqn:K; [| discriminate H].
  exact (proj1 (sprintf_key_fits i "ID" key Hi ltac:(left; reflexivity) K)).
Qed.

Lemma fans_loop_inv (nFans : Z) (n : nat) :
  forall (i : Z) (s s' : Session World) (fanID fanID' : option string)
         (out out' : list FanReading),
  fans_loop call nFans n i (s, fanID, out) = Some (s', fanID', out') ->
  0 <= i ->
  i + Z.of_nat n <= 256 ->
  label_ok nFans fanID ->
  reads_only s s'
  /\ label_ok nFans fanID'
  /\ ((0 < n)%nat -> i + Z.of_nat n <= 10)
  /\ exists new,
       out' = out ++ new
       /\ Forall (fan_line_ok i (i + Z.of_nat n)) new
       /\ Forall (fun l => label_ok nFans (fan_sensor l)
                           /\ (fan_sensor l = None -> fanID = None /\ 2 <= fan_index l)
                           /\ fan_switch nFans (fan_index l) (fan_sensor l)
                              = fan_sensor l) new
       /\ StronglySorted (fun a b => fan_index a < fan_index b) new.
Proof.
  induction n as [| n IH]; intros i s s' fanID fanID' out out' H Hi Hbound L.
  - cbn in H. injection H as <- <- <-.
    split; [apply reads_only_refl | split; [exact L | split; [lia |]]].
    exists []. rewrite app_nil_r. repeat split; constructor.
  - cbn [fans_loop] in H.
    destruct (fan_iteration call nFans i (s, fanID, out)) as [[[s1 fanID1] out1] |] eqn:E;
      [cbn [obind] in H | discriminate].
    pose proof (fan_iteration_reads_only _ _ _ _ _ _ _ _ E) as R1.
    pose proof (fan_iteration_label _ _ _ _ _ _ _ _ E) as L1.
    assert (H10 : i < 10).
    { apply (fan_iteration_index nFans i s s1 fanID fanID1 out out1); [lia | exact E]. }
    assert (L1' : label_ok nFans fanID1).
    { destruct L1 as [-> | ->]; [exact L | apply fan_switch_label_ok; assumption]. }
    assert (N1 : fanID1 = None -> fanID = None).
    { intros Hn. destruct L1 as [L1 | L1]; [congruence |]. rewrite L1 in Hn.
      destruct (fan_switch_cases nFans i fanID)
        as [[_ Hs] | [[_ Hs] | [[_ Hs] | (_ & _ & _ & Hs)]]]; rewrite Hs in Hn;
        try discriminate Hn.
      exact Hn. }
    destruct (IH (i + 1) s1 s' fanID1 fanID' out1 out' H ltac:(lia) ltac:(lia) L1')
      as (R2 & L2 & B2 & new2 & -> & F2 & S2 & Srt).
    split; [exact (reads_only_trans _ _ _ R1 R2) | split; [exact L2 |]].
    split; [intros _; destruct n as [| n']; [lia | specialize (B2 ltac:(lia)); lia] |].
    assert (F2' : Forall (fan_line_ok i (i + Z.of_nat (S n))) new2).
    { eapply Forall_impl; [| exact F2]. unfold fan_line_ok. intros l (? & ? & ?).
      repeat split; try assumption; lia. }
    assert (S2' : forall l, In l new2 ->
                   label_ok nFans (fan_sensor l)
                   /\ (fan_sensor l = None -> fanID = None /\ 2 <= fan_index l)
                   /\ fan_switch nFans (fan_index l) (fan_sensor l) = fan_sensor l).
    { intros l Hin. rewrite Forall_forall in S2, F2.
      destruct (S2 l Hin) as (Ha & Hb & Hc). split; [exact Ha | split; [| exact Hc]].
      intros Hn. destruct (Hb Hn) as [Hd He]. split; [| exact He].
      apply N1. exact Hd. }
    destruct (fan_iteration_prints World call _ _ _ _ _ _ _ _ E)
      as [-> | (f & mn & mx & _ & _ & _ & _ & _ & _ & Hpos & ->)].
    + exists new2. split; [reflexivity |].
      split; [exact F2' | split; [apply Forall_forall; exact S2' | exact Srt]].
    + eexists (_ :: new2). split; [rewrite <- app_assoc; reflexivity |].
      split; [| split].
      * constructor; [| exact F2'].
        unfold fan_line_ok. cbn [fan_index fan_rpm fan_percent].
        split; [lia | split; [exact Hpos | apply fan_pct_not_below]].
      * constructor; [| apply Forall_forall; exact S2'].
        cbn [fan_sensor fan_index].
        split; [apply fan_switch_label_ok; assumption | split; [| apply fan_switch_idem]].
        intros Hn.
        destruct (fan_switch_cases nFans i fanID)
          as [[_ Hs] | [[_ Hs] | [[_ Hs] | (? & ? & ? & Hs)]]]; rewrite Hs in Hn;
          try discriminate Hn.
        split; [exact Hn | lia].
      * constructor; [exact Srt |].
        eapply Forall_impl; [| exact F2]. unfold fan_line_ok.
        cbn [fan_index]. intros l (? & _). lia.
Qed.

End FanFacts.

Lemma sorted_length (l : list FanReading) :
  forall lo hi,
  Forall (fun r => lo <= fan_index r < hi) l ->
  StronglySorted (fun a b => fan_index a < fan_index b) l ->
  Z.of_nat (List.length l) <= Z.max 0 (hi - lo).
Proof.
  induction l as [| a l IH]; intros lo hi F S; [cbn; lia |].
  inversion_clear F as [| ? ? Ha Fl]. inversion_clear S as [| ? ? Sl Fa].
  assert (F' : Forall (fun r => fan_index a + 1 <= fan_index r < hi) l).
  { rewrite Forall_forall in *. intros r Hr.
    pose proof (Fl r Hr). pose proof (Fa r Hr). lia. }
  pose proof (IH (fan_index a + 1) hi F' Sl).
  cbn [List.length]. lia.
Qed.

Section FanReport.
Variable World : Type.
Variable call :
  World -> Z -> SMCKeyData_t -> SMCKeyData_t -> kern_return_t * SMCKeyData_t * World.

(** The fan count [influxSMCfans] loops over, when it returns: at most 10,
    with the lines printed satisfying the loop invariant from index 0. *)
Lemma influxSMCfans_inv (s s' : Session World) (out : list FanReading) :
  influxSMCfans call s = Some (s', out) ->
  reads_only s s'
  /\ exists nFans,
       0 <= nFans <= 10
       /\ Forall (fan_line_ok 0 nFans) out
       /\ Forall (fun l => label_ok nFans (fan_sensor l)
                           /\ (fan_sensor l = None -> 2 <= fan_index l)
                           /\ fan_switch nFans (fan_index l) (fan_sensor l)
                              = fan_sensor l) out
       /\ StronglySorted (fun a b => fan_index a < fan_index b) out.
Proof.
  unfold influxSMCfans.
  destruct (SMCReadKey call (bytes_of_string "FNum" ++ [0]) s) as [[[r val] s0] |] eqn:E;
    [cbn [obind] | discriminate].
  destruct (SMCReadKey_inv World call _ _ _ _ _ E) as (R0 & Hsz & Hlen & _).
  destruct (r =? kIOReturnSuccess).
  2:{ intros [= <- <-]. split; [exact R0 |]. exists 0.
      split; [lia |]. repeat split; constructor. }
  pose proof (strtoul_defined (bytes val) (wrap32 (dataSize val)) 10) as D.
  destruct (_strtoul (bytes val) (wrap32 (dataSize val)) 10) as [n |] eqn:En;
    [cbn [obind] | discriminate].
  destruct D as [Hn Hc].
  assert (Hn255 : 0 <= n <= 255).
  { destruct Hc as [[_ ->] | [Hs Hl]]; [lia |].
    rewrite strtoul_base10_last_byte in En by lia.
    injection En as <-.
    pose proof (Z.mod_pos_bound (nth (Z.to_nat (wrap32 (dataSize val) - 1)) (bytes val) 0)
                  256 ltac:(lia)).
    lia. }
  rewrite (wrap32_small n) by lia.
  destruct (fans_loop call n (Z.to_nat n) 0 (s0, None, [])) as [[[s1 fanID1] out1] |] eqn:El;
    [cbn [obind] | discriminate].
  intros [= <- <-].
  destruct (fans_loop_inv World call n (Z.to_nat n) 0 s0 s1 None fanID1 [] out1 El
              ltac:(lia) ltac:(lia) ltac:(left; reflexivity))
    as (R1 & _ & B & new & -> & F & S & Srt).
  split; [exact (reads_only_trans _ _ _ R0 R1) |].
  exists n. split; [destruct (Z.eq_dec n 0); [lia | specialize (B ltac:(lia)); lia] |].
  cbn [app]. rewrite Z2Nat.id in F by lia. cbn [Z.add] in F.
  split; [exact F | split; [| exact Srt]].
  eapply Forall_impl; [| exact S]. cbv beta.
  intros l (Ha & Hb & Hc0). split; [exact Ha | split; [| exact Hc0]].
  intros Hn0. apply Hb. exact Hn0.
Qed.

End FanReport.

(** X8.  The lines of a fan report, for any behaviour of the controller:
    at most 10 of them (a report has a defined result only for a fan count
    up to 10, the key text of fan 10 overrunning [key]), by strictly
    increasing fan index from 0, each with a speed above zero and a percent
    that does not compare below zero. *)
Theorem X8_influxSMCfans_lines
  (World : Type)
  (call : World -> Z -> SMCKeyData_t -> SMCKeyData_t -> kern_return_t * SMCKeyData_t * World)
  (s s' : Session World) (out : list FanReading) :
  influxSMCfans call s = Some (s', out) ->
  (List.length out <= 10)%nat
  /\ StronglySorted (fun a b => fan_index a < fan_index b) out
  /\ Forall (fun l => 0 <= fan_index l < 10
                      /\ F64.ltb F64.zero (fan_rpm l) = true
                      /\ F32.ltb (fan_percent l) F32.zero = false) out.
Proof.
  intros H.
  destruct (influxSMCfans_inv World call s s' out H) as (_ & nFans & Hn & F & _ & Srt).
  split; [| split; [exact Srt |]].
  - assert (F' : Forall (fun r => 0 <= fan_index r < nFans) out).
    { eapply Forall_impl; [| exact F]. intros l (Hl & _). exact Hl. }
    pose proof (sorted_length out 0 nFans F' Srt). lia.
  - eapply Forall_impl; [| exact F]. unfold fan_line_ok. intros l (Hl & Hr & Hp).
    split; [lia | split; assumption].
Qed.

(** X9.  The labels of a fan report.  Fan 0 is labelled "Main" or "Left"
    and fan 1 "Right"; a fan from index 2 on (up to 9) carries the label an
    earlier fan left, "Left" or "Right", or no label at all (the array
    [fanID] is printed before any statement has written it); "Main" appears
    only on a report of one line, and a line without a label only for a fan
    index from 2 on. *)
Theorem X9_influxSMCfans_labels
  (World : Type)
  (call : World -> Z -> SMCKeyData_t -> SMCKeyData_t -> kern_return_t * SMCKeyData_t * World)
  (s s' : Session World) (out : list FanReading) :
  influxSMCfans call s = Some (s', out) ->
  Forall (fun l =>
            (fan_index l = 0 ->
             fan_sensor l = Some "Main"%string \/ fan_sensor l = Some "Left"%string)
            /\ (fan_index l = 1 -> fan_sensor l = Some "Right"%string)
            /\ (2 <= fan_index l ->
                fan_index l < 10
                /\ (fan_sensor l = None \/ fan_sensor l = Some "Left"%string
                    \/ fan_sensor l = Some "Right"%string))
            /\ (fan_sensor l = None -> 2 <= fan_index l)
            /\ (fan_sensor l = Some "Main"%string -> out = [l])) out.
Proof.
  intros H.
  destruct (influxSMCfans_inv World call s s' out H) as (_ & nFans & Hn & F & L & Srt).
  assert (F' : Forall (fun r => 0 <= fan_index r < nFans) out).
  { eapply Forall_impl; [| exact F]. intros l (Hl & _). exact Hl. }
  pose proof (sorted_length out 0 nFans F' Srt) as Hlen.
  rewrite Forall_forall in *. intros l Hin.
  destruct (L l Hin) as (Lok & Lnone & Lfix).
  pose proof (F' l Hin) as Hidx.
  assert (Hmain : fan_sensor l = Some "Main"%string -> out = [l]).
  { intros Hm.
    destruct Lok as [Lk | [[_ Lk] | [Lk | Lk]]]; try congruence.
    subst nFans.
    destruct out as [| a [| b out']]; [contradiction | |].
    - destruct Hin as [-> | []]. reflexivity.
    - cbn [List.length] in Hlen. lia. }
  destruct (fan_switch_cases nFans (fan_index l) (fan_sensor l))
    as [[Hi Hs] | [[Hi Hs] | [[Hi Hs] | (H0 & H1 & H63 & Hs)]]];
    rewrite Lfix in Hs.
  - split; [intros _; rewrite Hs; destruct (nFans =? 1); auto |].
    split; [lia | split; [lia | split; [exact Lnone | exact Hmain]]].
  - split; [lia |]. split; [intros _; exact Hs |].
    split; [lia | split; [exact Lnone | exact Hmain]].
  - lia.
  - split; [lia |]. split; [lia |].
    split; [| split; [exact Lnone | exact Hmain]].
    intros _. split; [lia |].
    destruct Lok as [Lk | [[Lk Hone] | [Lk | Lk]]]; auto.
    lia.
Qed.

Lemma X8_influxSMCfans_lines_witness :
  exists s' out,
    influxSMCfans (table_smc (sample_table [3])) (opened tt) = Some (s', out)
    /\ (List.length out <= 10)%nat.
Proof.
  let v := eval vm_compute in (influxSMCfans (table_smc (sample_table [3])) (opened tt)) in
  assert (E : influxSMCfans (table_smc (sample_table [3])) (opened tt) = v)
    by (vm_compute; reflexivity).
  match type of E with
  | _ = Some (?s', ?out) =>
      exists s', out; split;
      [ exact E
      | exact (proj1 (X8_influxSMCfans_lines unit (table_smc (sample_table [3]))
                        (opened tt) s' out E)) ]
  end.
Defined.

(** A report whose only line carries no label: fans 0 and 1 do not answer,
    fan 2 does. *)
Lemma influxSMCfans_unlabelled_line :
  option_map (fun r => map (fun l => (fan_index l, fan_sensor l)) (snd r))
    (influxSMCfans
       (table_smc ({| s_key := "FNum"; s_type := "ui8 "; s_size := 1; s_bytes := [3] |}
                   :: fan_entries "2" [0x2E; 0xE0] [0x0F; 0xA0] [0x4E; 0x20]))
       (opened tt))
  = Some [(2, None)].
Proof. vm_compute. reflexivity. Qed.

Lemma X9_influxSMCfans_labels_witness :
  exists s' out,
    influxSMCfans (table_smc (sample_table [1])) (opened tt) = Some (s', out)
    /\ Forall (fun l => fan_sensor l = Some "Main"%string -> out = [l]) out.
Proof.
  let v := eval vm_compute in (influxSMCfans (table_smc (sample_table [1])) (opened tt)) in
  assert (E : influxSMCfans (table_smc (sample_table [1])) (opened tt) = v)
    by (vm_compute; reflexivity).
  match type of E with
  | _ = Some (?s', ?out) =>
      exists s', out; split;
      [ exact E
      | refine (Forall_impl _ _ (X9_influxSMCfans_labels unit
                                   (table_smc (sample_table [1])) (opened tt) s' out E));
        intros l (_ & _ & _ & _ & Hm); exact Hm ]
  end.
Defined.

(** * The temperature report *)

(** The quotient of two finite numbers with full mantissas is not zero, when
    the difference of the exponents stays above the smallest exponent. *)
Lemma SFdiv_full_nonzero (prec emax : Z) (sx sy : bool) (mx my : positive) (ex ey : Z) :
  0 < prec ->
  Zpos (digits2_pos mx) = prec -> Zpos (digits2_pos my) = prec ->
  emin prec emax <= ex - ey - prec ->
  sign_nonzero (xorb sx sy)
    (SFdiv prec emax (S754_finite sx mx ex) (S754_finite sy my ey)).
Proof.
  intros Hp Dx Dy He. cbn [SFdiv]. unfold SFdiv_core_binary.
  cbn [Zdigits2]. rewrite Dx, Dy.
  assert (Hf : fexp prec emax (prec + ex - (prec + ey)) = ex - ey - prec).
  { unfold fexp. lia. }
  rewrite Hf.
  replace (Z.min (ex - ey - prec) (ex - ey)) with (ex - ey - prec) by lia.
  replace (ex - ey - (ex - ey - prec)) with prec by lia.
  destruct prec as [| p | p] eqn:Ep; try lia.
  rewrite Z.shiftl_mul_pow2 by lia.
  pose proof (digits2_pos_upper my) as Uy. rewrite Dy in Uy.
  pose proof (Z.div_mod (Zpos mx * 2 ^ Zpos p) (Zpos my) ltac:(lia)) as Hdm.
  pose proof (Z.mod_pos_bound (Zpos mx * 2 ^ Zpos p) (Zpos my) ltac:(lia)) as Hmb.
  unfold Z.div, Z.modulo in Hdm, Hmb.
  destruct (Z.div_eucl (Zpos mx * 2 ^ Zpos p) (Zpos my)) as [q r].
  assert (Hq : 0 < q) by nia.
  rewrite <- Ep in *.
  destruct (binary_round_aux_positive prec emax Hp (xorb sx sy) q (ex - ey - prec)
              (new_location (Zpos my) r) Hq) as (m & e & _ & ->).
  { pose proof (Zdigits2_pos q Hq). lia. }
  destruct (e <=? emax - prec); reflexivity.
Qed.

Lemma F64_of_Z_pos (s : bool) (p : positive) :
  Zpos p < 2 ^ 53 ->
  exists m e,
    binary_round F64.prec F64.emax s p 0 = S754_finite s m e
    /\ Zpos (digits2_pos m) = 53 /\ -52 <= e <= 0.
Proof.
  intros Hb.
  assert (D : Zpos (digits2_pos p) <= 53).
  { destruct (Z.le_gt_cases (Zpos (digits2_pos p)) 53) as [| G]; [assumption |].
    pose proof (digits2_pos_lower p).
    assert (2 ^ 53 <= 2 ^ (Zpos (digits2_pos p) - 1)) by (apply Z.pow_le_mono_r; lia).
    lia. }
  destruct (binary_round_exact F64.prec F64.emax s p 0) as (m & E & Dm & _);
    unfold F64.prec, F64.emax, emin; try lia.
  exists m, (0 + Zpos (digits2_pos p) - 53). split; [exact E | split; [exact Dm | lia]].
Qed.

(** The test [temperature > 0.0] on an ["sp78"] value: it holds exactly when
    the 16-bit integer is above zero. *)
Lemma F64_div_256_positive (v : Z) :
  - 2 ^ 53 < v < 2 ^ 53 ->
  F64.ltb F64.zero (F64.div (F64.of_Z v) (F64.of_Z 256)) = (0 <? v).
Proof.
  intros Hv.
  change (F64.of_Z 256) with (S754_finite false 4503599627370496 (-44)).
  destruct v as [| p | p].
  - reflexivity.
  - unfold F64.of_Z, fmt_of_Z. cbn [binary_normalize].
    destruct (F64_of_Z_pos false p ltac:(lia)) as (m & e & -> & Dm & He).
    pose proof (SFdiv_full_nonzero F64.prec F64.emax false false m 4503599627370496
                  e (-44) ltac:(reflexivity) Dm ltac:(reflexivity)) as H.
    unfold F64.div.
    destruct (SFdiv F64.prec F64.emax (S754_finite false m e)
                (S754_finite false 4503599627370496 (-44))) as [s | s | | s m' e'];
      cbn [sign_nonzero xorb] in H.
    + exfalso. apply H. unfold F64.prec, F64.emax, emin. lia.
    + rewrite H by (unfold F64.prec, F64.emax, emin; lia). reflexivity.
    + exfalso. apply H. unfold F64.prec, F64.emax, emin. lia.
    + rewrite H by (unfold F64.prec, F64.emax, emin; lia). reflexivity.
  - unfold F64.of_Z, fmt_of_Z. cbn [binary_normalize].
    assert (Hp : Zpos p < 2 ^ 53) by lia.
    destruct (F64_of_Z_pos true p Hp) as (m & e & -> & Dm & He).
    pose proof (SFdiv_sign F64.prec F64.emax true m e
                  (S754_finite false 4503599627370496 (-44)) false eq_refl) as H.
    unfold F64.div.
    destruct (SFdiv F64.prec F64.emax (S754_finite true m e)
                (S754_finite false 4503599627370496 (-44))) as [s | s | | s m' e'];
      cbn [sign_any xorb] in H; try contradiction; subst s; reflexivity.
Qed.

Section TemperatureFacts.
Variable World : Type.
Variable call :
  World -> Z -> SMCKeyData_t -> SMCKeyData_t -> kern_return_t * SMCKeyData_t * World.
Variable hostTag : string.
Variable ens : Z.

Lemma influxSMCtemp_inv (k sensor : string) (s s' : Session World)
  (out out' : list Line) :
  influxSMCtemp call hostTag ens k sensor (s, out) = Some (s', out') ->
  reads_only s s'
  /\ (out' = out
      \/ exists line, out' = out ++ [line]
                      /\ temperature_line_of hostTag ens (k, sensor) line).
Proof.
  unfold influxSMCtemp.
  destruct (getSMCtemp call (lit k) s) as [[t s1] |] eqn:E; [cbn [obind] | discriminate].
  pose proof (getSMCtemp_reads_only World call _ _ _ _ E) as R.
  destruct (F64.ltb F64.zero t) eqn:Et; intros [= <- <-]; (split; [exact R |]).
  - right. eexists. split; [reflexivity |]. exists t. split; [reflexivity | exact Et].
  - left. reflexivity.
Qed.

Lemma influxSMCtemp_defined (k sensor : string) (st : Session World * list Line) :
  encodeKey (lit k) <> None ->
  influxSMCtemp call hostTag ens k sensor st <> None.
Proof.
  intros Hk. destruct st as [s out]. unfold influxSMCtemp.
  destruct (getSMCtemp call (lit k) s) as [[t s1] |] eqn:E; cbn [obind].
  - destruct (F64.ltb F64.zero t); discriminate.
  - exfalso. apply Hk.
    unfold getSMCtemp in E.
    pose proof (SMCReadKey_defined World call (lit k) s) as D.
    destruct (SMCReadKey call (lit k) s) as [[[r val] s1] |] eqn:Er; [| exact D].
    cbn [obind] in E.
    destruct (SMCReadKey_inv World call _ _ _ _ _ Er) as (_ & _ & Hlen & _).
    destruct ((r =? kIOReturnSuccess) && (0 <? dataSize val)
              && strcmp_eq (dataType val) "sp78"); [| discriminate E].
    rewrite sp78_value_eq in E by lia. discriminate E.
Qed.

Lemma temps_inv (l : list (string * string)) :
  forall (s s' : Session World) (out out' : list Line),
  temps call hostTag ens l (s, out) = Some (s', out') ->
  reads_only s s'
  /\ exists kept new,
       out' = out ++ new
       /\ Subseq kept l
       /\ Forall2 (temperature_line_of hostTag ens) kept new.
Proof.
  induction l as [| [k sensor] l IH]; intros s s' out out' H.
  - cbn in H. injection H as <- <-.
    split; [apply reads_only_refl |]. exists [], []. rewrite app_nil_r.
    repeat split; constructor.
  - cbn [temps] in H.
    destruct (influxSMCtemp call hostTag ens k sensor (s, out)) as [[s1 out1] |] eqn:E;
      [cbn [obind] in H | discriminate].
    destruct (influxSMCtemp_inv _ _ _ _ _ _ E) as (R1 & Hout).
    destruct (IH _ _ _ _ H) as (R2 & kept & new & -> & Sk & F).
    split; [exact (reads_only_trans _ _ _ R1 R2) |].
    destruct Hout as [-> | (line & -> & Hl)].
    + exists kept, new. split; [reflexivity | split; [constructor; exact Sk | exact F]].
    + exists ((k, sensor) :: kept), (line :: new).
      split; [rewrite <- app_assoc; reflexivity |].
      split; [constructor; exact Sk | constructor; [exact Hl | exact F]].
Qed.

Lemma temps_defined (l : list (string * string)) :
  Forall (fun ks => encodeKey (lit (fst ks)) <> None) l ->
  forall st, temps call hostTag ens l st <> None.
Proof.
  induction l as [| [k sensor] l IH]; intros F st; [discriminate |].
  inversion_clear F as [| ? ? Hk Fl]. cbn [temps fst] in *.
  pose proof (influxSMCtemp_defined k sensor st Hk) as D.
  destruct (influxSMCtemp call hostTag ens k sensor st) as [st1 |];
    [cbn [obind] | contradiction].
  apply IH. exact Fl.
Qed.

Lemma fans_inv (s s' : Session World) (out out' : list Line) :
  fans call hostTag ens (s, out) = Some (s', out') ->
  reads_only s s'
  /\ exists lines,
       out' = out ++ map (fun l => FanLine hostTag l ens) lines
       /\ influxSMCfans call s = Some (s', lines).
Proof.
  unfold fans.
  destruct (influxSMCfans call s) as [[s1 lines] |] eqn:E; [cbn [obind] | discriminate].
  intros [= <- <-].
  destruct (influxSMCfans_inv World call _ _ _ E) as (R & _).
  split; [exact R |]. exists lines. split; reflexivity.
Qed.

End TemperatureFacts.

(** X10.  When [influxSMCtemp] prints: exactly when the read of the key
    succeeds with a non-empty ["sp78"] value whose 16-bit integer (first
    byte signed, second unsigned) is above zero; the line then carries that
    integer divided by 256.  A probe at or below zero degrees is never
    reported. *)
Theorem X10_influxSMCtemp_prints
  (World : Type)
  (call : World -> Z -> SMCKeyData_t -> SMCKeyData_t -> kern_return_t * SMCKeyData_t * World)
  (hostTag : string) (ens : Z) (k sensor : string) (s : Session World)
  (out : list Line) :
  influxSMCtemp call hostTag ens k sensor (s, out)
  = match SMCReadKey call (lit k) s with
    | None => None
    | Some (r, val, s') =>
        let v := schar (nth 0 (bytes val) 0) * 256 + nth 1 (bytes val) 0 mod 256 in
        if (r =? kIOReturnSuccess) && (0 <? dataSize val)
           && strcmp_eq (dataType val) "sp78" && (0 <? v)
        then Some (s', out ++ [TemperatureLine hostTag k sensor
                                 (F64.div (F64.of_Z v) (F64.of_Z 256)) ens])
        else Some (s', out)
    end.
Proof.
  unfold influxSMCtemp, getSMCtemp.
  destruct (SMCReadKey call (lit k) s) as [[[r val] s1] |] eqn:E; [cbn [obind] | reflexivity].
  destruct (SMCReadKey_inv World call _ _ _ _ _ E) as (_ & _ & Hlen & _).
  cbv zeta.
  destruct ((r =? kIOReturnSuccess) && (0 <? dataSize val)
            && strcmp_eq (dataType val) "sp78"); cbn [andb]; [| reflexivity].
  rewrite sp78_value_eq by lia. cbn [obind].
  rewrite F64_div_256_positive; [reflexivity |].
  pose proof (schar_range (nth 0 (bytes val) 0)).
  pose proof (Z.mod_pos_bound (nth 1 (bytes val) 0) 256 ltac:(lia)). lia.
Qed.

(** * Options *)

Lemma option_loop_spec (opts : list ascii) :
  forall f,
  option_loop opts f
  = if asks_help opts then None else Some (merge_flags f (flags_of opts)).
Proof.
  induction opts as [| c opts IH]; intros f.
  - cbn. destruct f as [[] [] [] [] [] [] []]; reflexivity.
  - cbn [option_loop]. unfold option_case.
    destruct (Ascii.eqb c "a") eqn:Ea; [option_case_tac IH Ea |].
    destruct (Ascii.eqb c "A") eqn:EA; [option_case_tac IH EA |].
    destruct (Ascii.eqb c "c") eqn:Ec; [option_case_tac IH Ec |].
    destruct (Ascii.eqb c "f") eqn:Ef; [option_case_tac IH Ef |].
    destruct (Ascii.eqb c "g") eqn:Eg; [option_case_tac IH Eg |].
    destruct (Ascii.eqb c "w") eqn:Ew; [option_case_tac IH Ew |].
    destruct (Ascii.eqb c "s") eqn:Es; [option_case_tac IH Es |].
    destruct (Ascii.eqb c "n") eqn:En; [option_case_tac IH En |].
    unfold asks_help, flags_of, has_opt. cbn [existsb].
    rewrite Ea, EA, Ec, Ef, Eg, Ew, Es, En. cbn [orb].
    destruct (Ascii.eqb c "h") eqn:Eh; cbn [orb]; [reflexivity |].
    destruct (Ascii.eqb c "?") eqn:Eq; cbn [orb].
    + rewrite orb_true_r. reflexivity.
    + rewrite IH. reflexivity.
Qed.

Lemma option_loop_no_flags (opts : list ascii) :
  option_loop opts no_flags = if asks_help opts then None else Some (flags_of opts).
Proof.
  rewrite option_loop_spec. destruct (asks_help opts); reflexivity.
Qed.

(** * The whole run *)

Section MainFacts.
Variable World : Type.
Variable call :
  World -> Z -> SMCKeyData_t -> SMCKeyData_t -> kern_return_t * SMCKeyData_t * World.

(** The reads of [main] as one pass over the selected temperature keys
    followed, if asked for, by the fan report. *)
Lemma report_eq (hostTag : string) (ens : Z) (f : Flags) (s : Session World) :
  report call hostTag ens f s
  = (st <- temps call hostTag ens (selected_keys f) (s, []) ;;
     if f_all f || f_fan f then fans call hostTag ens st else Some st).
Proof.
  unfold report, selected_keys.
  destruct f as [cpu gpu wfi ssd fan all tag]. cbn [f_cpu f_gpu f_wfi f_ssd f_fan f_all].
  destruct all; [reflexivity |]. cbn [orb].
  destruct cpu, gpu, ssd, wfi; cbn [app temps obind];
    repeat match goal with
           | |- context [influxSMCtemp call hostTag ens ?k ?sn ?st] =>
               destruct (influxSMCtemp call hostTag ens k sn st) as [[? ?] |];
               cbn [obind]
           end;
    reflexivity.
Qed.

Lemma selected_keys_encode (f : Flags) :
  Forall (fun ks => encodeKey (lit (fst ks)) <> None) (selected_keys f).
Proof.
  unfold selected_keys.
  destruct (f_all f).
  - unfold all_temperature_keys.
    repeat (constructor; [cbn; discriminate |]). constructor.
  - destruct (f_cpu f), (f_gpu f), (f_ssd f), (f_wfi f); cbn [app];
      repeat (constructor; [cbn; discriminate |]); constructor.
Qed.

Lemma report_inv (hostTag : string) (ens : Z) (f : Flags) (s s' : Session World)
  (out : list Line) :
  report call hostTag ens f s = Some (s', out) ->
  reads_only s s'
  /\ exists kept tl fl,
       out = tl ++ map (fun l => FanLine hostTag l ens) fl
       /\ Subseq kept (selected_keys f)
       /\ Forall2 (temperature_line_of hostTag ens) kept tl
       /\ (f_all f || f_fan f = false -> fl = [])
       /\ (f_all f || f_fan f = true ->
           exists s1, influxSMCfans call s1 = Some (s', fl)).
Proof.
  rewrite report_eq.
  destruct (temps call hostTag ens (selected_keys f) (s, [])) as [[s1 out1] |] eqn:Et;
    [cbn [obind] | discriminate].
  destruct (temps_inv World call hostTag ens _ _ _ _ _ Et) as (R1 & kept & tl & -> & Sk & F).
  cbn [app].
  destruct (f_all f || f_fan f).
  - intros H. destruct (fans_inv World call hostTag ens _ _ _ _ H) as (R2 & fl & -> & Hf).
    split; [exact (reads_only_trans _ _ _ R1 R2) |].
    exists kept, tl, fl. split; [reflexivity |].
    split; [exact Sk | split; [exact F | split; [discriminate |]]].
    intros _. exists s1. exact Hf.
  - intros [= <- <-]. split; [exact R1 |].
    exists kept, tl, []. cbn [map]. rewrite app_nil_r.
    split; [reflexivity | split; [exact Sk | split; [exact F | split; [reflexivity |]]]].
    discriminate.
Qed.

End MainFacts.

Lemma has_opt_Permutation (c : ascii) (opts opts' : list ascii) :
  Permutation opts opts' -> has_opt c opts = has_opt c opts'.
Proof.
  intros P. unfold has_opt.
  destruct (existsb (fun x => Ascii.eqb x c) opts) eqn:E.
  - apply existsb_exists in E as (x & Hin & Hx). symmetry. apply existsb_exists.
    exists x. split; [exact (Permutation_in x P Hin) | exact Hx].
  - destruct (existsb (fun x => Ascii.eqb x c) opts') eqn:E'; [| reflexivity].
    apply existsb_exists in E' as (x & Hin & Hx).
    assert (existsb (fun x => Ascii.eqb x c) opts = true).
    { apply existsb_exists. exists x.
      split; [exact (Permutation_in x (Permutation_sym P) Hin) | exact Hx]. }
    congruence.
Qed.

(** [main] once the option loop is replaced by the set of options. *)
Lemma main_eq
  (World : Type)
  (call : World -> Z -> SMCKeyData_t -> SMCKeyData_t -> kern_return_t * SMCKeyData_t * World)
  (host : option string) (sec ns : Z) (opts : list ascii) (io : IOKit) (s : Session World) :
  main call host sec ns opts io s
  = let hostnameFull := match host with Some h => h | None => "NULL"%string end in
    n <- dot_offset hostnameFull ;;
    if asks_help opts then Some (-1, s, [UsageText])
    else
      r <- report call (host_tag hostnameFull n (flags_of opts))
             (wrap64 (wrap64 (sec * 1000000000) + ns))
             (default_flags (flags_of opts)) s ;;
      let '(s, out) := r in Some (0, s, snd (SMCOpen io) ++ out).
Proof.
  unfold main. cbv zeta.
  destruct (dot_offset _) as [n |]; [cbn [obind] | reflexivity].
  rewrite option_loop_no_flags.
  destruct (asks_help opts); [reflexivity |].
  destruct (SMCOpen io) as [r0 errors]. reflexivity.
Qed.

(** [SMCOpen] prints nothing when it returns success and one error line
    before each [return 1]. *)
Lemma SMCOpen_lines (io : IOKit) :
  (fst (SMCOpen io) = kIOReturnSuccess /\ snd (SMCOpen io) = [])
  \/ (fst (SMCOpen io) = 1
      /\ (snd (SMCOpen io) = [MatchingServicesError (matching_result io)]
          \/ snd (SMCOpen io) = [NoSMCFoundError]
          \/ snd (SMCOpen io) = [ServiceOpenError (open_result io)])).
Proof.
  unfold SMCOpen.
  destruct (negb (matching_result io =? kIOReturnSuccess)); [right; auto |].
  destruct (first_device io =? 0); [right; auto |].
  destruct (negb (open_result io =? kIOReturnSuccess)); [right; auto | left; auto].
Qed.

(** X11.  The program only reads: whatever the controller answers and
    whatever the options, every request of a run goes to selector 2 with one
    of the two read commands (9, key info, or 5, bytes), after the requests
    issued before; a run that prints the usage issues none. *)
Theorem X11_main_only_reads
  (World : Type)
  (call : World -> Z -> SMCKeyData_t -> SMCKeyData_t -> kern_return_t * SMCKeyData_t * World)
  (host : option string) (sec ns : Z) (opts : list ascii) (io : IOKit) (s s' : Session World)
  (code : Z) (out : list Line) :
  main call host sec ns opts io s = Some (code, s', out) ->
  (exists new,
     issued s' = issued s ++ new
     /\ Forall (fun p => fst p = 2 /\ (kd_data8 (snd p) = 9 \/ kd_data8 (snd p) = 5)) new)
  /\ (code = -1 -> s' = s).
Proof.
  rewrite main_eq. cbv zeta.
  destruct (dot_offset _) as [n |]; [cbn [obind] | discriminate].
  destruct (asks_help opts).
  - intros [= <- <- <-]. split; [exact (reads_only_refl s) | reflexivity].
  - destruct (report call _ _ _ s) as [[s1 out1] |] eqn:E; [cbn [obind] | discriminate].
    intros [= <- <- <-].
    destruct (report_inv World call _ _ _ _ _ _ E) as (R & _).
    split; [exact R | discriminate].
Qed.

Lemma X11_main_only_reads_witness :
  exists new,
    new = [(KERNEL_INDEX_SMC, keyinfo_request 0x54433050);
           (KERNEL_INDEX_SMC, bytes_request 0x54433050 2)]
    /\ Forall (fun p => fst p = 2 /\ (kd_data8 (snd p) = 9 \/ kd_data8 (snd p) = 5)) new.
Proof.
  let v := eval vm_compute in
             (main (table_smc (sample_table [3])) (Some "mymac.local"%string) 1 5
                ["c"%char] io_opened (opened tt)) in
  assert (E : main (table_smc (sample_table [3])) (Some "mymac.local"%string) 1 5
                ["c"%char] io_opened (opened tt) = v)
    by (vm_compute; reflexivity).
  match type of E with
  | _ = Some (?code, ?s', ?out) =>
      destruct (proj1 (X11_main_only_reads unit (table_smc (sample_table [3]))
                         (Some "mymac.local"%string) 1 5 ["c"%char] io_opened (opened tt)
                         s' code out E)) as (new & Hn & F)
  end.
  exists new. split; [| exact F].
  cbn [issued opened app] in Hn. symmetry. exact Hn.
Defined.

(** X12.  The usage: with a host name that has a dot, a run whose options
    include [h] or [?] (what [getopt] returns for an unknown option) prints
    the usage and returns -1 without touching the controller, whatever the
    other options and wherever it stands among them; any other run returns
    0 and does not print the usage. *)
Theorem X12_main_usage
  (World : Type)
  (call : World -> Z -> SMCKeyData_t -> SMCKeyData_t -> kern_return_t * SMCKeyData_t * World)
  (h : string) (n : nat) (sec ns : Z) (opts : list ascii) (io : IOKit) (s : Session World) :
  dot_offset h = Some n ->
  if asks_help opts
  then main call (Some h) sec ns opts io s = Some (-1, s, [UsageText])
  else forall code s' out,
         main call (Some h) sec ns opts io s = Some (code, s', out) ->
         code = 0 /\ ~ In UsageText out.
Proof.
  intros Hd. rewrite main_eq. cbv zeta. rewrite Hd. cbn [obind].
  destruct (asks_help opts); [reflexivity |].
  intros code s' out.
  destruct (report call _ _ _ s) as [[s1 out1] |] eqn:E; [cbn [obind] | discriminate].
  intros [= <- <- <-]. split; [reflexivity |].
  destruct (report_inv World call _ _ _ _ _ _ E) as (_ & kept & tl & fl & -> & _ & F & _).
  intros Hin. apply in_app_or in Hin as [Hin | Hin].
  { destruct (SMCOpen_lines io) as [[_ He] | [_ [He | [He | He]]]];
      rewrite He in Hin; cbn in Hin; [contradiction | | |];
      destruct Hin as [Hin | []]; discriminate Hin. }
  apply in_app_or in Hin as [Hin | Hin].
  - clear - F Hin. induction F as [| ks line kept tl Hl F IH]; [contradiction |].
    destruct Hin as [-> | Hin]; [| exact (IH Hin)].
    destruct Hl as (t & Ht & _). discriminate Ht.
  - apply in_map_iff in Hin as (l & Hl & _). discriminate Hl.
Qed.

Lemma X12_main_usage_witness :
  main (table_smc (sample_table [3])) (Some "mymac.local"%string) 1 5
    ["A"; "n"; "h"; "f"]%char io_opened (opened tt)
  = Some (-1, opened tt, [UsageText]).
Proof.
  exact (X12_main_usage unit (table_smc (sample_table [3])) "mymac.local"%string 5 1 5
           ["A"; "n"; "h"; "f"]%char io_opened (opened tt) eq_refl).
Defined.

(** X13.  The host name: [main] has no defined result when the name
    [gethostname] stores has no dot, and when [gethostname] fails (the
    fallback text [NULL] has none): [strchr] returns the null pointer and
    the length given to [strncpy] is the difference of unrelated pointers.
    This is so for every option list, the usage included. *)
Theorem X13_main_host_without_dot
  (World : Type)
  (call : World -> Z -> SMCKeyData_t -> SMCKeyData_t -> kern_return_t * SMCKeyData_t * World)
  (h : string) (sec ns : Z) (opts : list ascii) (io : IOKit) (s : Session World) :
  dot_offset h = None ->
  main call (Some h) sec ns opts io s = None
  /\ main call None sec ns opts io s = None.
Proof.
  intros Hd. unfold main. cbv zeta. rewrite Hd. split; reflexivity.
Qed.

Lemma X13_main_host_without_dot_witness :
  main (table_smc (sample_table [3])) (Some "mymac"%string) 1 5 ["h"%char] io_opened (opened tt)
  = None.
Proof.
  exact (proj1 (X13_main_host_without_dot unit (table_smc (sample_table [3]))
                  "mymac"%string 1 5 ["h"%char] io_opened (opened tt) eq_refl)).
Defined.

(** X14.  The options form a set: two option lists that are permutations
    of each other give the same run (the same return value, requests and
    lines). *)
Theorem X14_main_options_order
  (World : Type)
  (call : World -> Z -> SMCKeyData_t -> SMCKeyData_t -> kern_return_t * SMCKeyData_t * World)
  (host : option string) (sec ns : Z) (opts opts' : list ascii) (io : IOKit) (s : Session World) :
  Permutation opts opts' ->
  main call host sec ns opts io s = main call host sec ns opts' io s.
Proof.
  intros P. rewrite !main_eq.
  assert (Hf : flags_of opts = flags_of opts').
  { unfold flags_of. rewrite !(has_opt_Permutation _ opts opts' P). reflexivity. }
  assert (Hh : asks_help opts = asks_help opts').
  { unfold asks_help. rewrite !(has_opt_Permutation _ opts opts' P). reflexivity. }
  rewrite Hf, Hh. reflexivity.
Qed.

Lemma X14_main_options_order_witness :
  main (table_smc (sample_table [3])) (Some "mymac.local"%string) 1 5
    ["n"; "c"; "f"]%char io_opened (opened tt)
  = main (table_smc (sample_table [3])) (Some "mymac.local"%string) 1 5
      ["f"; "n"; "c"]%char io_opened (opened tt).
Proof.
  apply (X14_main_options_order unit (table_smc (sample_table [3]))
           (Some "mymac.local"%string) 1 5 ["n"; "c"; "f"]%char ["f"; "n"; "c"]%char io_opened
           (opened tt)).
  apply Permutation_sym. apply (Permutation_cons_app ["n"; "c"]%char [] "f"%char).
  apply Permutation_refl.
Defined.

(** X15.  The default: a run without any of the options [a A c f g w s]
    is the run with [a] added, and [a] stands for the five options
    [c g f w s] (the usage text names three of them). *)
Theorem X15_main_default
  (World : Type)
  (call : World -> Z -> SMCKeyData_t -> SMCKeyData_t -> kern_return_t * SMCKeyData_t * World)
  (host : option string) (sec ns : Z) (opts : list ascii) (io : IOKit) (s : Session World) :
  existsb (fun c => has_opt c opts) ["a"; "A"; "c"; "f"; "g"; "w"; "s"]%char = false ->
  main call host sec ns opts io s = main call host sec ns ("a"%char :: opts) io s
  /\ main call host sec ns ("a"%char :: opts) io s
     = main call host sec ns ("c" :: "g" :: "f" :: "w" :: "s" :: opts)%char io s.
Proof.
  intros H. cbn [existsb] in H.
  apply orb_false_elim in H as [Ha H]. apply orb_false_elim in H as [HA H].
  apply orb_false_elim in H as [Hc H]. apply orb_false_elim in H as [Hf H].
  apply orb_false_elim in H as [Hg H]. apply orb_false_elim in H as [Hw H].
  apply orb_false_elim in H as [Hs _].
  assert (E1 : default_flags (flags_of opts) = flags_of ("a"%char :: opts)).
  { unfold default_flags, flags_of.
    cbn [f_cpu f_gpu f_wfi f_ssd f_fan f_all f_tag].
    change (has_opt "c" ("a"%char :: opts)) with (has_opt "c" opts).
    change (has_opt "g" ("a"%char :: opts)) with (has_opt "g" opts).
    change (has_opt "w" ("a"%char :: opts)) with (has_opt "w" opts).
    change (has_opt "s" ("a"%char :: opts)) with (has_opt "s" opts).
    change (has_opt "f" ("a"%char :: opts)) with (has_opt "f" opts).
    change (has_opt "A" ("a"%char :: opts)) with (has_opt "A" opts).
    change (has_opt "n" ("a"%char :: opts)) with (has_opt "n" opts).
    change (has_opt "a" ("a"%char :: opts)) with true.
    rewrite Ha, HA, Hc, Hf, Hg, Hw, Hs. reflexivity. }
  assert (E2 : flags_of ("a"%char :: opts)
               = flags_of ("c" :: "g" :: "f" :: "w" :: "s" :: opts)%char).
  { unfold flags_of, has_opt. cbn. f_equal; bool_cases. }
  assert (E3 : default_flags (flags_of ("a"%char :: opts)) = flags_of ("a"%char :: opts)).
  { unfold default_flags, flags_of at 1.
    cbn [f_cpu f_gpu f_wfi f_ssd f_fan f_all f_tag].
    change (has_opt "a" ("a"%char :: opts)) with true.
    rewrite orb_true_r. reflexivity. }
  rewrite !main_eq. cbv zeta.
  change (asks_help ("a"%char :: opts)) with (asks_help opts).
  change (asks_help ("c" :: "g" :: "f" :: "w" :: "s" :: opts)%char) with (asks_help opts).
  rewrite <- E2, E3, E1. split; reflexivity.
Qed.

Lemma X15_main_default_witness :
  main (table_smc (sample_table [3])) (Some "mymac.local"%string) 1 5
    ["n"]%char io_opened (opened tt)
  = main (table_smc (sample_table [3])) (Some "mymac.local"%string) 1 5
      ["a"; "n"]%char io_opened (opened tt).
Proof.
  exact (proj1 (X15_main_default unit (table_smc (sample_table [3]))
                  (Some "mymac.local"%string) 1 5 ["n"]%char io_opened (opened tt) eq_refl)).
Defined.

(** X16.  [A] overrides the selection: with [A] among the options, the
    options [a c f g w s] change nothing. *)
Theorem X16_main_all_overrides
  (World : Type)
  (call : World -> Z -> SMCKeyData_t -> SMCKeyData_t -> kern_return_t * SMCKeyData_t * World)
  (host : option string) (sec ns : Z) (opts : list ascii) (io : IOKit) (s : Session World) :
  has_opt "A" opts = true ->
  main call host sec ns opts io s
  = main call host sec ns
      (filter (fun c => negb (existsb (Ascii.eqb c) ["a"; "c"; "f"; "g"; "w"; "s"]%char))
         opts) io s.
Proof.
  intros HA. rewrite !main_eq. cbv zeta.
  set (keep := fun c => negb (existsb (Ascii.eqb c) ["a"; "c"; "f"; "g"; "w"; "s"]%char)).
  assert (Hk : forall c, keep c = true ->
                 has_opt c (filter keep opts) = has_opt c opts).
  { intros c Hc. unfold has_opt. clear HA.
    induction opts as [| x opts IH]; [reflexivity |].
    cbn [filter existsb].
    destruct (keep x) eqn:Ex.
    - cbn [existsb]. rewrite IH. reflexivity.
    - destruct (Ascii.eqb x c) eqn:Exc.
      + apply Ascii.eqb_eq in Exc. subst x. congruence.
      + exact IH. }
  assert (Hh : asks_help (filter keep opts) = asks_help opts).
  { unfold asks_help. rewrite !Hk by reflexivity. reflexivity. }
  assert (Ht : forall h n, host_tag h n (flags_of (filter keep opts))
                           = host_tag h n (flags_of opts)).
  { intros h n. unfold host_tag, flags_of. cbn [f_tag]. rewrite Hk by reflexivity.
    reflexivity. }
  assert (Hall : forall o, has_opt "A" o = true ->
                   forall tag ens,
                   report call tag ens (default_flags (flags_of o)) s
                   = (st <- temps call tag ens all_temperature_keys (s, []) ;;
                      fans call tag ens st)).
  { intros o Ho tag ens.
    assert (Hd : f_all (default_flags (flags_of o)) = true).
    { unfold default_flags, flags_of. cbn [f_cpu f_gpu f_wfi f_ssd f_fan f_all].
      rewrite Ho. cbn [negb]. rewrite andb_false_r. reflexivity. }
    unfold report. rewrite Hd. reflexivity. }
  destruct (dot_offset _) as [n |]; [cbn [obind] | reflexivity].
  rewrite Hh, !Ht.
  rewrite (Hall opts HA), (Hall (filter keep opts)); [reflexivity |].
  rewrite Hk by reflexivity. exact HA.
Qed.

Lemma X16_main_all_overrides_witness :
  main (table_smc (sample_table [3])) (Some "mymac.local"%string) 1 5
    ["c"; "A"; "n"; "s"]%char io_opened (opened tt)
  = main (table_smc (sample_table [3])) (Some "mymac.local"%string) 1 5
      ["A"; "n"]%char io_opened (opened tt).
Proof.
  exact (X16_main_all_overrides unit (table_smc (sample_table [3]))
           (Some "mymac.local"%string) 1 5 ["c"; "A"; "n"; "s"]%char io_opened (opened tt) eq_refl).
Defined.

(** X17.  The lines of a run that returns 0, in order: the error line of
    [SMCOpen] when opening the service fails (the run goes on and still
    returns 0), none when it succeeds; the temperature lines, in the order
    of the keys selected by the options and only for keys among them, each
    with a temperature above zero; the fan lines, by increasing fan index,
    each with a speed above zero and a percent that does not compare below
    zero.  Every temperature and fan line carries the same host tag and the
    same time stamp. *)
Theorem X17_main_lines
  (World : Type)
  (call : World -> Z -> SMCKeyData_t -> SMCKeyData_t -> kern_return_t * SMCKeyData_t * World)
  (host : option string) (sec ns : Z) (opts : list ascii) (io : IOKit) (s s' : Session World)
  (out : list Line) :
  main call host sec ns opts io s = Some (0, s', out) ->
  exists n kept tl fl,
    dot_offset (match host with Some h => h | None => "NULL"%string end) = Some n
    /\ let tag := host_tag (match host with Some h => h | None => "NULL"%string end) n
                    (flags_of opts) in
       let ens := wrap64 (wrap64 (sec * 1000000000) + ns) in
       out = snd (SMCOpen io) ++ tl ++ map (fun l => FanLine tag l ens) fl
       /\ (fst (SMCOpen io) = kIOReturnSuccess /\ snd (SMCOpen io) = []
           \/ fst (SMCOpen io) = 1
              /\ (snd (SMCOpen io) = [MatchingServicesError (matching_result io)]
                  \/ snd (SMCOpen io) = [NoSMCFoundError]
                  \/ snd (SMCOpen io) = [ServiceOpenError (open_result io)]))
       /\ Subseq kept (selected_keys (default_flags (flags_of opts)))
       /\ Forall2 (temperature_line_of tag ens) kept tl
       /\ Forall (fan_line_ok 0 10) fl
       /\ StronglySorted (fun a b => fan_index a < fan_index b) fl.
Proof.
  rewrite main_eq. cbv zeta.
  destruct (dot_offset _) as [n |]; [cbn [obind] | discriminate].
  destruct (asks_help opts); [discriminate |].
  destruct (report call _ _ _ s) as [[s1 out1] |] eqn:E; [cbn [obind] | discriminate].
  intros [= <- <-].
  destruct (report_inv World call _ _ _ _ _ _ E)
    as (_ & kept & tl & fl & -> & Sk & F & Hno & Hyes).
  exists n, kept, tl, fl.
  split; [reflexivity |]. split; [reflexivity |].
  split; [exact (SMCOpen_lines io) |]. split; [exact Sk |].
  split; [exact F |].
  destruct (f_all (default_flags (flags_of opts)) || f_fan (default_flags (flags_of opts))).
  - destruct (Hyes eq_refl) as (s0 & Hf).
    destruct (influxSMCfans_inv World call _ _ _ Hf) as (_ & nFans & Hn & Fl & _ & Srt).
    split; [| exact Srt].
    eapply Forall_impl; [| exact Fl]. unfold fan_line_ok. intros l (? & ? & ?).
    repeat split; try assumption; lia.
  - rewrite (Hno eq_refl). split; constructor.
Qed.

Lemma X17_main_lines_witness :
  main (table_smc []) (Some "mymac.local"%string) 1 5 ["c"%char] io_no_device (opened tt)
  = Some (0, {| world := tt; issued := [(KERNEL_INDEX_SMC, keyinfo_request 0x54433050)] |},
          [NoSMCFoundError])
  /\ exists n kept tl fl,
       dot_offset "mymac.local" = Some n
       /\ [NoSMCFoundError]
          = snd (SMCOpen io_no_device) ++ tl
            ++ map (fun l => FanLine (host_tag "mymac.local" n (flags_of ["c"%char])) l
                               (wrap64 (wrap64 (1 * 1000000000) + 5))) fl
       /\ (fst (SMCOpen io_no_device) = kIOReturnSuccess /\ snd (SMCOpen io_no_device) = []
           \/ fst (SMCOpen io_no_device) = 1
              /\ (snd (SMCOpen io_no_device)
                  = [MatchingServicesError (matching_result io_no_device)]
                  \/ snd (SMCOpen io_no_device) = [NoSMCFoundError]
                  \/ snd (SMCOpen io_no_device)
                     = [ServiceOpenError (open_result io_no_device)]))
       /\ Subseq kept (selected_keys (default_flags (flags_of ["c"%char])))
       /\ Forall2 (temperature_line_of (host_tag "mymac.local" n (flags_of ["c"%char]))
                     (wrap64 (wrap64 (1 * 1000000000) + 5))) kept tl
       /\ Forall (fan_line_ok 0 10) fl
       /\ StronglySorted (fun a b => fan_index a < fan_index b) fl.
Proof.
  assert (E : main (table_smc []) (Some "mymac.local"%string) 1 5 ["c"%char]
                io_no_device (opened tt)
              = Some (0, {| world := tt;
                            issued := [(KERNEL_INDEX_SMC, keyinfo_request 0x54433050)] |},
                      [NoSMCFoundError]))
    by (vm_compute; reflexivity).
  split; [exact E |].
  exact (X17_main_lines unit (table_smc []) (Some "mymac.local"%string) 1 5 ["c"%char]
           io_no_device (opened tt) _ _ E).
Defined.

(** X18.  A run that only asks for temperatures always returns: with a
    host name that has a dot and options among [c g w s n] that select at
    least one probe, [main] returns 0 for every behaviour of the
    controller. *)
Theorem X18_main_temperatures_defined
  (World : Type)
  (call : World -> Z -> SMCKeyData_t -> SMCKeyData_t -> kern_return_t * SMCKeyData_t * World)
  (h : string) (n : nat) (sec ns : Z) (opts : list ascii) (io : IOKit) (s : Session World) :
  dot_offset h = Some n ->
  forallb (fun c => existsb (Ascii.eqb c) ["c"; "g"; "w"; "s"; "n"]%char) opts = true ->
  existsb (fun c => has_opt c opts) ["c"; "g"; "w"; "s"]%char = true ->
  exists s' out, main call (Some h) sec ns opts io s = Some (0, s', out).
Proof.
  intros Hd Hall Hsel.
  assert (Hnot : forall c,
            existsb (Ascii.eqb c) ["c"; "g"; "w"; "s"; "n"]%char = false ->
            has_opt c opts = false).
  { intros c Hc. unfold has_opt.
    destruct (existsb (fun x => Ascii.eqb x c) opts) eqn:E; [| reflexivity].
    apply existsb_exists in E as (x & Hin & Hx). apply Ascii.eqb_eq in Hx. subst x.
    rewrite forallb_forall in Hall. rewrite (Hall c Hin) in Hc. discriminate Hc. }
  rewrite main_eq. cbv zeta. rewrite Hd. cbn [obind].
  unfold asks_help. rewrite !Hnot by reflexivity. cbn [orb].
  rewrite report_eq.
  assert (Hdef : default_flags (flags_of opts) = flags_of opts).
  { unfold default_flags, flags_of. cbn [f_cpu f_gpu f_wfi f_ssd f_fan f_all f_tag].
    rewrite !(Hnot "a"%char), !(Hnot "A"%char), !(Hnot "f"%char) by reflexivity.
    cbn [existsb] in Hsel. rewrite !orb_false_r in *.
    destruct (has_opt "c" opts), (has_opt "g" opts), (has_opt "w" opts),
      (has_opt "s" opts); try discriminate Hsel; reflexivity. }
  rewrite Hdef.
  assert (Hfan : f_all (flags_of opts) || f_fan (flags_of opts) = false).
  { unfold flags_of. cbn [f_all f_fan].
    rewrite !(Hnot "a"%char), !(Hnot "A"%char), !(Hnot "f"%char) by reflexivity.
    reflexivity. }
  rewrite Hfan.
  pose proof (temps_defined World call
                (host_tag h n (flags_of opts)) (wrap64 (wrap64 (sec * 1000000000) + ns))
                (selected_keys (flags_of opts)) (selected_keys_encode (flags_of opts))
                (s, [])) as D.
  destruct (temps call _ _ _ (s, [])) as [[s1 out1] |]; [cbn [obind] | contradiction].
  exists s1, (snd (SMCOpen io) ++ out1). reflexivity.
Qed.

Lemma X18_main_temperatures_defined_witness :
  exists s' out,
    main (table_smc (sample_table [3])) (Some "mymac.local"%string) 1 5
      ["c"; "n"; "s"]%char io_opened (opened tt) = Some (0, s', out).
Proof.
  exact (X18_main_temperatures_defined unit (table_smc (sample_table [3]))
           "mymac.local"%string 5 1 5 ["c"; "n"; "s"]%char io_opened (opened tt)
           eq_refl eq_refl eq_refl).
Defined.

(** * The host name *)

Lemma strncpy_dot_offset (h : string) :
  forall n, dot_offset h = Some n ->
  exists rest,
    h = (strncpy h n ++ String "." rest)%string
    /\ no_dot (strncpy h n)
    /\ String.length (strncpy h n) = n.
Proof.
  induction h as [| c h IH]; intros n H; [discriminate |].
  cbn [dot_offset] in H.
  destruct (Ascii.eqb c ".") eqn:Ec.
  - injection H as <-. apply Ascii.eqb_eq in Ec. subst c.
    exists h. cbn. repeat split.
  - destruct (dot_offset h) as [m |]; [| discriminate]. injection H as <-.
    destruct (IH m eq_refl) as (rest & Hh & Hnd & Hlen).
    exists rest. cbn [strncpy String.append no_dot String.length].
    split; [f_equal; exact Hh | split; [| f_equal; exact Hlen]].
    split; [| exact Hnd]. intros ->. discriminate Ec.
Qed.

(** X19.  The host name of the tag: when the full host name has a dot,
    the name copied is the text before its first dot (it has no dot and the
    full name continues with one), and capitalising changes at most its
    first character, into a character that is not a lower-case letter, and
    only if it was one. *)
Theorem X19_host_name (h : string) (n : nat) :
  dot_offset h = Some n ->
  exists rest,
    h = (strncpy h n ++ String "." rest)%string
    /\ no_dot (strncpy h n)
    /\ match strncpy h n, capitalise (strncpy h n) with
       | EmptyString, EmptyString => True
       | String c r, String c' r' =>
           r' = r
           /\ (N_of_ascii c' < 97 \/ 122 < N_of_ascii c')%N
           /\ (c' = c \/ (97 <= N_of_ascii c <= 122
                          /\ N_of_ascii c' = N_of_ascii c - 32)%N)
       | _, _ => False
       end.
Proof.
  intros H. destruct (strncpy_dot_offset h n H) as (rest & Hh & Hnd & _).
  exists rest. split; [exact Hh | split; [exact Hnd |]].
  destruct (strncpy h n) as [| c r]; [exact I |].
  unfold capitalise.
  change (N_of_ascii "a") with 97%N. change (N_of_ascii "z") with 122%N.
  destruct (N.leb 97 (N_of_ascii c)) eqn:La; cbn [andb].
  - destruct (N.leb (N_of_ascii c) 122) eqn:Lz.
    + apply N.leb_le in La, Lz.
      assert (E : N_of_ascii (ascii_of_N (N_of_ascii c - 32)) = (N_of_ascii c - 32)%N)
        by (apply N_ascii_embedding; lia).
      split; [reflexivity |]. rewrite E. split; [lia | right; lia].
    + apply N.leb_gt in Lz. split; [reflexivity | split; [lia | left; reflexivity]].
  - apply N.leb_gt in La. split; [reflexivity | split; [lia | left; reflexivity]].
Qed.

Lemma X19_host_name_witness :
  exists rest,
    "mymac.local"%string = (strncpy "mymac.local" 5 ++ String "." rest)%string
    /\ capitalise (strncpy "mymac.local" 5) = "Mymac"%string.
Proof.
  destruct (X19_host_name "mymac.local" 5 eq_refl) as (rest & Hh & _ & _).
  exists rest. split; [exact Hh | reflexivity].
Defined.

(** * Fan keys *)

(** X20.  The key texts of the fan loop, for every index a one-byte fan
    count allows.  The text and its NUL fit the five bytes of [key] only up
    to index 9: from index 10 on [sprintf] writes past the array.  The four
    characters [SMCReadKey] encodes are then the same for the minimum and
    the maximum speed ("F10M" for both), while up to index 9 the two keys
    differ. *)
Theorem X20_fan_keys (i : Z) :
  0 <= i < 256 ->
  ((List.length (fan_key i "ID") <= 5)%nat <-> i < 10)
  /\ ((List.length (fan_key i "Ac") <= 5)%nat <-> i < 10)
  /\ ((List.length (fan_key i "Mn") <= 5)%nat <-> i < 10)
  /\ ((List.length (fan_key i "Mx") <= 5)%nat <-> i < 10)
  /\ (encodeKey (fan_key i "Mn") = encodeKey (fan_key i "Mx") <-> 10 <= i).
Proof.
  intros Hi.
  pose proof (all_below_spec 256 fan_key_check fan_key_check_all i Hi) as H.
  unfold fan_key_check in H.
  apply andb_prop in H as [H H5]. apply andb_prop in H as [H H4].
  apply andb_prop in H as [H H3]. apply andb_prop in H as [H1 H2].
  apply eqb_prop in H1, H2, H3, H4.
  assert (L : forall n, (Nat.leb n 5 = (i <? 10)) -> ((n <= 5)%nat <-> i < 10)).
  { intros n E. destruct (i <? 10) eqn:Ei.
    - apply Nat.leb_le in E. apply Z.ltb_lt in Ei. tauto.
    - apply Nat.leb_gt in E. apply Z.ltb_ge in Ei. lia. }
  repeat (split; [apply L; assumption |]).
  destruct (encodeKey (fan_key i "Mn")) as [a |]; [| discriminate H5].
  destruct (encodeKey (fan_key i "Mx")) as [b |]; [| discriminate H5].
  apply eqb_prop in H5.
  destruct (10 <=? i) eqn:Ei.
  - apply Z.eqb_eq in H5. apply Z.leb_le in Ei. subst b. tauto.
  - apply Z.eqb_neq in H5. apply Z.leb_gt in Ei.
    split; [intros [= E]; contradiction | lia].
Qed.

Lemma X20_fan_keys_witness :
  encodeKey (fan_key 12 "Mn") = encodeKey (fan_key 12 "Mx").
Proof.
  apply (proj2 (proj2 (proj2 (proj2 (proj2 (X20_fan_keys 12 ltac:(lia))))))). lia.
Defined.

(** * Type tags *)

Lemma ultostr_u32 (t : Z) : _ultostr (u32 t) = _ultostr t.
Proof.
  unfold _ultostr, u32. rewrite Z.mod_mod by lia. reflexivity.
Qed.

Lemma type_tag_eq (t c0 c1 c2 c3 : Z) :
  1 <= c0 < 256 -> 1 <= c1 < 256 -> 1 <= c2 < 256 -> 1 <= c3 < 256 ->
  buffer_eqb (cstr (decodeTypeTag t)) [c0; c1; c2; c3] = true
  <-> u32 t = c0 * 2 ^ 24 + c1 * 2 ^ 16 + c2 * 2 ^ 8 + c3.
Proof.
  intros H0 H1 H2 H3. unfold decodeTypeTag. split.
  - intros H.
    assert (Hb : 0 <= u32 t < 2 ^ 32) by (apply Z.mod_pos_bound; lia).
    rewrite (u32_bytes (u32 t) Hb).
    unfold _ultostr, uchar in H. rewrite !Z.shiftr_div_pow2 in H by lia.
    set (b0 := (u32 t / 2 ^ 24) mod 256) in *.
    set (b1 := (u32 t / 2 ^ 16) mod 256) in *.
    set (b2 := (u32 t / 2 ^ 8) mod 256) in *.
    set (b3 := u32 t mod 256) in *.
    cbn [cstr] in H.
    destruct (b0 mod 256 =? 0); [discriminate H |]. cbn [buffer_eqb] in H.
    apply andb_prop in H as [E0 H]. apply Z.eqb_eq in E0.
    destruct (b1 mod 256 =? 0); [discriminate H |]. cbn [buffer_eqb] in H.
    apply andb_prop in H as [E1 H]. apply Z.eqb_eq in E1.
    destruct (b2 mod 256 =? 0); [discriminate H |]. cbn [buffer_eqb] in H.
    apply andb_prop in H as [E2 H]. apply Z.eqb_eq in E2.
    destruct (b3 mod 256 =? 0); [discriminate H |]. cbn [buffer_eqb] in H.
    apply andb_prop in H as [E3 H]. apply Z.eqb_eq in E3.
    rewrite E0, E1, E2, E3. reflexivity.
  - intros H. rewrite <- ultostr_u32, H.
    rewrite ultostr_packed by lia.
    cbn [cstr].
    rewrite (Z.mod_small c0), (Z.mod_small c1), (Z.mod_small c2), (Z.mod_small c3) by lia.
    destruct (c0 =? 0) eqn:E0; [apply Z.eqb_eq in E0; lia |].
    destruct (c1 =? 0) eqn:E1; [apply Z.eqb_eq in E1; lia |].
    destruct (c2 =? 0) eqn:E2; [apply Z.eqb_eq in E2; lia |].
    destruct (c3 =? 0) eqn:E3; [apply Z.eqb_eq in E3; lia |].
    cbn [Z.modulo Z.div_eucl Z.eqb buffer_eqb].
    rewrite !Z.eqb_refl. reflexivity.
Qed.

(** X21.  The type comparisons of the two readers: the decoded type tag
    compares equal to ["sp78"], ["flt "] or ["fpe2"] exactly when the low 32
    bits of the type word the controller reports are the big-endian packing
    of that text. *)
Theorem X21_type_tags (t : Z) :
  (strcmp_eq (decodeTypeTag t) "sp78" = true <-> u32 t = 0x73703738)
  /\ (strcmp_eq (decodeTypeTag t) "flt " = true <-> u32 t = 0x666C7420)
  /\ (strcmp_eq (decodeTypeTag t) "fpe2" = true <-> u32 t = 0x66706532).
Proof.
  unfold strcmp_eq.
  change (bytes_of_string "sp78") with [115; 112; 55; 56].
  change (bytes_of_string "flt ") with [102; 108; 116; 32].
  change (bytes_of_string "fpe2") with [102; 112; 101; 50].
  split; [| split].
  - exact (type_tag_eq t 115 112 55 56 ltac:(lia) ltac:(lia) ltac:(lia) ltac:(lia)).
  - exact (type_tag_eq t 102 108 116 32 ltac:(lia) ltac:(lia) ltac:(lia) ltac:(lia)).
  - exact (type_tag_eq t 102 112 101 50 ltac:(lia) ltac:(lia) ltac:(lia) ltac:(lia)).
Qed.

(** * Speeds in ["fpe2"] format as the reader returns them *)

Lemma strtof_2_prefix (b0 b1 : Z) (rest : buffer) :
  _strtof (b0 :: b1 :: rest) 2 2 = _strtof [b0; b1] 2 2.
Proof. reflexivity. Qed.

Lemma memcpy32_bytes (src : buffer) : Forall (fun b => 0 <= b < 256) (memcpy32 src).
Proof.
  unfold memcpy32.
  set (l := map (fun b => b mod 256) src ++ zero_bytes 32).
  assert (Hl : Forall (fun b => 0 <= b < 256) l).
  { subst l. apply Forall_app. split.
    - apply Forall_forall. intros x Hx. apply in_map_iff in Hx as (y & <- & _).
      apply Z.mod_pos_bound. lia.
    - apply Forall_forall. intros x Hx. apply repeat_spec in Hx. lia. }
  rewrite <- (firstn_skipn 32 l) in Hl. apply Forall_app in Hl as [Hf _]. exact Hf.
Qed.

Lemma F32_of_dyadic_below_zero (m : Z) :
  F32.ltb (F32.of_dyadic m (-2)) F32.zero = (m <? 0).
Proof.
  unfold F32.of_dyadic. destruct m as [| p | p]; cbn [binary_normalize].
  - reflexivity.
  - destruct (binary_round_positive F32.prec F32.emax ltac:(reflexivity) false p (-2))
      as (m' & e' & _ & ->).
    { pose proof (Zdigits2_pos (Zpos p) ltac:(lia)).
      unfold emin, F32.prec, F32.emax. lia. }
    destruct (e' <=? F32.emax - F32.prec); reflexivity.
  - destruct (binary_round_positive F32.prec F32.emax ltac:(reflexivity) true p (-2))
      as (m' & e' & _ & ->).
    { pose proof (Zdigits2_pos (Zpos p) ltac:(lia)).
      unfold emin, F32.prec, F32.emax. lia. }
    destruct (e' <=? F32.emax - F32.prec); reflexivity.
Qed.

(** X22.  What [getSMCrpm] returns for a two-byte ["fpe2"] value, for any
    controller: the signed first byte times 256 plus the second byte, in
    quarters.  The speed compares below zero exactly when the first byte is
    [0x80] or more: a fan turning at 8192 RPM or faster reads as negative,
    which the fan loop takes for a missing key. *)
Theorem X22_getSMCrpm_fpe2
  (World : Type)
  (call : World -> Z -> SMCKeyData_t -> SMCKeyData_t -> kern_return_t * SMCKeyData_t * World)
  (k : buffer) (s s' : Session World) (val : SMCVal_t) :
  SMCReadKey call k s = Some (kIOReturnSuccess, val, s') ->
  dataSize val = 2 ->
  strcmp_eq (dataType val) "fpe2" = true ->
  let b0 := nth 0 (bytes val) 0 in
  let b1 := nth 1 (bytes val) 0 in
  getSMCrpm call k s = Some (F32.of_dyadic (256 * schar b0 + b1) (-2), s')
  /\ (F32.ltb (F32.of_dyadic (256 * schar b0 + b1) (-2)) F32.zero = true <-> 128 <= b0).
Proof.
  intros Hr Hsz Ht b0 b1.
  destruct (SMCReadKey_success_inv World call k s s' val Hr) as (src & Hb).
  pose proof (memcpy32_bytes src) as Hall. rewrite <- Hb in Hall.
  pose proof (memcpy32_length src) as Hlen. rewrite <- Hb in Hlen.
  assert (Hshape : exists rest, bytes val = b0 :: b1 :: rest).
  { subst b0 b1. destruct (bytes val) as [| x [| y rest]]; try discriminate Hlen.
    exists rest. reflexivity. }
  destruct Hshape as (rest & Hshape).
  assert (H0 : 0 <= b0 < 256).
  { rewrite Hshape in Hall. inversion_clear Hall as [| ? ? Hx _]. exact Hx. }
  assert (H1 : 0 <= b1 < 256).
  { rewrite Hshape in Hall. inversion_clear Hall as [| ? ? _ Hr0].
    inversion_clear Hr0 as [| ? ? Hy _]. exact Hy. }
  split.
  - unfold getSMCrpm. rewrite Hr. cbn [obind].
    rewrite Hsz. change (kIOReturnSuccess =? kIOReturnSuccess) with true.
    change (0 <? 2) with true. cbn [andb].
    assert (Hflt : strcmp_eq (dataType val) "flt " = false).
    { destruct (strcmp_eq (dataType val) "flt ") eqn:E; [| reflexivity].
      unfold strcmp_eq in E, Ht. apply buffer_eqb_eq in E, Ht.
      rewrite E in Ht. discriminate Ht. }
    rewrite Hflt, Ht. change (wrap32 2) with 2.
    rewrite Hshape, strtof_2_prefix.
    rewrite (proj1 (strtof_fpe2_value b0 b1 H0 H1)). reflexivity.
  - rewrite F32_of_dyadic_below_zero.
    destruct (schar_byte b0 H0) as [[L E] | [L E]]; rewrite E.
    + split; [intros H; apply Z.ltb_lt in H; lia | lia].
    + split; [intros _; exact L | intros _; apply Z.ltb_lt; lia].
Qed.

Lemma X22_getSMCrpm_fpe2_witness :
  exists s',
    getSMCrpm (table_smc (sample_table [3])) (lit "F0Ac") (opened tt)
    = Some (F32.of_dyadic 12000 (-2), s').
Proof.
  let v := eval vm_compute in
             (SMCReadKey (table_smc (sample_table [3])) (lit "F0Ac") (opened tt)) in
  assert (E : SMCReadKey (table_smc (sample_table [3])) (lit "F0Ac") (opened tt) = v)
    by (vm_compute; reflexivity).
  match type of E with
  | _ = Some (_, ?val, ?s') =>
      exists s';
      exact (proj1 (X22_getSMCrpm_fpe2 unit (table_smc (sample_table [3])) (lit "F0Ac")
                      (opened tt) s' val E eq_refl eq_refl))
  end.
Defined.

(** X23.  The fan count at its edges, for any controller: when the [FNum]
    read succeeds with a declared size of zero, or of 2^31 or more (a
    negative [int]), the count is 0 and nothing is printed; with a declared
    size from 5 up to 2^31 - 1 the report has no defined result, the first
    shift of [_strtoul] being by 32 bits or more. *)
Theorem X23_influxSMCfans_count_size
  (World : Type)
  (call : World -> Z -> SMCKeyData_t -> SMCKeyData_t -> kern_return_t * SMCKeyData_t * World)
  (s s' : Session World) (val : SMCVal_t) :
  SMCReadKey call (lit "FNum") s = Some (kIOReturnSuccess, val, s') ->
  (dataSize val = 0 \/ 2 ^ 31 <= dataSize val -> influxSMCfans call s = Some (s', []))
  /\ (5 <= dataSize val < 2 ^ 31 -> influxSMCfans call s = None).
Proof.
  intros Hr.
  destruct (SMCReadKey_inv World call _ _ _ _ _ Hr) as (_ & Hsz & Hlen & _).
  pose proof (strtoul_defined (bytes val) (wrap32 (dataSize val)) 10) as D.
  rewrite Hlen in D. change (Z.of_nat 32) with 32 in D.
  split.
  - intros Hc. apply (influxSMCfans_count_zero World call s s' val Hr).
    destruct (_strtoul (bytes val) (wrap32 (dataSize val)) 10) as [v |].
    + destruct D as [_ [[_ ->] | [D1 _]]]; [reflexivity |].
      destruct (wrap32_u32 (dataSize val) Hsz) as [[? Hw] | [? Hw]]; rewrite Hw in D1; lia.
    + destruct (wrap32_u32 (dataSize val) Hsz) as [[? Hw] | [? Hw]]; rewrite Hw in D; lia.
  - intros Hc. unfold influxSMCfans.
    change (bytes_of_string "FNum" ++ [0]) with (lit "FNum").
    rewrite Hr. cbn [obind].
    change (kIOReturnSuccess =? kIOReturnSuccess) with true. cbv iota.
    destruct (_strtoul (bytes val) (wrap32 (dataSize val)) 10) as [v |]; [| reflexivity].
    destruct (wrap32_u32 (dataSize val) Hsz) as [[? Hw] | [? Hw]]; rewrite Hw in D; lia.
Qed.

Lemma X23_influxSMCfans_count_size_witness :
  influxSMCfans (table_smc (sample_table [0; 0; 0; 0; 3])) (opened tt) = None.
Proof.
  let v := eval vm_compute in
             (SMCReadKey (table_smc (sample_table [0; 0; 0; 0; 3])) (lit "FNum")
                (opened tt)) in
  assert (E : SMCReadKey (table_smc (sample_table [0; 0; 0; 0; 3])) (lit "FNum")
                (opened tt) = v)
    by (vm_compute; reflexivity).
  match type of E with
  | _ = Some (_, ?val, ?s') =>
      apply (proj2 (X23_influxSMCfans_count_size unit
                      (table_smc (sample_table [0; 0; 0; 0; 3])) (opened tt) s' val E))
  end.
  cbn. lia.
Defined.

(** * Speeds that are not numbers *)

(** X24.  A speed that is not a number passes the filters of the fan loop:
    NaN does not compare below zero, and with a minimum or a maximum speed
    that is NaN (or a current one) the percent is NaN, which the clamp leaves
    as it is.  The ["flt "] branch of [getSMCrpm] yields NaN for the bytes
    [00 00 C0 7F]. *)
Theorem X24_nan_bounds_pass (c mn mx : spec_float) :
  F32.ltb S754_nan F32.zero = false
  /\ F64.ltb (F64.of_f32 S754_nan) (F64.of_f32 F32.zero) = false
  /\ fan_pct c S754_nan mx = S754_nan
  /\ fan_pct c mn S754_nan = S754_nan
  /\ fan_pct S754_nan mn mx = S754_nan
  /\ F32.of_bits (le32 nan_bytes) = S754_nan.
Proof.
  split; [reflexivity |]. split; [reflexivity |].
  split; [| split; [| split; [| reflexivity]]].
  - unfold fan_pct. change (F64.of_f32 S754_nan) with S754_nan.
    assert (E : F64.sub c S754_nan = S754_nan) by (destruct c; reflexivity).
    rewrite E. reflexivity.
  - unfold fan_pct.
    assert (E : F32.sub S754_nan mn = S754_nan) by reflexivity.
    rewrite E. change (F64.of_f32 S754_nan) with S754_nan.
    assert (E' : forall x, F64.div x S754_nan = S754_nan) by (intros x; destruct x; reflexivity).
    rewrite E'. reflexivity.
  - unfold fan_pct.
    assert (E : F64.sub S754_nan (F64.of_f32 mn) = S754_nan) by reflexivity.
    rewrite E. reflexivity.
Qed.

(** A line with a percent that is not a number: the minimum speed of the
    single fan reads as NaN. *)
Lemma influxSMCfans_nan_percent :
  option_map (fun r => map (fun l => (fan_index l, fan_percent l)) (snd r))
    (influxSMCfans
       (table_smc [ {| s_key := "FNum"; s_type := "ui8 "; s_size := 1; s_bytes := [1] |};
                    {| s_key := "F0ID"; s_type := "ch8*"; s_size := 16; s_bytes := [] |};
                    {| s_key := "F0Ac"; s_type := "fpe2"; s_size := 2;
                       s_bytes := [0x2E; 0xE0] |};
                    {| s_key := "F0Mn"; s_type := "flt "; s_size := 4;
                       s_bytes := nan_bytes |};
                    {| s_key := "F0Mx"; s_type := "fpe2"; s_size := 2;
                       s_bytes := [0x4E; 0x20] |} ])
       (opened tt))
  = Some [(0, S754_nan)].
Proof. vm_compute. reflexivity. Qed.

(** * The keys of the temperature lines *)

Lemma key_eqb_eq (a b : string * string) : key_eqb a b = true -> a = b.
Proof.
  destruct a as [a1 a2], b as [b1 b2]. unfold key_eqb. cbn [fst snd].
  intros H. apply andb_prop in H as [H1 H2].
  apply String.eqb_eq in H1, H2. congruence.
Qed.

Lemma subseqb_Subseq (a b : list (string * string)) :
  subseqb a b = true -> Subseq a b.
Proof.
  revert a. induction b as [| y b IH]; intros a H.
  - destruct a; [constructor | discriminate H].
  - destruct a as [| x a].
    + constructor. apply IH. destruct b; reflexivity.
    + cbn [subseqb] in H. destruct (key_eqb x y) eqn:E.
      * apply key_eqb_eq in E. subst y. apply Subseq_keep. apply IH. exact H.
      * apply Subseq_skip. apply IH. exact H.
Qed.

Lemma distinctb_NoDup (l : list string) : distinctb l = true -> NoDup l.
Proof.
  induction l as [| x l IH]; intros H; [constructor |].
  cbn [distinctb] in H. apply andb_prop in H as [Hx Hl].
  constructor; [| exact (IH Hl)].
  intros Hin. apply negb_true_iff in Hx.
  assert (existsb (String.eqb x) l = true).
  { apply existsb_exists. exists x. split; [exact Hin | apply String.eqb_refl]. }
  congruence.
Qed.

Lemma Subseq_trans {A : Type} (a b c : list A) :
  Subseq a b -> Subseq b c -> Subseq a c.
Proof.
  intros Hab Hbc. revert a Hab.
  induction Hbc as [| x b c Hbc IH | x b c Hbc IH]; intros a Hab.
  - exact Hab.
  - apply Subseq_skip. apply IH. exact Hab.
  - inversion Hab as [| y a' b' Ha | y a' b' Ha]; subst.
    + apply Subseq_skip. apply IH. exact Ha.
    + apply Subseq_keep. apply IH. exact Ha.
Qed.

Lemma Subseq_In {A : Type} (a b : list A) (x : A) : Subseq a b -> In x a -> In x b.
Proof.
  induction 1 as [| y a b H IH | y a b H IH]; intros Hin.
  - exact Hin.
  - right. exact (IH Hin).
  - destruct Hin as [-> | Hin]; [left; reflexivity | right; exact (IH Hin)].
Qed.

Lemma Subseq_map {A B : Type} (f : A -> B) (a b : list A) :
  Subseq a b -> Subseq (map f a) (map f b).
Proof.
  induction 1; cbn [map];
    [apply Subseq_nil | apply Subseq_skip | apply Subseq_keep]; assumption.
Qed.

Lemma Subseq_NoDup {A : Type} (a b : list A) : Subseq a b -> NoDup b -> NoDup a.
Proof.
  induction 1 as [| y a b H IH | y a b H IH]; intros Hn.
  - exact Hn.
  - inversion_clear Hn as [| ? ? _ Hb]. exact (IH Hb).
  - inversion_clear Hn as [| ? ? Hy Hb]. constructor; [| exact (IH Hb)].
    intros Hin. apply Hy. exact (Subseq_In _ _ _ H Hin).
Qed.

Lemma selected_keys_subseq (f : Flags) : Subseq (selected_keys f) all_temperature_keys.
Proof.
  apply subseqb_Subseq. unfold selected_keys.
  destruct (f_all f), (f_cpu f), (f_gpu f), (f_ssd f), (f_wfi f);
    vm_compute; reflexivity.
Qed.

Lemma all_temperature_keys_distinct : NoDup (map fst all_temperature_keys).
Proof. apply distinctb_NoDup. vm_compute. reflexivity. Qed.

(** X25.  The keys of the temperature lines of a run that returns 0 (the
    lines between the line [SMCOpen] may print and the fan lines): they are
    keys of the list [main] reads under [-A], in the order of that list
    whatever the options (so [-A] reports every probe any other option
    reports), and no key occurs on two lines.  Sensor names, in contrast,
    repeat in that list: a line is identified by its key. *)
Theorem X25_main_temperature_keys
  (World : Type)
  (call : World -> Z -> SMCKeyData_t -> SMCKeyData_t -> kern_return_t * SMCKeyData_t * World)
  (host : option string) (sec ns : Z) (opts : list ascii) (io : IOKit) (s s' : Session World)
  (out : list Line) :
  main call host sec ns opts io s = Some (0, s', out) ->
  exists tag kept tl fl,
    out = snd (SMCOpen io) ++ tl
          ++ map (fun l => FanLine tag l (wrap64 (wrap64 (sec * 1000000000) + ns))) fl
    /\ Forall2 (temperature_line_of tag (wrap64 (wrap64 (sec * 1000000000) + ns))) kept tl
    /\ Subseq kept all_temperature_keys
    /\ NoDup (map fst kept).
Proof.
  rewrite main_eq. cbv zeta.
  destruct (dot_offset _) as [n |]; [cbn [obind] | discriminate].
  destruct (asks_help opts); [discriminate |].
  destruct (report call _ _ _ s) as [[s1 out1] |] eqn:E; [cbn [obind] | discriminate].
  intros [= <- <-].
  destruct (report_inv World call _ _ _ _ _ _ E)
    as (_ & kept & tl & fl & -> & Sk & F & _).
  eexists _, kept, tl, fl.
  split; [reflexivity |]. split; [exact F |].
  assert (Hs : Subseq kept all_temperature_keys)
    by exact (Subseq_trans _ _ _ Sk (selected_keys_subseq _)).
  split; [exact Hs |].
  exact (Subseq_NoDup _ _ (Subseq_map fst _ _ Hs) all_temperature_keys_distinct).
Qed.

Lemma X25_main_temperature_keys_witness :
  exists s' out,
    main (table_smc (sample_table [3])) (Some "mymac.local"%string) 1 5
      ["c"; "g"]%char io_opened (opened tt) = Some (0, s', out)
    /\ exists tag kept tl fl,
         out = snd (SMCOpen io_opened) ++ tl
               ++ map (fun l => FanLine tag l
                                  (wrap64 (wrap64 (1 * 1000000000) + 5))) fl
         /\ Forall2 (temperature_line_of tag (wrap64 (wrap64 (1 * 1000000000) + 5)))
              kept tl
         /\ Subseq kept all_temperature_keys
         /\ NoDup (map fst kept).
Proof.
  let v := eval vm_compute in
             (main (table_smc (sample_table [3])) (Some "mymac.local"%string) 1 5
                ["c"; "g"]%char io_opened (opened tt)) in
  assert (E : main (table_smc (sample_table [3])) (Some "mymac.local"%string) 1 5
                ["c"; "g"]%char io_opened (opened tt) = v)
    by (vm_compute; reflexivity).
  match type of E with
  | _ = Some (0, ?s', ?out) =>
      exists s', out; split;
      [ exact E
      | exact (X25_main_temperature_keys unit (table_smc (sample_table [3]))
                 (Some "mymac.local"%string) 1 5 ["c"; "g"]%char io_opened (opened tt) s' out E) ]
  end.
Defined.
